(** * Redirect extraction from chat messages: [src/slack_parser.py]

    A shallow embedding of [SlackParser.parse_message] and of the helpers
    it calls, together with the part of Python's [re] module the parser
    relies on (a backtracking matcher with leftmost-first semantics).

    The rest of the program follows: [config.py], the two functions of
    [slack_parser.py] that talk to Slack, [sheets_handler.py],
    [n8n_client.py] and [main.py], run against a world that answers their
    requests. *)

From Stdlib Require Import Ascii String List Arith NArith Bool Lia.
Import ListNotations.

Set Implicit Arguments.

(* ================================================================= *)
(** ** Python strings *)

(** A Python [str] is a sequence of Unicode code points. *)
Definition char := N.
Definition str := list char.

(** ASCII literals of the source, as code points. *)
Definition ch (a : ascii) : char := N_of_ascii a.
Definition py (s : string) : str := map N_of_ascii (list_ascii_of_string s).

Definition NL : char := 10%N.

Definition char_in (c : char) (l : list char) : bool := existsb (N.eqb c) l.

(** [str.isspace] on one code point, which is also what [\s] matches in a
    [str] pattern. *)
Definition isspace (c : char) : bool :=
  ((9 <=? c) && (c <=? 13) || (28 <=? c) && (c <=? 32)
   || (8192 <=? c) && (c <=? 8202)
   || char_in c [133; 160; 5760; 8232; 8233; 8239; 8287; 12288])%N.

(** [s.strip()] *)
Fixpoint lstrip (s : str) : str :=
  match s with
  | c :: s' => if isspace c then lstrip s' else s
  | [] => []
  end.

Definition rstrip (s : str) : str := rev (lstrip (rev s)).

Definition strip (s : str) : str := rstrip (lstrip s).

(** [s.split('\n')] *)
Fixpoint split_lines (s : str) : list str :=
  match s with
  | [] => [[]]
  | c :: s' =>
      if (c =? NL)%N then [] :: split_lines s'
      else match split_lines s' with
           | l :: ls => (c :: l) :: ls
           | [] => [[c]]
           end
  end.

(** The text between two positions of one string, each position given by
    the suffix that starts there: [s[len(s)-len(from) : len(s)-len(to)]]. *)
Definition between (from to : str) : str :=
  firstn (length from - length to) from.

(* ================================================================= *)
(** ** Exceptions *)

Inductive exn := IndexError | ValueError | AttributeError | TypeError.

Inductive result (A : Type) : Type :=
| Ok (a : A)
| Raise (e : exn).
Arguments Ok {A} a.
Arguments Raise {A} e.

Definition bind {A B} (m : result A) (f : A -> result B) : result B :=
  match m with
  | Ok a => f a
  | Raise e => Raise e
  end.

Declare Scope py_scope.
Delimit Scope py_scope with py.
Notation "x <- m ;; k" := (bind m (fun x => k))
  (at level 61, m at next level, right associativity) : py_scope.
Open Scope py_scope.

(** [l[i]] *)
Definition getitem {A} (l : list A) (i : nat) : result A :=
  match nth_error l i with
  | Some a => Ok a
  | None => Raise IndexError
  end.

(** [for x in l: out.append(f(x))], where [f] may raise. *)
Fixpoint for_each {A B} (f : A -> result B) (l : list A) : result (list B) :=
  match l with
  | [] => Ok []
  | a :: l' => b <- f a ;; bs <- for_each f l' ;; Ok (b :: bs)
  end.

(* ================================================================= *)
(** ** Regular expressions: the fragment of [re] used by the parser *)

Module Re.

(** An item of a bracketed class. *)
Inductive citem :=
| CChar (c : char)
| CSpace.

(** What matches exactly one character. *)
Inductive atom :=
| Lit (c : char)
| Any                          (* .        *)
| Space                        (* \s       *)
| OneOf (items : list citem)   (* [...]    *)
| NoneOf (items : list citem). (* [^...]   *)

(** Every repetition in the parser's patterns applies to one atom. *)
Inductive regex :=
| Eps
| Chr (a : atom)
| Cat (r1 r2 : regex)
| Alt (r1 r2 : regex)          (* r1|r2    *)
| Opt (r : regex)              (* (?:r)?   *)
| Star (a : atom)              (* a*       *)
| Plus (a : atom)              (* a+       *)
| PlusLazy (a : atom)          (* a+?      *)
| Group (r : regex)            (* (r), the pattern's group 1 *)
| Dollar.                      (* $        *)

Record flags := { IGNORECASE : bool; DOTALL : bool }.

Definition no_flags := {| IGNORECASE := false; DOTALL := false |}.
Definition I := {| IGNORECASE := true; DOTALL := false |}.
Definition I_S := {| IGNORECASE := true; DOTALL := true |}.

(** The simple lower-case mapping on the code points that matter for the
    parser's patterns: those folding onto an ASCII letter or onto U+00E3. *)
Definition tolower (c : char) : char :=
  (if (65 <=? c) && (c <=? 90) then c + 32
   else if c =? 304 then 105          (* U+0130 -> i *)
   else if c =? 8490 then 107         (* U+212A -> k *)
   else if c =? 195 then 227          (* U+00C3 -> U+00E3 *)
   else c)%N.

(** Under IGNORECASE a literal [l] is compared with the lower-case of the
    subject character; [i] and [s] also accept U+0131 and U+017F. *)
Definition lit_match (fl : flags) (l c : char) : bool :=
  if IGNORECASE fl then
    let lo := tolower l in
    let c' := tolower c in
    ((c' =? lo) || (lo =? 105) && (c' =? 305) || (lo =? 115) && (c' =? 383))%N
  else (c =? l)%N.

Definition citem_match (fl : flags) (c : char) (i : citem) : bool :=
  match i with
  | CChar l => lit_match fl l c
  | CSpace => isspace c
  end.

Definition atom_match (fl : flags) (a : atom) (c : char) : bool :=
  match a with
  | Lit l => lit_match fl l c
  | Any => DOTALL fl || negb (c =? NL)%N
  | Space => isspace c
  | OneOf items => existsb (citem_match fl c) items
  | NoneOf items => negb (existsb (citem_match fl c) items)
  end.

(** Group 1 of a match, as the two positions that delimit it. *)
Definition capture := option (str * str).

Section Matcher.
Variable fl : flags.
Variable A : Type.

(** Greedy repetition: the longest run first, then shorter ones. *)
Fixpoint star_greedy (p : char -> bool) (s : str) (k : str -> option A)
  : option A :=
  match s with
  | c :: s' =>
      if p c then
        match star_greedy p s' k with
        | Some x => Some x
        | None => k s
        end
      else k s
  | [] => k s
  end.

(** Lazy repetition: the shortest run first. *)
Fixpoint star_lazy (p : char -> bool) (s : str) (k : str -> option A)
  : option A :=
  match k s with
  | Some x => Some x
  | None =>
      match s with
      | c :: s' => if p c then star_lazy p s' k else None
      | [] => None
      end
  end.

(** [mt r s g k]: match [r] at the start of [s], with group state [g],
    and hand what is left to the continuation [k]; alternatives are
    tried in the order of the backtracking engine and the first one the
    continuation accepts wins. *)
Fixpoint mt (r : regex) (s : str) (g : capture)
  (k : str -> capture -> option A) : option A :=
  match r with
  | Eps => k s g
  | Chr a =>
      match s with
      | c :: s' => if atom_match fl a c then k s' g else None
      | [] => None
      end
  | Cat r1 r2 => mt r1 s g (fun s' g' => mt r2 s' g' k)
  | Alt r1 r2 =>
      match mt r1 s g k with
      | Some x => Some x
      | None => mt r2 s g k
      end
  | Opt r1 =>
      match mt r1 s g k with
      | Some x => Some x
      | None => k s g
      end
  | Star a => star_greedy (atom_match fl a) s (fun s' => k s' g)
  | Plus a =>
      match s with
      | c :: s' =>
          if atom_match fl a c
          then star_greedy (atom_match fl a) s' (fun s'' => k s'' g)
          else None
      | [] => None
      end
  | PlusLazy a =>
      match s with
      | c :: s' =>
          if atom_match fl a c
          then star_lazy (atom_match fl a) s' (fun s'' => k s'' g)
          else None
      | [] => None
      end
  | Group r1 => mt r1 s g (fun s' _ => k s' (Some (s, s')))
  | Dollar =>
      match s with
      | [] => k s g
      | [c] => if (c =? NL)%N then k s g else None
      | _ => None
      end
  end.
End Matcher.

(** A match object: where the match starts and ends, and group 1. *)
Record Match := { m_start : str; m_end : str; m_g1 : capture }.

(** [m.group(0)] and [m.group(1)] ([None] when group 1 took no part). *)
Definition group0 (m : Match) : str := between (m_start m) (m_end m).
Definition group1 (m : Match) : option str :=
  match m_g1 m with
  | Some (a, b) => Some (between a b)
  | None => None
  end.

(** [re.match]: a match at the start of [s]. *)
Definition match_at (fl : flags) (r : regex) (s : str) : option Match :=
  mt fl r s None
    (fun s' g => Some {| m_start := s; m_end := s'; m_g1 := g |}).

(** [re.search]: the leftmost position at which a match starts. *)
Fixpoint search (fl : flags) (r : regex) (s : str) : option Match :=
  match match_at fl r s with
  | Some m => Some m
  | None =>
      match s with
      | [] => None
      | _ :: s' => search fl r s'
      end
  end.

(** [re.findall] for a pattern without groups: the non-overlapping
    matches, left to right; after an empty match the scan moves on by one
    character. *)
Fixpoint findall_fuel (n : nat) (fl : flags) (r : regex) (s : str)
  : list str :=
  match n with
  | O => []
  | S n' =>
      match match_at fl r s with
      | Some m =>
          group0 m ::
            (if (length (m_end m) <? length s)%nat
             then findall_fuel n' fl r (m_end m)
             else match s with
                  | [] => []
                  | _ :: s' => findall_fuel n' fl r s'
                  end)
      | None =>
          match s with
          | [] => []
          | _ :: s' => findall_fuel n' fl r s'
          end
      end
  end.

Definition findall (fl : flags) (r : regex) (s : str) : list str :=
  findall_fuel (S (length s)) fl r s.

(** [re.sub(r, r'\1', s)]: every non-overlapping match is replaced by its
    group 1, everything else is copied. *)
Definition expand1 (m : Match) : str :=
  match group1 m with
  | Some g => g
  | None => []
  end.

Fixpoint sub1_fuel (n : nat) (fl : flags) (r : regex) (s : str) : str :=
  match n with
  | O => s
  | S n' =>
      match match_at fl r s with
      | Some m =>
          if (length (m_end m) <? length s)%nat
          then expand1 m ++ sub1_fuel n' fl r (m_end m)
          else expand1 m ++ match s with
                            | [] => []
                            | c :: s' => c :: sub1_fuel n' fl r s'
                            end
      | None =>
          match s with
          | [] => []
          | c :: s' => c :: sub1_fuel n' fl r s'
          end
      end
  end.

Definition sub1 (fl : flags) (r : regex) (s : str) : str :=
  sub1_fuel (S (length s)) fl r s.

(** Pattern syntax. *)
Fixpoint word (s : string) : regex :=
  match s with
  | EmptyString => Eps
  | String a EmptyString => Chr (Lit (N_of_ascii a))
  | String a s' => Cat (Chr (Lit (N_of_ascii a))) (word s')
  end.

Definition lit (a : ascii) : citem := CChar (N_of_ascii a).

End Re.

Declare Scope re_scope.
Delimit Scope re_scope with re.
Infix "+++" := Re.Cat (at level 41, right associativity) : re_scope.
Infix "<|>" := Re.Alt (at level 51, right associativity) : re_scope.

(* ================================================================= *)
(** ** [urllib.parse.urlparse(url).netloc] *)

Module Urllib.
Section Netloc.
(** [urlsplit] validates a netloc that is bracketed or not ASCII with
    tables that are not part of this repository ([ipaddress], NFKC
    normalisation); [netloc_rejected] says when that check raises. *)
Variable netloc_rejected : str -> bool.

Definition isascii (c : char) : bool := (c <? 128)%N.
Definition isalpha_ascii (c : char) : bool :=
  ((65 <=? c) && (c <=? 90) || (97 <=? c) && (c <=? 122))%N.
Definition isdigit_ascii (c : char) : bool := ((48 <=? c) && (c <=? 57))%N.
Definition scheme_char (c : char) : bool :=
  isalpha_ascii c || isdigit_ascii c || char_in c [ch "+"; ch "-"; ch "."].

(** [url.lstrip(_WHATWG_C0_CONTROL_OR_SPACE)] *)
Fixpoint lstrip_c0 (s : str) : str :=
  match s with
  | c :: s' => if (c <=? 32)%N then lstrip_c0 s' else s
  | [] => []
  end.

(** [url[:i]] and [url[i+1:]] for [i = url.find(':')]. *)
Fixpoint split_colon (s : str) : option (str * str) :=
  match s with
  | [] => None
  | c :: s' =>
      if (c =? ch ":")%N then Some ([], s')
      else match split_colon s' with
           | Some (a, b) => Some (c :: a, b)
           | None => None
           end
  end.

Definition drop_scheme (url : str) : str :=
  match split_colon url with
  | Some (c :: sch, rest) =>
      if isalpha_ascii c && forallb scheme_char (c :: sch) then rest else url
  | _ => url
  end.

(** [_splitnetloc(url, 2)[0]]: up to the first of [/], [?], [#]. *)
Fixpoint splitnetloc (s : str) : str :=
  match s with
  | [] => []
  | c :: s' =>
      if char_in c [ch "/"; ch "?"; ch "#"] then [] else c :: splitnetloc s'
  end.

Definition urlparse_netloc (url : str) : result str :=
  let url := lstrip_c0 url in
  let url := filter (fun c => negb (char_in c [9; 10; 13]%N)) url in
  match drop_scheme url with
  | a :: b :: rest =>
      if ((a =? ch "/") && (b =? ch "/"))%N then
        let netloc := splitnetloc rest in
        let lb := char_in (ch "[") netloc in
        let rb := char_in (ch "]") netloc in
        if lb && negb rb || rb && negb lb then Raise ValueError
        else if (lb && rb || negb (forallb isascii netloc))
                && netloc_rejected netloc
        then Raise ValueError
        else Ok netloc
      else Ok []
  | _ => Ok []
  end.
End Netloc.
End Urllib.

(* ================================================================= *)
(** ** [SlackParser] *)

Import Re.
Open Scope re_scope.

(** The optional plural [s] of the label patterns. *)
Definition s_opt : regex := Opt (word "s").

(** The class of [URL_PATTERN]: no white space, angle bracket, double
    quote (34), single quote (39), closing square bracket or closing
    parenthesis; and the punctuation a URL may not end on. *)
Definition url_excluded : list citem :=
  [CSpace; lit "<"; lit ">"; CChar 34%N; CChar 39%N; lit "]"; lit ")"].
Definition url_trailing : list citem :=
  [lit "."; lit ","; lit ";"; lit ":"; lit "!"; lit "?"].

(** [URL_PATTERN]: [https?://], one or more characters of the class, and
    a last character of the class that is not trailing punctuation. *)
Definition URL_PATTERN : regex :=
  word "http" +++ s_opt +++ word "://"
  +++ Plus (NoneOf url_excluded)
  +++ Chr (NoneOf (url_excluded ++ url_trailing)).

(** [\s*(?:ones?|urls?)?\s*] and [[:\-]] *)
Definition ones_urls : regex :=
  Star Space +++ Opt (word "one" +++ s_opt <|> word "url" +++ s_opt)
  +++ Star Space.
Definition colon_dash : atom := OneOf [lit ":"; lit "-"].

Definition OLD_URL_PATTERNS : list regex :=
  [ (word "old" <|> word "vieja" <|> word "antigua" <|> word "from"
     <|> word "de" <|> word "origen")
    +++ s_opt +++ ones_urls +++ Opt (Chr colon_dash) +++ Star Space;
    (word "redirigir" <|> word "redirect") +++ Plus Space
    +++ (word "desde" <|> word "from")
    +++ Star Space +++ Opt (Chr colon_dash) +++ Star Space ].

Definition NEW_URL_PATTERNS : list regex :=
  [ (word "new" <|> word "nueva" <|> word "to" <|> word "a"
     <|> word "destino" <|> word "hacia")
    +++ ones_urls +++ Opt (Chr colon_dash) +++ Star Space;
    (word "redirigir" <|> word "redirect") +++ Plus Space
    +++ (word "a" <|> word "to" <|> word "hacia")
    +++ Star Space +++ Opt (Chr colon_dash) +++ Star Space ].

(** ['|'.join(patterns)] *)
Fixpoint join_alt (ps : list regex) : regex :=
  match ps with
  | [] => Eps
  | [p] => p
  | p :: ps' => p <|> join_alt ps'
  end.

Definition old_pattern : regex := join_alt OLD_URL_PATTERNS.
Definition new_pattern : regex := join_alt NEW_URL_PATTERNS.

(** [r'<(https?://[^|>]+)\|[^>]+>'] and [r'<(https?://[^>]+)>'] *)
Definition wrapper_with_label : regex :=
  word "<"
  +++ Group (word "http" +++ s_opt +++ word "://"
             +++ Plus (NoneOf [lit "|"; lit ">"]))
  +++ word "|" +++ Plus (NoneOf [lit ">"]) +++ word ">".
Definition wrapper_plain : regex :=
  word "<"
  +++ Group (word "http" +++ s_opt +++ word "://" +++ Plus (NoneOf [lit ">"]))
  +++ word ">".

(** [r'(?:reason|raz[o..]n|motivo)\s*[:\-]?\s*(.+?)(?:\n|$)']; the class
    of the source holds [o], U+00C3 and U+00B3. *)
Definition reason_label : regex :=
  word "reason"
  <|> word "raz" +++ Chr (OneOf [lit "o"; CChar 195%N; CChar 179%N]) +++ word "n"
  <|> word "motivo".
Definition reason_patterns : list regex :=
  [ reason_label +++ Star Space +++ Opt (Chr colon_dash) +++ Star Space
    +++ Group (PlusLazy Any) +++ (Chr (Lit NL) <|> Dollar) ].

(** [r'(?:old|vieja|antigua)s?\s*(?:ones?|urls?)?\s*[:\-](.+?)(?:new|nueva|to|a|destino)'] *)
Definition old_section_pattern : regex :=
  (word "old" <|> word "vieja" <|> word "antigua")
  +++ s_opt +++ ones_urls +++ Chr colon_dash
  +++ Group (PlusLazy Any)
  +++ (word "new" <|> word "nueva" <|> word "to" <|> word "a"
       <|> word "destino").

Record RedirectRequest := {
  old_url : str;
  new_url : str;
  message_ts : str;
  channel_id : str;
  requester : str;
  reason : option str
}.

(** A message dict; a key that is absent is [None]. *)
Record message := {
  msg_text : option str;
  msg_ts : option str;
  msg_channel : option str;
  msg_user : option str
}.

(** [d.get(key, default)] *)
Definition get {A} (v : option A) (default : A) : A :=
  match v with
  | Some a => a
  | None => default
  end.

Definition nonempty {A} (l : list A) : bool :=
  match l with
  | [] => false
  | _ => true
  end.

Definition is_some {A} (o : option A) : bool :=
  match o with
  | Some _ => true
  | None => false
  end.

Definition str_eqb (a b : str) : bool :=
  if list_eq_dec N.eq_dec a b then true else false.

Definition find_urls (text : str) : list str := findall no_flags URL_PATTERN text.

(** [_clean_slack_text] *)
Definition _clean_slack_text (text : str) : str :=
  let text := sub1 no_flags wrapper_with_label text in
  let text := sub1 no_flags wrapper_plain text in
  text.

(** [match.group(1).strip()] *)
Definition group1_strip (m : Match) : result str :=
  match group1 m with
  | Some g => Ok (strip g)
  | None => Raise AttributeError
  end.

(** [_extract_reason] *)
Fixpoint first_reason (patterns : list regex) (text : str)
  : result (option str) :=
  match patterns with
  | [] => Ok None
  | pattern :: rest =>
      match search I pattern text with
      | Some m => r <- group1_strip m ;; Ok (Some r)
      | None => first_reason rest text
      end
  end.

Definition _extract_reason (text : str) : result (option str) :=
  first_reason reason_patterns text.

(** The running marker and the two accumulators of the line scan. *)
Inductive section_type := old | new.

Record scan := {
  old_urls : list str;
  new_urls : list str;
  current_type : option section_type
}.

Definition scan_start : scan :=
  {| old_urls := []; new_urls := []; current_type := None |}.

(** One iteration of [for line in lines]. *)
Definition scan_line (st : scan) (line : str) : scan :=
  let line := strip line in
  if negb (nonempty line) then st
  else
    let current :=
      if is_some (search I old_pattern line) then Some old
      else if is_some (search I new_pattern line) then Some new
      else current_type st in
    let line_urls := find_urls line in
    match current with
    | Some old => {| old_urls := old_urls st ++ line_urls;
                     new_urls := new_urls st;
                     current_type := current |}
    | Some new => {| old_urls := old_urls st;
                     new_urls := new_urls st ++ line_urls;
                     current_type := current |}
    | None => {| old_urls := old_urls st;
                 new_urls := new_urls st;
                 current_type := current |}
    end.

Definition scan_lines (lines : list str) : scan :=
  fold_left scan_line lines scan_start.

(** [for i, old_url in enumerate(old_urls): if i < len(new_urls): ...] *)
Fixpoint pair_by_index (i : nat) (olds news : list str)
  : result (list (str * str)) :=
  match olds with
  | [] => Ok []
  | o :: olds' =>
      if (i <? length news)%nat then
        n <- getitem news i ;;
        rest <- pair_by_index (S i) olds' news ;;
        Ok ((o, n) :: rest)
      else pair_by_index (S i) olds' news
  end.

(** "Create redirect pairs" *)
Definition make_pairs (olds news : list str) : result (list (str * str)) :=
  if nonempty olds && nonempty news then
    if (length news =? 1)%nat then
      for_each (fun o => n <- getitem news 0 ;; Ok (o, n)) olds
    else if (length olds =? length news)%nat then
      Ok (combine olds news)
    else
      pair_by_index 0 olds news
  else Ok [].

(** [_parse_labeled_format] *)
Definition _parse_labeled_format (text : str) : result (list (str * str)) :=
  let urls := find_urls text in
  if (length urls <? 2)%nat then Ok []
  else
    let has_old_label := search I old_pattern text in
    let has_new_label := search I new_pattern text in
    if negb (is_some has_old_label && is_some has_new_label) then Ok []
    else
      let st := scan_lines (split_lines text) in
      make_pairs (old_urls st) (new_urls st).

(** [_parse_multi_old_urls] *)
Definition _parse_multi_old_urls (text : str) : result (list (str * str)) :=
  match search I_S old_section_pattern text with
  | Some m =>
      match group1 m with
      | Some old_section =>
          let olds := find_urls old_section in
          let remaining_text := m_end m in
          let news := find_urls remaining_text in
          if nonempty olds && nonempty news then
            n <- getitem news 0 ;;
            for_each (fun o => Ok (o, n)) olds
          else Ok []
      | None => Raise TypeError
      end
  | None => Ok []
  end.

Section Parser.
Variable netloc_rejected : str -> bool.
(** [Config.SLACK_CHANNEL_ID] *)
Variable SLACK_CHANNEL_ID : str.

(** [try: ... except Exception: return False] *)
Definition _same_domain (url1 url2 : str) : result bool :=
  match
    domain1 <- Urllib.urlparse_netloc netloc_rejected url1 ;;
    domain2 <- Urllib.urlparse_netloc netloc_rejected url2 ;;
    Ok (str_eqb domain1 domain2)
  with
  | Ok b => Ok b
  | Raise _ => Ok false
  end.

(** [_parse_sequential_urls] *)
Definition _parse_sequential_urls (text : str)
  : result (list (str * str)) :=
  let urls := find_urls text in
  if (length urls <? 2)%nat then Ok []
  else if (length urls =? 2)%nat then
    u0 <- getitem urls 0 ;;
    u1 <- getitem urls 1 ;;
    same <- _same_domain u0 u1 ;;
    if same then Ok [(u0, u1)] else Ok []
  else Ok [].

(** The cascade of [parse_message]: [if not redirects: ...]. *)
Definition extract_pairs (text : str) : result (list (str * str)) :=
  redirects <- _parse_labeled_format text ;;
  redirects <- (if negb (nonempty redirects)
                then _parse_multi_old_urls text else Ok redirects) ;;
  redirects <- (if negb (nonempty redirects)
                then _parse_sequential_urls text else Ok redirects) ;;
  Ok redirects.

(** [parse_message] *)
Definition parse_message (m : message) : result (list RedirectRequest) :=
  let text := get (msg_text m) [] in
  let ts := get (msg_ts m) [] in
  let channel := get (msg_channel m) SLACK_CHANNEL_ID in
  let requester := get (msg_user m) (py "unknown") in
  let text := _clean_slack_text text in
  reason <- _extract_reason text ;;
  redirects <- extract_pairs text ;;
  Ok (map (fun p => {| old_url := fst p; new_url := snd p;
                       message_ts := ts; channel_id := channel;
                       requester := requester; reason := reason |})
          redirects).
End Parser.

(* ================================================================= *)
(** ** Specifications *)

(** What a regular expression denotes: [matches fl r u rest] says that
    [r] can match the text [u] when [rest] follows it. *)
Inductive matches (fl : flags) : regex -> str -> str -> Prop :=
| M_Eps rest : matches fl Eps [] rest
| M_Chr a c rest :
    atom_match fl a c = true -> matches fl (Chr a) [c] rest
| M_Cat r1 r2 u v rest :
    matches fl r1 u (v ++ rest) -> matches fl r2 v rest ->
    matches fl (Cat r1 r2) (u ++ v) rest
| M_AltL r1 r2 u rest : matches fl r1 u rest -> matches fl (Alt r1 r2) u rest
| M_AltR r1 r2 u rest : matches fl r2 u rest -> matches fl (Alt r1 r2) u rest
| M_OptSome r u rest : matches fl r u rest -> matches fl (Opt r) u rest
| M_OptNone r rest : matches fl (Opt r) [] rest
| M_Star a u rest :
    forallb (atom_match fl a) u = true -> matches fl (Star a) u rest
| M_Plus a u rest :
    u <> [] -> forallb (atom_match fl a) u = true ->
    matches fl (Plus a) u rest
| M_PlusLazy a u rest :
    u <> [] -> forallb (atom_match fl a) u = true ->
    matches fl (PlusLazy a) u rest
| M_Group r u rest : matches fl r u rest -> matches fl (Group r) u rest
| M_Dollar rest : rest = [] \/ rest = [NL] -> matches fl Dollar [] rest.

(** A pattern every match of which sets group 1. *)
Fixpoint sets_group (r : regex) : bool :=
  match r with
  | Group _ => true
  | Cat r1 r2 => sets_group r1 || sets_group r2
  | Alt r1 r2 => sets_group r1 && sets_group r2
  | _ => false
  end.

(** The URL-syntax predicate: [http://] or [https://], then at least two
    characters, none of them white space, an angle bracket, a quote, a
    closing square bracket or a closing parenthesis, the last one not one
    of [.,;:!?]. *)
Definition url_char (c : char) : bool :=
  negb (isspace c || char_in c [ch "<"; ch ">"; 34; 39; ch "]"; ch ")"]%N).

Definition url_last_char (c : char) : bool :=
  url_char c
  && negb (char_in c [ch "."; ch ","; ch ";"; ch ":"; ch "!"; ch "?"]).

Definition url_tail (t : str) : bool :=
  match rev t with
  | c :: ((_ :: _) as front) => url_last_char c && forallb url_char front
  | _ => false
  end.

Fixpoint strip_prefix (p s : str) : option str :=
  match p, s with
  | [], _ => Some s
  | a :: p', b :: s' => if (a =? b)%N then strip_prefix p' s' else None
  | _ :: _, [] => None
  end.

Definition url_syntax (u : str) : bool :=
  match strip_prefix (py "https://") u with
  | Some t => url_tail t
  | None => false
  end
  || match strip_prefix (py "http://") u with
     | Some t => url_tail t
     | None => false
     end.

(** What [_same_domain] compares: [urlparse] gives both URLs a netloc
    and it is the same. *)
Definition same_netloc (netloc_rejected : str -> bool) (url1 url2 : str)
  : Prop :=
  exists h, Urllib.urlparse_netloc netloc_rejected url1 = Ok h
            /\ Urllib.urlparse_netloc netloc_rejected url2 = Ok h.

(** The record [parse_message] builds for one pair. *)
Definition request_of (ts channel requester : str) (reason : option str)
  (p : str * str) : RedirectRequest :=
  {| old_url := fst p; new_url := snd p; message_ts := ts;
     channel_id := channel; requester := requester; reason := reason |}.

(** The pairs a list of records stands for. *)
Definition pairs_of (rs : list RedirectRequest) : list (str * str) :=
  map (fun r => (old_url r, new_url r)) rs.






(** What follows [https://] or [http://] at the start of [s]. *)
Definition after_scheme (s : str) : option str :=
  match strip_prefix (py "https://") s with
  | Some t => Some t
  | None => strip_prefix (py "http://") s
  end.












(** ASCII lower case. *)
Definition ascii_lower (c : char) : char :=
  (if (65 <=? c) && (c <=? 90) then c + 32 else c)%N.

(** What stands before the first character of [stops]. *)
Fixpoint up_to (stops : list char) (s : str) : str :=
  match s with
  | [] => []
  | c :: s' => if char_in c stops then [] else c :: up_to stops s'
  end.

(** The authority of an [http] or [https] URL: what stands between [//]
    and the next [/], [?] or [#], user information and port included. *)
Definition authority (u : str) : option str :=
  match strip_prefix (py "https://") u with
  | Some t => Some (up_to [ch "/"; ch "?"; ch "#"] t)
  | None =>
      match strip_prefix (py "http://") u with
      | Some t => Some (up_to [ch "/"; ch "?"; ch "#"] t)
      | None => None
      end
  end.

(** An authority [urlparse] accepts: no opening square bracket in it (a
    URL token holds no closing one), and when it is not all ASCII the
    check of its characters passes. *)
Definition accepted (netloc_rejected : str -> bool) (a : str) : bool :=
  negb (char_in (ch "[") a)
  && (forallb Urllib.isascii a || negb (netloc_rejected a)).

(** The part of an authority that follows its last [@]. *)
Fixpoint after_at (a : str) : str :=
  match a with
  | [] => []
  | c :: a' =>
      if char_in (ch "@") a' then after_at a'
      else if (c =? ch "@")%N then a' else c :: a'
  end.

(** The host of a URL: its authority without user information and port,
    in lower case. *)
Definition host (u : str) : option str :=
  match authority u with
  | Some a => Some (map ascii_lower (up_to [ch ":"] (after_at a)))
  | None => None
  end.

(** Two URLs share an authority: both have one, the two are equal
    character by character, and [urlparse] accepts it. *)
Definition same_authority (netloc_rejected : str -> bool) (u1 u2 : str)
  : bool :=
  match authority u1, authority u2 with
  | Some a1, Some a2 => str_eqb a1 a2 && accepted netloc_rejected a1
  | _, _ => false
  end.

(** The label tokens of the reason extractor up to ASCII case. *)

Definition is_word (w : string) (s : str) : bool :=
  str_eqb (map ascii_lower s) (py w).

Definition label_token (s : str) : bool :=
  is_word "reason" s || is_word "razon" s || is_word "motivo" s.

(** Where a label token may start: [reason], [motivo], or [raz] and [n]
    with any one character between them, in any case. *)
Definition label_shape : regex :=
  word "reason" <|> word "raz" +++ Chr (NoneOf []) +++ word "n"
  <|> word "motivo".

Definition label_here (s : str) : bool := is_some (match_at I label_shape s).

(** No label token starts at any of the first [n] positions of [s]. *)
Fixpoint no_label_before (n : nat) (s : str) : bool :=
  match n with
  | O => true
  | S n' =>
      negb (label_here s)
      && match s with
         | [] => true
         | _ :: s' => no_label_before n' s'
         end
  end.

(** A separator: white space, then possibly a colon or a dash and white
    space again. *)
Definition separator (sep : str) : bool :=
  match lstrip sep with
  | [] => true
  | c :: ws => char_in c [ch ":"; ch "-"] && forallb isspace ws
  end.

(** The rest of the label's line: not empty, no newline inside, and its
    first character not part of the separator. *)
Definition reason_text (sep body : str) : bool :=
  match body with
  | [] => false
  | c :: _ =>
      negb (isspace c)
      && forallb (fun x => negb (x =? NL)%N) body
      && (nonempty (lstrip sep) || negb (char_in c [ch ":"; ch "-"]))
  end.

Definition line_end (post : str) : bool :=
  match post with
  | [] => true
  | c :: _ => (c =? NL)%N
  end.

(** Lower-case ASCII letters. *)
Definition is_lower (c : char) : bool := ((97 <=? c) && (c <=? 122))%N.

(** Preconditions of the labeled strategy: at least two URL tokens, an
    old-label keyword and a new-label keyword somewhere in the text. *)
Definition labeled_preconditions (text : str) : Prop :=
  2 <= length (find_urls text)
  /\ is_some (search I old_pattern text) = true
  /\ is_some (search I new_pattern text) = true.

(** Precondition of the sequential fallback: exactly two URL tokens. *)
Definition sequential_preconditions (text : str) : Prop :=
  length (find_urls text) = 2.

(* ================================================================= *)
(** ** Messages *)

(** The lines of a message, joined by newlines. *)
Fixpoint unlines (ls : list str) : str :=
  match ls with
  | [] => []
  | [l] => l
  | l :: ls' => l ++ NL :: unlines ls'
  end.

Definition text_message (text : str) : message :=
  {| msg_text := Some text; msg_ts := None; msg_channel := None;
     msg_user := None |}.

(** The message of [test_parse_multiple_old_urls] in [tests/test_parser.py]. *)
Definition multiple_old_urls_text : str := unlines [
  py "Hi, could I get the following urls redirected please?";
  py "Old ones: https://marseillesecrete.com/cezanne-kandinsky-la-nouvelle-expo-immersive-a-voir-aux-carrieres-de-lumieres-en-2021/";
  py "https://marseillesecrete.com/exposition-carrieres-des-lumieres/";
  py "https://marseillesecrete.com/dali-et-gaudi-debarquent-aux-carrieres-de-lumieres-pour-une-experience-immersive-inedite/";
  py "https://marseillesecrete.com/provence-le-prochain-grand-defile-chanel-aura-lieu-aux-carrieres-de-lumieres/";
  py "New: https://marseillesecrete.com/carrieres-des-lumieres-expositions-picasso-frida-kahlo/";
  py "Reason: old articles for past exhibitions, updated info, GD potential" ].

Definition multiple_old_urls_message : message :=
  {| msg_text := Some multiple_old_urls_text;
     msg_ts := Some (py "1234567890.123458");
     msg_channel := None;
     msg_user := Some (py "U12347") |}.

(** The five URL tokens of that message, in order. *)
Definition multiple_old_urls_tokens : list str := [
  py "https://marseillesecrete.com/cezanne-kandinsky-la-nouvelle-expo-immersive-a-voir-aux-carrieres-de-lumieres-en-2021/";
  py "https://marseillesecrete.com/exposition-carrieres-des-lumieres/";
  py "https://marseillesecrete.com/dali-et-gaudi-debarquent-aux-carrieres-de-lumieres-pour-une-experience-immersive-inedite/";
  py "https://marseillesecrete.com/provence-le-prochain-grand-defile-chanel-aura-lieu-aux-carrieres-de-lumieres/";
  py "https://marseillesecrete.com/carrieres-des-lumieres-expositions-picasso-frida-kahlo/" ].

(** One URL token that carries a second URL in its query string. *)
Definition nested_url_text : str :=
  py "Old: https://example.com/login?next=https://example.com/home".

(** Two URL tokens on one line, the second with [de] in its path. *)
Definition unlabeled_pair_text : str :=
  py "https://x.com/a https://x.com/de".

(** The same link twice. *)
Definition same_link_text : str := py "https://x.com/p https://x.com/p".


(** Two links to one host, the second with its port. *)
Definition port_pair_text : str := py "https://x.com/a https://x.com:443/b".


(* ================================================================= *)
(** ** [config.py] *)

Module Config.

(** The class attributes that are read from the environment. *)
Record t := {
  SLACK_BOT_TOKEN : str;
  SLACK_CHANNEL_ID : str;
  GOOGLE_SHEETS_ID : str;
  GOOGLE_CREDENTIALS_JSON : str;
  N8N_WEBHOOK_URL : str;
  PROCESSED_EMOJI : str
}.

Definition MAX_REDIRECTS_PER_BATCH : nat := 5.

(** [if not cls.NAME: missing.append("NAME")] *)
Definition check (value : str) (name : string) (missing : list str)
  : list str :=
  if negb (nonempty value) then missing ++ [py name] else missing.

(** [validate] *)
Definition validate (c : t) : list str :=
  let missing := [] in
  let missing := check (SLACK_BOT_TOKEN c) "SLACK_BOT_TOKEN" missing in
  let missing := check (SLACK_CHANNEL_ID c) "SLACK_CHANNEL_ID" missing in
  let missing := check (GOOGLE_SHEETS_ID c) "GOOGLE_SHEETS_ID" missing in
  let missing := check (N8N_WEBHOOK_URL c) "N8N_WEBHOOK_URL" missing in
  missing.

(** [is_valid] *)
Definition is_valid (c : t) : bool := (length (validate c) =? 0)%nat.

End Config.

(* ================================================================= *)
(** ** The services the program talks to

    Slack, Google Sheets and the N8N webhook are outside the program.  A
    run is modelled against a [World] that answers every request; the
    answer may depend on all the requests made so far, the one being
    answered included.  Logging and printing are left out. *)

(** A message of [conversations_history]: the keys [parse_message] reads,
    and the two keys only [get_unprocessed_messages] reads.  A reaction is
    given by its [name], when it has one. *)
Record slack_message := {
  sm_message : message;
  sm_subtype : option str;
  sm_reactions : option (list (option str))
}.

(** A value of a row dict read from the sheet. *)
Inductive value :=
| VInt (n : nat)
| VStr (s : str).

(** A dict with string keys, in insertion order. *)
Definition dict := list (string * value).

(** One entry of the [redirects] list of a payload, from a
    [RedirectRequest] ... *)
Record redirect_item := {
  item_old_url : str;
  item_new_url : str;
  item_requester : str;
  item_reason : option str;
  item_message_ts : str
}.

(** ... and from a row dict. *)
Record sheet_item := {
  sheet_old_url : value;
  sheet_new_url : value;
  sheet_requester : value;
  sheet_reason : value
}.

(** The JSON bodies posted to the webhook. *)
Inductive payload :=
| redirect_payload (r : redirect_item)
| batch_payload (redirects : list redirect_item) (count : nat)
| sheets_payload (redirects : list sheet_item) (count : nat).

(** The requests the program makes. *)
Inductive call :=
| conversations_history (channel : str) (limit : nat)
| reactions_add (channel name timestamp : str)
| spreadsheets_get (spreadsheetId : str)
| spreadsheets_batchUpdate_addSheet (spreadsheetId title : str)
| values_update (spreadsheetId range : str) (values : list (list str))
| values_append (spreadsheetId range : str) (values : list (list str))
| values_get (spreadsheetId range : str)
| requests_post (url : str) (json : payload) (timeout : nat)
| requests_head (url : str) (timeout : nat).

(** How a request ends: with a value, with the exception the calling
    function catches ([SlackApiError], [HttpError]), or with any other
    exception. *)
Inductive outcome (E A : Type) :=
| Returns (a : A)
| Throws (e : E)
| Crashes.
Arguments Returns {E A} a.
Arguments Throws {E A} e.
Arguments Crashes {E A}.

(** [response.json()], or [{'raw_response': response.text}] when the body
    is not JSON. *)
Inductive post_data :=
| json_data (body : str)
| raw_response (text : str).

(** How [requests.post] followed by [raise_for_status] ends, by the
    [except] clause of [_send_request] that handles it.  [str(e)] is
    [text]; [status] is the value of
    [e.response.status_code if e.response else None]. *)
Inductive post_outcome :=
| Posted (status_code : nat) (data : post_data)
| TimedOut
| ConnectionError (text : str)
| HTTPError (text : str) (status : option nat)
| OtherException (text : str).

Record World := {
  (** [result.get("messages")] of the response *)
  conversations_history_result
    : list call -> outcome str (option (list slack_message));
  (** the exception carries [e.response["error"]] *)
  reactions_add_result : list call -> outcome str unit;
  (** [spreadsheet.get('sheets')], each sheet by
      [s.get('properties', {}).get('title')] *)
  spreadsheets_get_result
    : list call -> outcome unit (option (list (option str)));
  spreadsheets_batchUpdate_result : list call -> outcome unit unit;
  values_update_result : list call -> outcome unit unit;
  values_append_result : list call -> outcome unit unit;
  (** [result.get('values')] *)
  values_get_result : list call -> outcome unit (option (list (list str)));
  requests_post_result : list call -> post_outcome;
  (** [response.status_code], or an exception *)
  requests_head_result : list call -> option nat
}.

(** What ends a computation early: an exception of the program's own
    code, or one of a service that the program does not catch. *)
Inductive io_exn :=
| PythonError (e : exn)
| KeyError (key : string)
| ServiceError.

Inductive io_result (A : Type) :=
| Done (a : A)
| Abort (e : io_exn).
Arguments Done {A} a.
Arguments Abort {A} e.

(** A computation that makes requests: from the requests made so far to
    its result and the requests made by its end. *)
Definition io (A : Type) : Type := list call -> io_result A * list call.

Definition io_ret {A} (a : A) : io A := fun h => (Done a, h).

Definition io_bind {A B} (m : io A) (f : A -> io B) : io B :=
  fun h =>
    match m h with
    | (Done a, h') => f a h'
    | (Abort e, h') => (Abort e, h')
    end.

Declare Scope io_scope.
Delimit Scope io_scope with io.
Notation "x <- m ;; k" := (io_bind m (fun x => k))
  (at level 61, m at next level, right associativity) : io_scope.

(** Code that can raise, run inside a computation. *)
Definition lift {A} (r : result A) : io A :=
  fun h =>
    match r with
    | Ok a => (Done a, h)
    | Raise e => (Abort (PythonError e), h)
    end.

(** One request inside [try: ... except E as e: ...]. *)
Definition request {E A} (c : call) (answer : list call -> outcome E A)
  : io (E + A) :=
  fun h =>
    let h' := h ++ [c] in
    match answer h' with
    | Returns a => (Done (inr a), h')
    | Throws e => (Done (inl e), h')
    | Crashes => (Abort ServiceError, h')
    end.

(** [a or b] on strings, [a] possibly [None]. *)
Definition or_else (a : option str) (b : str) : str :=
  match a with
  | Some (c :: a') => c :: a'
  | _ => b
  end.

(** [d.get(key) == s] *)
Definition is_str (v : option str) (s : str) : bool :=
  match v with
  | Some x => str_eqb x s
  | None => false
  end.

(** [', '.join(l)] *)
Fixpoint join (sep : str) (l : list str) : str :=
  match l with
  | [] => []
  | [x] => x
  | x :: l' => x ++ sep ++ join sep l'
  end.

(** [l[i:j]] for [0 <= i <= j] *)
Definition slice {A} (l : list A) (i j : nat) : list A :=
  firstn (j - i) (skipn i l).

(** [range(start, stop, step)] for a step that is not negative *)
Fixpoint range_from (fuel start stop step : nat) : list nat :=
  match fuel with
  | O => []
  | S fuel' =>
      if (start <? stop)%nat
      then start :: range_from fuel' (start + step) stop step
      else []
  end.

Definition range (start stop step : nat) : result (list nat) :=
  if (step =? 0)%nat then Raise ValueError
  else Ok (range_from (stop - start) start stop step).

(* ================================================================= *)
(** ** [slack_parser.py]: the two functions that talk to Slack *)

Section Slack.
Variable cfg : Config.t.
Variable w : World.
Local Open Scope io_scope.

(** [any(r.get("name") == Config.PROCESSED_EMOJI for r in reactions)] *)
Definition has_processed_emoji (reactions : list (option str)) : bool :=
  existsb (fun r => is_str r (Config.PROCESSED_EMOJI cfg)) reactions.

(** [for message in messages: ...] of [get_unprocessed_messages] *)
Fixpoint unprocessed_loop (messages unprocessed : list slack_message)
  : list slack_message :=
  match messages with
  | [] => unprocessed
  | message :: rest =>
      if is_str (sm_subtype message) (py "bot_message")
         || negb (nonempty (get (msg_text (sm_message message)) []))
      then unprocessed_loop rest unprocessed
      else
        let reactions := get (sm_reactions message) [] in
        if negb (has_processed_emoji reactions) then
          if is_some (search no_flags URL_PATTERN
                        (get (msg_text (sm_message message)) []))
          then unprocessed_loop rest (unprocessed ++ [message])
          else unprocessed_loop rest unprocessed
        else unprocessed_loop rest unprocessed
  end.

(** [get_unprocessed_messages] *)
Definition get_unprocessed_messages (channel_id : option str)
  : io (list slack_message) :=
  let channel := or_else channel_id (Config.SLACK_CHANNEL_ID cfg) in
  let unprocessed := [] in
  r <- request (conversations_history channel 100)
               (conversations_history_result w) ;;
  match r with
  | inr result =>
      let messages := get result [] in
      io_ret (unprocessed_loop messages unprocessed)
  | inl _ => io_ret []
  end.

(** [mark_as_processed] *)
Definition mark_as_processed (message_ts : str) (channel_id : option str)
  : io bool :=
  let channel := or_else channel_id (Config.SLACK_CHANNEL_ID cfg) in
  r <- request (reactions_add channel (Config.PROCESSED_EMOJI cfg) message_ts)
               (reactions_add_result w) ;;
  match r with
  | inr _ => io_ret true
  | inl error =>
      if str_eqb error (py "already_reacted") then io_ret true
      else io_ret false
  end.

End Slack.

(* ================================================================= *)
(** ** [sheets_handler.py] *)

(** The handler: [service] tells whether [_build_service] returned a
    service rather than [None]. *)
Record SheetsHandler := {
  spreadsheet_id : str;
  service : bool
}.

(** The row appended for one request. *)
Definition row_of (redirect : RedirectRequest) : list str :=
  [old_url redirect; new_url redirect; requester redirect;
   get (reason redirect) []; message_ts redirect; py "pending"].

(** ['Old URL', 'New URL', 'Requester', 'Reason', 'Message TS', 'Status'] *)
Definition headers : list (list str) :=
  [[py "Old URL"; py "New URL"; py "Requester"; py "Reason";
    py "Message TS"; py "Status"]].

(** [for i, row in enumerate(rows[1:], start=2): ...] of
    [get_pending_redirects] *)
Fixpoint pending_loop (i : nat) (rows : list (list str)) (pending : list dict)
  : result (list dict) :=
  match rows with
  | [] => Ok pending
  | row :: rest =>
      if (6 <=? length row)%nat then
        status <- getitem row 5 ;;
        if str_eqb status (py "pending") then
          c0 <- getitem row 0 ;;
          c1 <- getitem row 1 ;;
          c2 <- getitem row 2 ;;
          c3 <- getitem row 3 ;;
          c4 <- getitem row 4 ;;
          c5 <- getitem row 5 ;;
          pending_loop (S i) rest
            (pending ++ [[("row_index"%string, VInt i); ("old_url"%string, VStr c0);
                          ("new_url"%string, VStr c1); ("requester"%string, VStr c2);
                          ("reason"%string, VStr c3); ("message_ts"%string, VStr c4);
                          ("status"%string, VStr c5)]])
        else pending_loop (S i) rest pending
      else pending_loop (S i) rest pending
  end.

(** The rows of a sheet read into the pending dicts. *)
Definition pending_of (rows : list (list str)) : result (list dict) :=
  pending_loop 2 (tl rows) [].

Section Sheets.
Variable w : World.
Variable self : SheetsHandler.
Local Open Scope io_scope.

(** [write_redirects] *)
Definition write_redirects (redirects : list RedirectRequest)
  (sheet_name : str) : io bool :=
  if negb (service self) then io_ret false
  else if negb (nonempty redirects) then io_ret true
  else
    let rows := map row_of redirects in
    r <- request (values_append (spreadsheet_id self)
                    (sheet_name ++ py "!A:F") rows)
                 (values_append_result w) ;;
    match r with
    | inr _ => io_ret true
    | inl _ => io_ret false
    end.

(** [get_pending_redirects] *)
Definition get_pending_redirects (sheet_name : str) : io (list dict) :=
  if negb (service self) then io_ret []
  else
    r <- request (values_get (spreadsheet_id self) (sheet_name ++ py "!A:F"))
                 (values_get_result w) ;;
    match r with
    | inr result =>
        let rows := get result [] in
        lift (pending_of rows)
    | inl _ => io_ret []
    end.

(** [ensure_sheet_exists] *)
Definition ensure_sheet_exists (sheet_name : str) : io bool :=
  if negb (service self) then io_ret false
  else
    r <- request (spreadsheets_get (spreadsheet_id self))
                 (spreadsheets_get_result w) ;;
    match r with
    | inl _ => io_ret false
    | inr spreadsheet =>
        let sheets := get spreadsheet [] in
        let sheet_exists := existsb (fun s => is_str s sheet_name) sheets in
        if negb sheet_exists then
          r <- request (spreadsheets_batchUpdate_addSheet
                          (spreadsheet_id self) sheet_name)
                       (spreadsheets_batchUpdate_result w) ;;
          match r with
          | inl _ => io_ret false
          | inr _ =>
              r <- request (values_update (spreadsheet_id self)
                              (sheet_name ++ py "!A1:F1") headers)
                           (values_update_result w) ;;
              match r with
              | inl _ => io_ret false
              | inr _ => io_ret true
              end
          end
        else io_ret true
    end.

End Sheets.

(* ================================================================= *)
(** ** [n8n_client.py] *)

Record N8NClient := {
  webhook_url : str;
  timeout : nat
}.

(** The dict a send returns; a key that is absent is [None].  The value of
    [status_code] can itself be [None]. *)
Record response := {
  resp_success : bool;
  resp_message : option str;
  resp_error : option str;
  resp_status_code : option (option nat);
  resp_timeout : option nat;
  resp_data : option post_data
}.

(** [d[key]] and [d.get(key, default)] on a row dict *)
Fixpoint lookup (d : dict) (key : string) : option value :=
  match d with
  | [] => None
  | (k, v) :: d' => if String.eqb k key then Some v else lookup d' key
  end.

Definition item (d : dict) (key : string) : io value :=
  fun h =>
    match lookup d key with
    | Some v => (Done v, h)
    | None => (Abort (KeyError key), h)
    end.

Definition item_of (r : RedirectRequest) : redirect_item :=
  {| item_old_url := old_url r;
     item_new_url := new_url r;
     item_requester := requester r;
     item_reason := reason r;
     item_message_ts := message_ts r |}.

Section N8N.
Variable cfg : Config.t.
Variable w : World.
Local Open Scope io_scope.

(** [__init__] *)
Definition N8NClient_init (url : option str) : N8NClient :=
  {| webhook_url := or_else url (Config.N8N_WEBHOOK_URL cfg);
     timeout := 30 |}.

Variable self : N8NClient.

(** [_send_request] *)
Definition _send_request (p : payload) : io response :=
  if negb (nonempty (webhook_url self)) then
    io_ret {| resp_success := false; resp_message := None;
              resp_error := Some (py "N8N webhook URL not configured");
              resp_status_code := None; resp_timeout := None;
              resp_data := None |}
  else
    fun h =>
      let h' := h ++ [requests_post (webhook_url self) p (timeout self)] in
      match requests_post_result w h' with
      | Posted status data =>
          (Done {| resp_success := true; resp_message := None;
                   resp_error := None;
                   resp_status_code := Some (Some status);
                   resp_timeout := None; resp_data := Some data |}, h')
      | TimedOut =>
          (Done {| resp_success := false; resp_message := None;
                   resp_error := Some (py "Request timed out");
                   resp_status_code := None;
                   resp_timeout := Some (timeout self);
                   resp_data := None |}, h')
      | ConnectionError text =>
          (Done {| resp_success := false; resp_message := None;
                   resp_error := Some (py "Connection error: " ++ text);
                   resp_status_code := None; resp_timeout := None;
                   resp_data := None |}, h')
      | HTTPError text status =>
          (Done {| resp_success := false; resp_message := None;
                   resp_error := Some (py "HTTP error: " ++ text);
                   resp_status_code := Some status; resp_timeout := None;
                   resp_data := None |}, h')
      | OtherException text =>
          (Done {| resp_success := false; resp_message := None;
                   resp_error := Some (py "Unexpected error: " ++ text);
                   resp_status_code := None; resp_timeout := None;
                   resp_data := None |}, h')
      end.

Definition no_redirects : response :=
  {| resp_success := true;
     resp_message := Some (py "No redirects to process");
     resp_error := None; resp_status_code := None; resp_timeout := None;
     resp_data := None |}.

(** [send_redirect] *)
Definition send_redirect (redirect : RedirectRequest) : io response :=
  _send_request (redirect_payload (item_of redirect)).

(** [send_batch] *)
Definition send_batch (redirects : list RedirectRequest) : io response :=
  if negb (nonempty redirects) then io_ret no_redirects
  else
    _send_request (batch_payload (map item_of redirects) (length redirects)).

(** The list comprehension of [send_batch_for_sheets]. *)
Fixpoint sheet_items (redirects : list dict) : io (list sheet_item) :=
  match redirects with
  | [] => io_ret []
  | r :: rest =>
      o <- item r "old_url" ;;
      n <- item r "new_url" ;;
      let it := {| sheet_old_url := o; sheet_new_url := n;
                   sheet_requester := get (lookup r "requester") (VStr []);
                   sheet_reason := get (lookup r "reason") (VStr []) |} in
      its <- sheet_items rest ;;
      io_ret (it :: its)
  end.

(** [send_batch_for_sheets] *)
Definition send_batch_for_sheets (redirects : list dict) : io response :=
  if negb (nonempty redirects) then io_ret no_redirects
  else
    its <- sheet_items redirects ;;
    _send_request (sheets_payload its (length redirects)).

(** [test_connection] *)
Definition test_connection : io bool :=
  fun h =>
    let h' := h ++ [requests_head (webhook_url self) 5] in
    match requests_head_result w h' with
    | Some status_code =>
        (Done (existsb (Nat.eqb status_code) [200; 405; 404]), h')
    | None => (Done false, h')
    end.

End N8N.

(* ================================================================= *)
(** ** [main.py] *)

(** The [results] dict of a run. *)
Record results := {
  messages_processed : nat;
  redirects_found : nat;
  redirects_sent_to_n8n : nat;
  errors : list str
}.

(** [results['errors'].append(msg)] *)
Definition add_error (r : results) (msg : str) : results :=
  {| messages_processed := messages_processed r;
     redirects_found := redirects_found r;
     redirects_sent_to_n8n := redirects_sent_to_n8n r;
     errors := errors r ++ [msg] |}.

(** [results['redirects_sent_to_n8n'] += n] *)
Definition add_sent (r : results) (n : nat) : results :=
  {| messages_processed := messages_processed r;
     redirects_found := redirects_found r;
     redirects_sent_to_n8n := redirects_sent_to_n8n r + n;
     errors := errors r |}.

(** [results['messages_processed'] = m; results['redirects_found'] = n] *)
Definition set_counts (r : results) (m n : nat) : results :=
  {| messages_processed := m;
     redirects_found := n;
     redirects_sent_to_n8n := redirects_sent_to_n8n r;
     errors := errors r |}.

(** [d[k] = v] on a dict in insertion order: a key already present keeps
    its place. *)
Fixpoint dict_set {V} (d : list (str * V)) (k : str) (v : V)
  : list (str * V) :=
  match d with
  | [] => [(k, v)]
  | (k', v') :: d' =>
      if str_eqb k' k then (k', v) :: d' else (k', v') :: dict_set d' k v
  end.

(** [d.keys()] *)
Definition keys {V} (d : list (str * V)) : list str := map fst d.

(** [str(x)] of [response.get('error')] inside an f-string *)
Definition str_of (x : option str) : str :=
  match x with
  | Some s => s
  | None => py "None"
  end.

Section Main.
Variable netloc_rejected : str -> bool.
Variable cfg : Config.t.
Variable w : World.
(** Whether [SheetsHandler()] could build its service. *)
Variable sheets_service : bool.

(** [RedirectAutomation.__init__] *)
Definition sheets_handler : SheetsHandler :=
  {| spreadsheet_id := Config.GOOGLE_SHEETS_ID cfg;
     service := sheets_service |}.

Definition n8n_client : N8NClient := N8NClient_init cfg None.

(** Step 3: [for message in messages: ...] *)
Fixpoint parse_loop (messages : list slack_message)
  (all_redirects : list RedirectRequest)
  (message_redirects : list (str * list RedirectRequest))
  : result (list RedirectRequest * list (str * list RedirectRequest)) :=
  match messages with
  | [] => Ok (all_redirects, message_redirects)
  | message :: rest =>
      let message_ts := get (msg_ts (sm_message message)) [] in
      redirects <- parse_message netloc_rejected
                     (Config.SLACK_CHANNEL_ID cfg) (sm_message message) ;;
      if nonempty redirects then
        parse_loop rest (all_redirects ++ redirects)
          (dict_set message_redirects message_ts redirects)
      else parse_loop rest all_redirects message_redirects
  end.

Local Open Scope io_scope.

(** Step 5: [for i in range(0, len(all_redirects), batch_size): ...] *)
Fixpoint send_loop (starts : list nat) (all_redirects : list RedirectRequest)
  (batch_size : nat) (res : results) : io results :=
  match starts with
  | [] => io_ret res
  | i :: rest =>
      let batch := slice all_redirects i (i + batch_size) in
      response <- send_batch w n8n_client batch ;;
      if resp_success response then
        send_loop rest all_redirects batch_size (add_sent res (length batch))
      else
        send_loop rest all_redirects batch_size
          (add_error res (py "Failed to send batch to N8N: "
                          ++ str_of (resp_error response)))
  end.

(** Step 6: [for message_ts in message_redirects.keys(): ...] *)
Fixpoint mark_loop (timestamps : list str) (res : results) : io results :=
  match timestamps with
  | [] => io_ret res
  | message_ts :: rest =>
      marked <- mark_as_processed cfg w message_ts None ;;
      if marked then mark_loop rest res
      else
        mark_loop rest
          (add_error res (py "Failed to mark message " ++ message_ts
                          ++ py " as processed"))
  end.

(** [RedirectAutomation.run] *)
Definition run : io results :=
  let res := {| messages_processed := 0; redirects_found := 0;
                redirects_sent_to_n8n := 0; errors := [] |} in
  let missing_config := Config.validate cfg in
  if nonempty missing_config then
    io_ret (add_error res (py "Missing configuration: "
                           ++ join (py ", ") missing_config))
  else
    exists_ <- ensure_sheet_exists w sheets_handler (py "Redirects") ;;
    if negb exists_ then
      io_ret (add_error res (py "Failed to ensure sheet exists"))
    else
      messages <- get_unprocessed_messages cfg w None ;;
      if negb (nonempty messages) then io_ret res
      else
        parsed <- lift (parse_loop messages [] []) ;;
        let all_redirects := fst parsed in
        let message_redirects := snd parsed in
        let res := set_counts res (length messages) (length all_redirects) in
        if negb (nonempty all_redirects) then io_ret res
        else
          written <- write_redirects w sheets_handler all_redirects
                       (py "Redirects") ;;
          if negb written then
            io_ret (add_error res (py "Failed to write redirects to sheet"))
          else
            let batch_size := Config.MAX_REDIRECTS_PER_BATCH in
            starts <- lift (range 0 (length all_redirects) batch_size) ;;
            res <- send_loop starts all_redirects batch_size res ;;
            mark_loop (keys message_redirects) res.

(** [process_redirects], under the [try] of [cloud_function_handler]: the
    status string and the status code of the HTTP answer. *)
Definition cloud_function_handler : io (str * nat) :=
  fun h =>
    match run h with
    | (Done res, h') =>
        if nonempty (errors res)
        then (Done (py "completed_with_errors", 207), h')
        else (Done (py "success", 200), h')
    | (Abort _, h') => (Done (py "error", 500), h')
    end.

End Main.

(* ================================================================= *)
(** ** Further specifications *)

(** [u] is a contiguous piece of [s]. *)
Definition occurs_in (u s : str) : Prop :=
  exists pre post, s = pre ++ u ++ post.

(** [t] is the end of [s]. *)
Definition suffix_of (t s : str) : Prop := exists pre, s = pre ++ t.

(** [u] is a text that a group of [r] can capture. *)
Fixpoint group_text (fl : flags) (r : regex) (u : str) : Prop :=
  match r with
  | Group r1 => exists rest, matches fl r1 u rest
  | Cat r1 r2 | Alt r1 r2 => group_text fl r1 u \/ group_text fl r2 u
  | Opt r1 => group_text fl r1 u
  | _ => False
  end.

(** Neither the first nor the last character is white space. *)
Definition trimmed (s : str) : Prop :=
  (forall c s', s = c :: s' -> isspace c = false)
  /\ (forall s' c, s = s' ++ [c] -> isspace c = false).

(** A message [get_unprocessed_messages] keeps: not a bot message, with a
    text, without the processed emoji among its reactions, and with at
    least one URL token in its text. *)
Definition awaits_processing (cfg : Config.t) (m : slack_message) : bool :=
  negb (is_str (sm_subtype m) (py "bot_message"))
  && nonempty (get (msg_text (sm_message m)) [])
  && negb (has_processed_emoji cfg (get (sm_reactions m) []))
  && nonempty (find_urls (get (msg_text (sm_message m)) [])).

(** The batches of the send loop. *)
Definition batches {A} (l : list A) (starts : list nat) (size : nat)
  : list (list A) :=
  map (fun i => slice l i (i + size)) starts.

(** What a sequence of requests appends to the sheet, posts to the webhook
    in batches, and marks in Slack. *)
Definition appended (calls : list call) : list (list str) :=
  flat_map (fun c => match c with
                     | values_append _ _ rows => rows
                     | _ => []
                     end) calls.

Definition posted (calls : list call) : list redirect_item :=
  flat_map (fun c => match c with
                     | requests_post _ (batch_payload redirects _) _ =>
                         redirects
                     | _ => []
                     end) calls.

Definition marked (calls : list call) : list str :=
  flat_map (fun c => match c with
                     | reactions_add _ _ timestamp => [timestamp]
                     | _ => []
                     end) calls.

(** A request that does not write a row, post or mark. *)
Definition quiet (c : call) : bool :=
  match c with
  | values_append _ _ _ | requests_post _ _ _ | reactions_add _ _ _ => false
  | _ => true
  end.

(** Among the requests [calls] made after [h] there is an append to the
    sheet that returned; [before] and [after] are the requests around it. *)
Definition append_returned (w : World) (h before : list call)
  (rows : list (list str)) (after : list call) (calls : list call) : Prop :=
  exists sid range,
    calls = before ++ values_append sid range rows :: after
    /\ values_append_result w (h ++ before ++ [values_append sid range rows])
       = Returns tt.

(** The values of a list in the order of their first occurrence. *)
Definition distinct (l : list str) : list str :=
  fold_left (fun seen k => if existsb (str_eqb k) seen then seen
                           else seen ++ [k]) l [].

(** A batch post carries between one and [MAX_REDIRECTS_PER_BATCH]
    redirects and their number as [count]. *)
Definition batch_post_ok (c : call) : Prop :=
  match c with
  | requests_post _ (batch_payload redirects count) _ =>
      count = length redirects
      /\ 1 <= count <= Config.MAX_REDIRECTS_PER_BATCH
  | requests_post _ _ _ => False
  | _ => True
  end.

(** The dict read from a row with the cells [c0] .. [c4] and the status
    [pending], standing in row [i] of the sheet. *)
Definition cells_dict (i : nat) (c0 c1 c2 c3 c4 : str) : dict :=
  [("row_index", VInt i); ("old_url", VStr c0); ("new_url", VStr c1);
   ("requester", VStr c2); ("reason", VStr c3); ("message_ts", VStr c4);
   ("status", VStr (py "pending"))]%string.

(** An entry of a payload carries the values of a dict. *)
Definition carries (d : dict) (it : sheet_item) : Prop :=
  lookup d "old_url" = Some (sheet_old_url it)
  /\ lookup d "new_url" = Some (sheet_new_url it)
  /\ lookup d "requester" = Some (sheet_requester it)
  /\ lookup d "reason" = Some (sheet_reason it).

(** The dict that describes the request [r] when it stands in row [i] of
    the sheet with the status [pending]. *)
Definition pending_dict (i : nat) (r : RedirectRequest) : dict :=
  cells_dict i (old_url r) (new_url r) (requester r) (get (reason r) [])
    (message_ts r).

(** The requests of a run: the append of the rows of [all], the post of
    the batch [b], and the reaction on the message [ts]. *)
Definition append_of (cfg : Config.t) (all : list RedirectRequest) : call :=
  values_append (Config.GOOGLE_SHEETS_ID cfg) (py "Redirects" ++ py "!A:F")
    (map row_of all).

Definition post_of (cfg : Config.t) (b : list RedirectRequest) : call :=
  requests_post (Config.N8N_WEBHOOK_URL cfg)
    (batch_payload (map item_of b) (length b)) 30.

Definition mark_of (cfg : Config.t) (ts : str) : call :=
  reactions_add (Config.SLACK_CHANNEL_ID cfg) (Config.PROCESSED_EMOJI cfg) ts.

(** The cell of the column [Message TS] in a row. *)
Definition message_ts_cell (row : list str) : str := nth 4 row [].

(** A request that appends rows to the sheet. *)
Definition is_append (c : call) : bool :=
  match c with
  | values_append _ _ _ => true
  | _ => false
  end.

(** [all] are the records [parse_message] yields for [messages], message
    after message. *)
Definition parsed_from (nr : str -> bool) (cfg : Config.t)
  (messages : list slack_message) (all : list RedirectRequest) : Prop :=
  exists rss,
    Forall2 (fun m rs =>
               parse_message nr (Config.SLACK_CHANNEL_ID cfg) (sm_message m)
               = Ok rs) messages rss
    /\ all = concat rss.

(** A world in which every request is answered without an error. *)
Definition answers_all (w : World) : Prop :=
  (forall h, exists r, conversations_history_result w h = Returns r)
  /\ (forall h, reactions_add_result w h = Returns tt)
  /\ (forall h, exists r, spreadsheets_get_result w h = Returns r)
  /\ (forall h, spreadsheets_batchUpdate_result w h = Returns tt)
  /\ (forall h, values_update_result w h = Returns tt)
  /\ (forall h, values_append_result w h = Returns tt)
  /\ (forall h, exists status data,
        requests_post_result w h = Posted status data).

(* ================================================================= *)
(** ** A configuration and a world to run in *)

Definition sample_config : Config.t :=
  {| Config.SLACK_BOT_TOKEN := py "xoxb-1";
     Config.SLACK_CHANNEL_ID := py "C1";
     Config.GOOGLE_SHEETS_ID := py "sheet-1";
     Config.GOOGLE_CREDENTIALS_JSON := py "credentials.json";
     Config.N8N_WEBHOOK_URL := py "https://n8n.example/hook";
     Config.PROCESSED_EMOJI := py "white_check_mark" |}.

(** A message of the user [U1] with the timestamp [1.0]. *)
Definition sample_message (text : str) : slack_message :=
  {| sm_message := {| msg_text := Some text; msg_ts := Some (py "1.0");
                      msg_channel := None; msg_user := Some (py "U1") |};
     sm_subtype := None;
     sm_reactions := None |}.

(** A world in which every request succeeds: the channel holds
    [messages], the spreadsheet has the sheets [titles] and the sheet the
    rows [rows]. *)
Definition calm_world (messages : list slack_message)
  (titles : list (option str)) (rows : list (list str)) : World :=
  {| conversations_history_result := fun _ => Returns (Some messages);
     reactions_add_result := fun _ => Returns tt;
     spreadsheets_get_result := fun _ => Returns (Some titles);
     spreadsheets_batchUpdate_result := fun _ => Returns tt;
     values_update_result := fun _ => Returns tt;
     values_append_result := fun _ => Returns tt;
     values_get_result := fun _ => Returns (Some rows);
     requests_post_result := fun _ => Posted 200 (json_data (py "{}"));
     requests_head_result := fun _ => Some 200 |}.

(** The same world with a webhook that times out. *)
Definition deaf_webhook (w : World) : World :=
  {| conversations_history_result := conversations_history_result w;
     reactions_add_result := reactions_add_result w;
     spreadsheets_get_result := spreadsheets_get_result w;
     spreadsheets_batchUpdate_result := spreadsheets_batchUpdate_result w;
     values_update_result := values_update_result w;
     values_append_result := values_append_result w;
     values_get_result := values_get_result w;
     requests_post_result := fun _ => TimedOut;
     requests_head_result := fun _ => None |}.

(** The channel holds one message with two links of one host; the sheet
    [Redirects] exists. *)
Definition sample_world : World :=
  calm_world [sample_message (py "https://x.com/a https://x.com/b")]
    [Some (py "Redirects")] [].

(** The request that message yields, and the requests of a run. *)
Definition sample_request : RedirectRequest :=
  {| old_url := py "https://x.com/a"; new_url := py "https://x.com/b";
     message_ts := py "1.0"; channel_id := py "C1"; requester := py "U1";
     reason := None |}.

Definition sample_before : list call :=
  [spreadsheets_get (py "sheet-1"); conversations_history (py "C1") 100].

Definition sample_after : list call :=
  [post_of sample_config [sample_request]; mark_of sample_config (py "1.0")].

Definition sample_calls : list call :=
  sample_before ++ append_of sample_config [sample_request] :: sample_after.

Definition sample_results : results :=
  {| messages_processed := 1; redirects_found := 1;
     redirects_sent_to_n8n := 1; errors := [] |}.

(** The same world with a Slack that fails with an exception the program
    does not catch. *)
Definition broken_slack (w : World) : World :=
  {| conversations_history_result := fun _ => Crashes;
     reactions_add_result := fun _ => Crashes;
     spreadsheets_get_result := spreadsheets_get_result w;
     spreadsheets_batchUpdate_result := spreadsheets_batchUpdate_result w;
     values_update_result := values_update_result w;
     values_append_result := values_append_result w;
     values_get_result := values_get_result w;
     requests_post_result := requests_post_result w;
     requests_head_result := requests_head_result w |}.

(** A configuration without a bot token and without a webhook. *)
Definition incomplete_config : Config.t :=
  {| Config.SLACK_BOT_TOKEN := [];
     Config.SLACK_CHANNEL_ID := py "C1";
     Config.GOOGLE_SHEETS_ID := py "sheet-1";
     Config.GOOGLE_CREDENTIALS_JSON := py "credentials.json";
     Config.N8N_WEBHOOK_URL := [];
     Config.PROCESSED_EMOJI := py "white_check_mark" |}.

(* ================================================================= *)
(** ** The matcher and what patterns denote *)

(** Splits a conjunction and closes the components that hold by
    computation or are vacuous. *)
Ltac split_all :=
  repeat match goal with |- _ /\ _ => split end;
  try reflexivity; try (intros; discriminate).

Section MatcherFacts.
Variable fl : flags.
Variable A : Type.

Lemma between_app (u s' : str) : between (u ++ s') s' = u.
Proof.
  unfold between. rewrite length_app.
  replace (length u + length s' - length s')%nat with (length u) by lia.
  rewrite firstn_app, Nat.sub_diag, firstn_all. simpl. apply app_nil_r.
Qed.

Lemma star_greedy_sound (p : char -> bool) (k : str -> option A) x :
  forall s, star_greedy p s k = Some x ->
  exists u s', s = u ++ s' /\ forallb p u = true /\ k s' = Some x.
Proof.
  induction s as [|c s IH]; simpl; intros H.
  - exists [], []. auto.
  - destruct (p c) eqn:Hp.
    + destruct (star_greedy p s k) eqn:Hs.
      * inversion H; subst. destruct (IH eq_refl) as (u & s' & -> & Hu & Hk).
        exists (c :: u), s'. simpl. rewrite Hp, Hu. auto.
      * exists [], (c :: s). auto.
    + exists [], (c :: s). auto.
Qed.

Lemma star_lazy_sound (p : char -> bool) (k : str -> option A) x :
  forall s, star_lazy p s k = Some x ->
  exists u s', s = u ++ s' /\ forallb p u = true /\ k s' = Some x.
Proof.
  induction s as [|c s IH]; simpl; intros H.
  - destruct (k []) eqn:Hk; [|discriminate].
    inversion H; subst. exists [], []. auto.
  - destruct (k (c :: s)) eqn:Hk.
    + inversion H; subst. exists [], (c :: s). auto.
    + destruct (p c) eqn:Hp; [|discriminate].
      destruct (IH H) as (u & s' & -> & Hu & Hk').
      exists (c :: u), s'. simpl. rewrite Hp, Hu. auto.
Qed.

(** Soundness: when the matcher succeeds, the continuation was run after
    a text the pattern denotes. *)
Lemma mt_sound (r : regex) :
  forall s g (k : str -> capture -> option A) x,
  mt fl r s g k = Some x ->
  exists u s' g',
    s = u ++ s' /\ matches fl r u s' /\ k s' g' = Some x
    /\ (sets_group r = true -> g' <> None)
    /\ (g <> None -> g' <> None).
Proof.
  induction r; simpl; intros s g k x H.
  - exists [], s, g. split_all; auto using M_Eps.
  - destruct s as [|c s]; [discriminate|].
    destruct (atom_match fl a c) eqn:Ha; [|discriminate].
    exists [c], s, g. split_all; auto using M_Chr.
  - apply IHr1 in H. destruct H as (u & s1 & g1 & -> & Hm1 & Hk & Hs1 & Hg1).
    apply IHr2 in Hk. destruct Hk as (v & s2 & g2 & -> & Hm2 & Hk & Hs2 & Hg2).
    exists (u ++ v), s2, g2. rewrite <- app_assoc.
    split_all; auto using M_Cat.
    intros Hs. apply orb_true_iff in Hs. destruct Hs; auto.
  - destruct (mt fl r1 s g k) eqn:H1.
    + inversion H; subst. apply IHr1 in H1.
      destruct H1 as (u & s' & g' & -> & Hm & Hk & Hs & Hg).
      exists u, s', g'. split_all; auto using M_AltL.
      intros Hb. apply andb_true_iff in Hb. tauto.
    + apply IHr2 in H.
      destruct H as (u & s' & g' & -> & Hm & Hk & Hs & Hg).
      exists u, s', g'. split_all; auto using M_AltR.
      intros Hb. apply andb_true_iff in Hb. tauto.
  - destruct (mt fl r s g k) eqn:H1.
    + inversion H; subst. apply IHr in H1.
      destruct H1 as (u & s' & g' & -> & Hm & Hk & Hs & Hg).
      exists u, s', g'. split_all; auto using M_OptSome.
    + exists [], s, g. split_all; auto using M_OptNone.
  - apply star_greedy_sound in H. destruct H as (u & s' & -> & Hu & Hk).
    exists u, s', g. split_all; auto using M_Star.
  - destruct s as [|c s]; [discriminate|].
    destruct (atom_match fl a c) eqn:Ha; [|discriminate].
    apply star_greedy_sound in H. destruct H as (u & s' & -> & Hu & Hk).
    exists (c :: u), s', g. split_all; auto.
    apply M_Plus; [discriminate|]. simpl. now rewrite Ha.
  - destruct s as [|c s]; [discriminate|].
    destruct (atom_match fl a c) eqn:Ha; [|discriminate].
    apply star_lazy_sound in H. destruct H as (u & s' & -> & Hu & Hk).
    exists (c :: u), s', g. split_all; auto.
    apply M_PlusLazy; [discriminate|]. simpl. now rewrite Ha.
  - apply IHr in H. destruct H as (u & s' & g' & -> & Hm & Hk & _ & _).
    exists u, s', (Some (u ++ s', s')).
    split_all; auto using M_Group.
  - destruct s as [|c [|d s]]; try discriminate.
    + exists [], [], g. split_all; auto using M_Dollar.
    + destruct (N.eqb_spec c NL); [subst|discriminate].
      exists [], [NL], g. split_all; auto using M_Dollar.
Qed.

Lemma star_greedy_complete (p : char -> bool) (k : str -> option A) s' :
  k s' <> None ->
  forall u, forallb p u = true -> star_greedy p (u ++ s') k <> None.
Proof.
  intros Hk. induction u as [|c u IH]; simpl; intros Hu.
  - destruct s' as [|c s]; simpl; auto.
    destruct (p c); auto. destruct (star_greedy p s k); auto; discriminate.
  - apply andb_true_iff in Hu. destruct Hu as [-> Hu].
    specialize (IH Hu).
    destruct (star_greedy p (u ++ s') k); auto; discriminate.
Qed.

Lemma star_lazy_complete (p : char -> bool) (k : str -> option A) s' :
  k s' <> None ->
  forall u, forallb p u = true -> star_lazy p (u ++ s') k <> None.
Proof.
  intros Hk. induction u as [|c u IH]; simpl; intros Hu.
  - destruct s' as [|c s]; simpl; destruct (k _); auto; discriminate.
  - apply andb_true_iff in Hu. destruct Hu as [-> Hu].
    destruct (k (c :: u ++ s')); auto; discriminate.
Qed.

(** Completeness: a text the pattern denotes, followed by something the
    continuation accepts, makes the matcher succeed. *)
Lemma mt_complete (r : regex) (u s' : str) :
  matches fl r u s' ->
  forall g (k : str -> capture -> option A),
  (forall g', k s' g' <> None) -> mt fl r (u ++ s') g k <> None.
Proof.
  induction 1; simpl; intros g k Hk; auto.
  - rewrite H. auto.
  - rewrite <- app_assoc. apply IHmatches1. intros g'. now apply IHmatches2.
  - specialize (IHmatches g k Hk).
    destruct (mt fl r1 (u ++ rest) g k); auto; discriminate.
  - destruct (mt fl r1 (u ++ rest) g k); [discriminate|]. auto.
  - specialize (IHmatches g k Hk).
    destruct (mt fl r (u ++ rest) g k); auto; discriminate.
  - destruct (mt fl r rest g k); [discriminate|]. auto.
  - now apply star_greedy_complete.
  - destruct u as [|c u]; [congruence|]. simpl in *.
    apply andb_true_iff in H0. destruct H0 as [-> Hu].
    now apply star_greedy_complete.
  - destruct u as [|c u]; [congruence|]. simpl in *.
    apply andb_true_iff in H0. destruct H0 as [-> Hu].
    now apply star_lazy_complete.
  - destruct H as [-> | ->]; simpl; auto.
Qed.
End MatcherFacts.

(** The continuation of [match_at] accepts everything. *)
Lemma match_at_sound fl r s m :
  match_at fl r s = Some m ->
  exists u,
    s = u ++ m_end m /\ m_start m = s /\ matches fl r u (m_end m)
    /\ group0 m = u
    /\ (sets_group r = true -> m_g1 m <> None).
Proof.
  unfold match_at. intros H. apply mt_sound in H.
  destruct H as (u & s' & g' & -> & Hm & Hk & Hs & _).
  inversion Hk; subst; clear Hk. unfold group0. simpl.
  exists u. split_all; auto using between_app.
Qed.

Lemma match_at_complete fl r u rest :
  matches fl r u rest -> match_at fl r (u ++ rest) <> None.
Proof.
  intros H. unfold match_at. apply mt_complete; auto. discriminate.
Qed.

Lemma search_sound fl r : forall s m,
  search fl r s = Some m ->
  exists pre u,
    s = pre ++ u ++ m_end m /\ matches fl r u (m_end m)
    /\ (sets_group r = true -> m_g1 m <> None).
Proof.
  induction s as [|c s IH]; simpl; intros m H.
  - destruct (match_at fl r []) eqn:Hm; [|discriminate].
    inversion H; subst. apply match_at_sound in Hm.
    destruct Hm as (u & Hs & _ & Hu & _ & Hg). exists [], u. auto.
  - destruct (match_at fl r (c :: s)) eqn:Hm.
    + inversion H; subst. apply match_at_sound in Hm.
      destruct Hm as (u & Hs & _ & Hu & _ & Hg). exists [], u. auto.
    + destruct (IH _ H) as (pre & u & -> & Hu & Hg).
      exists (c :: pre), u. auto.
Qed.

(** A match anywhere in the text is found by [search]. *)
Lemma search_complete fl r u rest : forall pre,
  matches fl r u rest -> search fl r (pre ++ u ++ rest) <> None.
Proof.
  intros pre Hm. induction pre as [|c pre IH].
  - simpl. pose proof (match_at_complete Hm) as Hc.
    destruct (u ++ rest); simpl;
      destruct (match_at fl r _); try congruence; discriminate.
  - simpl. destruct (match_at fl r (c :: pre ++ u ++ rest)); auto.
    discriminate.
Qed.

Lemma search_group1 fl r s m :
  sets_group r = true -> search fl r s = Some m ->
  exists g, group1 m = Some g.
Proof.
  intros Hs H. apply search_sound in H. destruct H as (_ & _ & _ & _ & Hg).
  specialize (Hg Hs). unfold group1.
  destruct (m_g1 m) as [[a b]|]; [eauto | congruence].
Qed.

(** Every element of [findall] is a text the pattern denotes. *)
Lemma findall_fuel_matches fl r : forall n s u,
  In u (findall_fuel n fl r s) -> exists rest, matches fl r u rest.
Proof.
  induction n as [|n IH]; simpl; intros s u H; [contradiction|].
  destruct (match_at fl r s) as [m|] eqn:Hm.
  - destruct H as [H|H].
    + apply match_at_sound in Hm. destruct Hm as (v & _ & _ & Hv & Hg & _).
      exists (m_end m). congruence.
    + destruct (length (m_end m) <? length s)%nat; [eauto|].
      destruct s; [contradiction | eauto].
  - destruct s; [contradiction | eauto].
Qed.

Lemma findall_matches fl r s u :
  In u (findall fl r s) -> exists rest, matches fl r u rest.
Proof. apply findall_fuel_matches. Qed.

(** Inversion of [matches] on the constructors of a pattern. *)
Ltac inv_matches :=
  repeat match goal with
  | H : matches _ (Cat _ _) _ _ |- _ => inversion H; subst; clear H
  | H : matches _ (Chr _) _ _ |- _ => inversion H; subst; clear H
  | H : matches _ (Opt _) _ _ |- _ => inversion H; subst; clear H
  | H : matches _ (Alt _ _) _ _ |- _ => inversion H; subst; clear H
  | H : matches _ (Plus _) _ _ |- _ => inversion H; subst; clear H
  | H : matches _ (Group _) _ _ |- _ => inversion H; subst; clear H
  | H : atom_match no_flags (Lit _) _ = true |- _ =>
      apply N.eqb_eq in H; subst
  end.

Lemma url_last_char_class c :
  atom_match no_flags (NoneOf (url_excluded ++ url_trailing)) c
  = url_last_char c.
Proof.
  unfold url_last_char, url_char. simpl. unfold lit_match, char_in. simpl.
  rewrite !negb_orb, !andb_true_r. simpl. rewrite <- !andb_assoc. reflexivity.
Qed.

Lemma url_tail_intro body c :
  body <> [] -> forallb url_char body = true -> url_last_char c = true ->
  url_tail (body ++ [c]) = true.
Proof.
  intros Hne Hb Hc. unfold url_tail. rewrite rev_app_distr. simpl.
  destruct (rev body) as [|d front] eqn:Hr.
  - destruct body; [congruence|]. simpl in Hr.
    destruct (rev body); discriminate.
  - change (url_last_char c && forallb url_char (d :: front) = true).
    rewrite Hc, <- Hr. simpl. apply forallb_forall.
    intros x Hx. apply in_rev in Hx.
    rewrite forallb_forall in Hb. auto.
Qed.

(** What [URL_PATTERN] matches satisfies the URL-syntax predicate. *)
Lemma URL_PATTERN_syntax u rest :
  matches no_flags URL_PATTERN u rest -> url_syntax u = true.
Proof.
  unfold URL_PATTERN, s_opt. simpl word. intros H. inv_matches;
    match goal with
    | Hc : atom_match _ (NoneOf _) ?c = true,
      Hb : forallb _ ?body = true, Hne : ?body <> [] |- _ =>
        assert (Hc' : url_last_char c = true)
          by (rewrite <- url_last_char_class; exact Hc);
        change (forallb url_char body = true) in Hb;
        pose proof (@url_tail_intro body c Hne Hb Hc') as Ht
    end;
    unfold url_syntax; simpl; rewrite Ht; reflexivity.
Qed.

Lemma find_urls_syntax text u : In u (find_urls text) -> url_syntax u = true.
Proof.
  intros H. apply findall_matches in H. destruct H as [rest H].
  eapply URL_PATTERN_syntax; eauto.
Qed.

(* ================================================================= *)
(** ** The strategies return, and what they return *)

Lemma Ok_inj {A} (a b : A) : Ok a = Ok b -> a = b.
Proof. intros H. now injection H. Qed.

Lemma for_each_pure {A B} (f : A -> B) (l : list A) :
  for_each (fun a => Ok (f a)) l = Ok (map f l).
Proof.
  induction l as [|a l IH]; simpl; [reflexivity|]. now rewrite IH.
Qed.

Lemma pair_by_index_zip (news : list str) : forall olds i,
  pair_by_index i olds news = Ok (combine olds (skipn i news)).
Proof.
  induction olds as [|o olds IH]; intros i; simpl; [reflexivity|].
  rewrite IH. destruct (i <? length news)%nat eqn:Hi.
  - apply Nat.ltb_lt in Hi. unfold getitem.
    destruct (nth_error news i) as [n|] eqn:Hn.
    + simpl. f_equal.
      assert (Hs : skipn i news = n :: skipn (S i) news).
      { clear - Hn. revert i Hn. induction news as [|x news IHn];
          intros [|i] Hn; simpl in *; try discriminate.
        - now inversion Hn.
        - now apply IHn. }
      now rewrite Hs.
    + apply nth_error_None in Hn. lia.
  - apply Nat.ltb_ge in Hi.
    rewrite (skipn_all2 news) by lia. rewrite (skipn_all2 news) by lia.
    now destruct olds.
Qed.

Lemma combine_firstn_length {A B} (l : list A) : forall (l' : list B),
  combine (firstn (length l') l) l' = combine l l'.
Proof.
  induction l as [|a l IH]; intros [|b l']; simpl; try reflexivity.
  now rewrite IH.
Qed.

(** [make_pairs] without its guarded look-ups. *)
Lemma make_pairs_eq (olds news : list str) :
  make_pairs olds news =
  Ok (if nonempty olds && nonempty news then
        match news with
        | [n] => map (fun o => (o, n)) olds
        | _ => combine olds news
        end
      else []).
Proof.
  unfold make_pairs. destruct (nonempty olds && nonempty news); [|reflexivity].
  destruct news as [|n [|n' news]].
  - simpl. destruct (length olds =? 0)%nat eqn:H.
    + reflexivity.
    + rewrite pair_by_index_zip. reflexivity.
  - simpl. apply for_each_pure.
  - cbn [length Nat.eqb].
    destruct (length olds =? S (S (length news)))%nat; [reflexivity|].
    apply pair_by_index_zip.
Qed.

Lemma in_make_pairs olds news ps p :
  make_pairs olds news = Ok ps -> In p ps ->
  In (fst p) olds /\ In (snd p) news.
Proof.
  rewrite make_pairs_eq. intros H Hp. inversion H; subst; clear H.
  destruct (nonempty olds && nonempty news); [|contradiction].
  assert (Hc : In p (combine olds news) -> In (fst p) olds /\ In (snd p) news).
  { destruct p as [a b]. intros Hi. split.
    - eapply in_combine_l; eauto.
    - eapply in_combine_r; eauto. }
  destruct news as [|n [|n' news]]; auto.
  apply in_map_iff in Hp. destruct Hp as (o & <- & Ho). simpl. auto.
Qed.

Lemma _parse_labeled_format_returns text :
  exists ps, _parse_labeled_format text = Ok ps.
Proof.
  unfold _parse_labeled_format.
  destruct (length (find_urls text) <? 2)%nat; [eauto|].
  destruct (negb _); [eauto|]. rewrite make_pairs_eq. eauto.
Qed.

Lemma old_section_sets_group : sets_group old_section_pattern = true.
Proof. reflexivity. Qed.

Lemma reason_pattern_sets_group :
  forall p, In p reason_patterns -> sets_group p = true.
Proof. intros p [<- | []]. reflexivity. Qed.

(** [_parse_multi_old_urls] without its guarded look-ups. *)
Lemma _parse_multi_old_urls_eq text :
  _parse_multi_old_urls text =
  Ok match search I_S old_section_pattern text with
     | Some m =>
         match find_urls (get (group1 m) []), find_urls (m_end m) with
         | (_ :: _) as olds, n :: _ => map (fun o => (o, n)) olds
         | _, _ => []
         end
     | None => []
     end.
Proof.
  unfold _parse_multi_old_urls.
  destruct (search I_S old_section_pattern text) as [m|] eqn:Hs; [|reflexivity].
  destruct (@search_group1 _ _ _ _ old_section_sets_group Hs) as [g Hg].
  rewrite Hg. simpl.
  destruct (find_urls g) as [|o olds]; [reflexivity|].
  destruct (find_urls (m_end m)) as [|n news]; [reflexivity|].
  cbn [nonempty andb getitem nth_error bind].
  rewrite (for_each_pure (fun o => (o, n))). reflexivity.
Qed.

Lemma first_reason_returns text : forall ps,
  (forall p, In p ps -> sets_group p = true) ->
  exists r, first_reason ps text = Ok r.
Proof.
  induction ps as [|p ps IH]; simpl; intros H; [eauto|].
  destruct (search I p text) as [m|] eqn:Hs.
  - destruct (@search_group1 I p text m) as [g Hg]; auto.
    unfold group1_strip. rewrite Hg. simpl. eauto.
  - apply IH. auto.
Qed.

Lemma _extract_reason_returns text : exists r, _extract_reason text = Ok r.
Proof. apply first_reason_returns, reason_pattern_sets_group. Qed.

Section ParserFacts.
Variable nr : str -> bool.
Variable SLACK_CHANNEL_ID : str.

Lemma str_eqb_eq a b : str_eqb a b = true <-> a = b.
Proof.
  unfold str_eqb. destruct (list_eq_dec N.eq_dec a b); split;
    congruence.
Qed.

Lemma _same_domain_returns url1 url2 :
  exists b, _same_domain nr url1 url2 = Ok b
            /\ (b = true <-> same_netloc nr url1 url2).
Proof.
  unfold _same_domain, same_netloc.
  destruct (Urllib.urlparse_netloc nr url1) as [d1|e1]; simpl.
  - destruct (Urllib.urlparse_netloc nr url2) as [d2|e2]; simpl.
    + eexists; split; [reflexivity|]. rewrite str_eqb_eq. split.
      * intros ->. eauto.
      * intros (h & H1 & H2). congruence.
    + exists false. split; [reflexivity|]. split; [discriminate|].
      intros (h & _ & H2). discriminate.
  - exists false. split; [reflexivity|]. split; [discriminate|].
    intros (h & H1 & _). discriminate.
Qed.

Lemma _parse_sequential_urls_two text u1 u2 :
  find_urls text = [u1; u2] ->
  (same_netloc nr u1 u2 -> _parse_sequential_urls nr text = Ok [(u1, u2)])
  /\ (~ same_netloc nr u1 u2 -> _parse_sequential_urls nr text = Ok []).
Proof.
  intros H. unfold _parse_sequential_urls. rewrite H. simpl.
  destruct (_same_domain_returns u1 u2) as (b & Hb & Hiff).
  rewrite Hb. simpl.
  destruct b; split; intros Hh; try reflexivity.
  - exfalso. apply Hh, Hiff. reflexivity.
  - apply Hiff in Hh. discriminate.
Qed.

Lemma _parse_sequential_urls_other text :
  length (find_urls text) <> 2 -> _parse_sequential_urls nr text = Ok [].
Proof.
  intros H. unfold _parse_sequential_urls.
  destruct (length (find_urls text) <? 2)%nat; [reflexivity|].
  destruct (Nat.eqb_spec (length (find_urls text)) 2); [lia|reflexivity].
Qed.

Lemma _parse_sequential_urls_returns text :
  exists ps, _parse_sequential_urls nr text = Ok ps
             /\ forall p, In p ps ->
                In (fst p) (find_urls text) /\ In (snd p) (find_urls text).
Proof.
  destruct (Nat.eq_dec (length (find_urls text)) 2) as [H2|H2].
  - destruct (find_urls text) as [|u1 [|u2 [|]]] eqn:Hu; try discriminate.
    destruct (_parse_sequential_urls_two _ Hu) as [Hs Hd].
    destruct (_same_domain_returns u1 u2) as (b & _ & Hiff).
    destruct b.
    + exists [(u1, u2)]. split; [apply Hs, Hiff; reflexivity|].
      intros p [<- | []]. simpl. auto.
    + exists []. split; [|contradiction]. apply Hd. intros Hh.
      apply Hiff in Hh. discriminate.
  - exists []. split; [|contradiction].
    now apply _parse_sequential_urls_other.
Qed.

(** The cascade, strategy by strategy. *)
Lemma extract_pairs_eq text a b :
  _parse_labeled_format text = Ok a ->
  _parse_multi_old_urls text = Ok b ->
  extract_pairs nr text =
  match a, b with
  | _ :: _, _ => Ok a
  | [], _ :: _ => Ok b
  | [], [] => _parse_sequential_urls nr text
  end.
Proof.
  intros Ha Hb. unfold extract_pairs.
  rewrite Ha. simpl. destruct a as [|p a]; simpl; [|reflexivity].
  rewrite Hb. simpl. destruct b as [|q b]; simpl; [|reflexivity].
  destruct (_parse_sequential_urls_returns text) as (c & Hc & _).
  rewrite Hc. reflexivity.
Qed.

Lemma extract_pairs_returns text :
  exists ps, extract_pairs nr text = Ok ps.
Proof.
  destruct (_parse_labeled_format_returns text) as [a Ha].
  pose proof (_parse_multi_old_urls_eq text) as Hb.
  rewrite (extract_pairs_eq _ Ha Hb).
  destruct a; [|eauto].
  destruct (match search I_S old_section_pattern text with
            | Some _ => _ | None => _ end); [|eauto].
  destruct (_parse_sequential_urls_returns text) as (c & Hc & _). eauto.
Qed.

(** [parse_message] from the normalised text, the reason and the pairs. *)
Lemma parse_message_eq m reason ps :
  let text := _clean_slack_text (get (msg_text m) []) in
  _extract_reason text = Ok reason ->
  extract_pairs nr text = Ok ps ->
  parse_message nr SLACK_CHANNEL_ID m =
  Ok (map (request_of (get (msg_ts m) [])
             (get (msg_channel m) SLACK_CHANNEL_ID)
             (get (msg_user m) (py "unknown")) reason) ps).
Proof.
  intros text Hr Hp. unfold parse_message.
  fold text. rewrite Hr. simpl. rewrite Hp.
  reflexivity.
Qed.
End ParserFacts.







(* ================================================================= *)
(** ** Pairing policy of the labeled strategy *)

Lemma _parse_labeled_format_scan text :
  labeled_preconditions text ->
  _parse_labeled_format text
  = make_pairs (old_urls (scan_lines (split_lines text)))
      (new_urls (scan_lines (split_lines text))).
Proof.
  intros (Hn & Ho & Hnew). unfold _parse_labeled_format.
  destruct (Nat.ltb_spec (length (find_urls text)) 2); [lia|].
  now rewrite Ho, Hnew.
Qed.

(** C5: when its preconditions hold, the labeled strategy pairs the two
    accumulators of the line scan, and the pairing is: a single NEW URL is
    paired with every OLD URL; otherwise equal counts are paired by
    position in input order; otherwise pairing is by position and the OLD
    URLs beyond the NEW count are dropped; an empty accumulator gives no
    pair. *)
Theorem make_pairs_policy :
  (forall text,
     labeled_preconditions text ->
     _parse_labeled_format text
     = make_pairs (old_urls (scan_lines (split_lines text)))
         (new_urls (scan_lines (split_lines text))))
  /\ forall olds news : list str,
      (forall n, news = [n] ->
         make_pairs olds news = Ok (map (fun o => (o, n)) olds))
      /\ (length news <> 1 -> length olds = length news ->
          make_pairs olds news = Ok (combine olds news))
      /\ (length news <> 1 -> length olds <> length news ->
          make_pairs olds news
          = Ok (combine (firstn (length news) olds) news))
      /\ (olds = [] \/ news = [] -> make_pairs olds news = Ok []).
Proof.
  split; [exact _parse_labeled_format_scan|].
  intros olds news. rewrite make_pairs_eq. split_all.
  - intros n ->. destruct olds; reflexivity.
  - intros H1 _. destruct olds, news as [|n [|n' news]]; simpl in *;
      try reflexivity; lia.
  - intros H1 _. rewrite combine_firstn_length.
    destruct olds, news as [|n [|n' news]]; simpl in *; try reflexivity; lia.
  - intros [-> | ->]; [reflexivity|]. now rewrite andb_false_r.
Qed.

Lemma make_pairs_policy_witness :
  let a := py "https://x.com/a" in
  let b := py "https://x.com/b" in
  let c := py "https://x.com/c" in
  let n := py "https://x.com/n" in
  let n' := py "https://x.com/m" in
  make_pairs [a; b; c] [n] = Ok [(a, n); (b, n); (c, n)]
  /\ make_pairs [a; b] [n; n'] = Ok [(a, n); (b, n')]
  /\ make_pairs [a; b; c] [n; n'] = Ok [(a, n); (b, n')]
  /\ make_pairs [a; b] [] = Ok []
  /\ _parse_labeled_format
       (unlines [py "Old: https://x.com/a"; py "New: https://x.com/n"])
     = Ok [(a, n)].
Proof.
  intros a b c n n'. destruct make_pairs_policy as [Hscan Hpol].
  refine (conj _ (conj _ (conj _ (conj _ _)))).
  - apply (proj1 (Hpol [a; b; c] [n]) n eq_refl).
  - apply (proj1 (proj2 (Hpol [a; b] [n; n']))); simpl; lia.
  - apply (proj1 (proj2 (proj2 (Hpol [a; b; c] [n; n'])))); simpl; lia.
  - apply (proj2 (proj2 (proj2 (Hpol [a; b] [])))). now right.
  - rewrite Hscan; [reflexivity|]. unfold labeled_preconditions. split_all.
Defined.

(* ================================================================= *)
(** ** The line scan *)

Lemma old_pattern_needs_text : search I old_pattern [] = None.
Proof. reflexivity. Qed.

(** C10: a line that matches an old-label pattern and a new-label pattern
    sets the marker to OLD, and every URL token of the line goes to the
    OLD accumulator. *)
Theorem scan_line_old_precedence (st : scan) (line : str) :
  is_some (search I old_pattern (strip line)) = true ->
  is_some (search I new_pattern (strip line)) = true ->
  scan_line st line
  = {| old_urls := old_urls st ++ find_urls (strip line);
       new_urls := new_urls st;
       current_type := Some old |}.
Proof.
  intros Ho _. unfold scan_line.
  destruct (strip line) as [|c l] eqn:Hl.
  - rewrite old_pattern_needs_text in Ho. discriminate.
  - cbn [nonempty negb]. rewrite Ho. reflexivity.
Qed.

Lemma scan_line_old_precedence_witness :
  let line := py "New: https://x.com/des-pages" in
  scan_line scan_start line
  = {| old_urls := [py "https://x.com/des-pages"];
       new_urls := [];
       current_type := Some old |}.
Proof.
  intros line.
  exact (scan_line_old_precedence scan_start line eq_refl eq_refl).
Defined.

(* ================================================================= *)
(** ** [parse_message] *)

Lemma pairs_of_requests ts channel requester reason ps :
  pairs_of (map (request_of ts channel requester reason) ps) = ps.
Proof.
  unfold pairs_of. rewrite map_map. simpl.
  induction ps as [|[a b] ps IH]; simpl; [reflexivity|]. now rewrite IH.
Qed.

(** [parse_message] returns one record per extracted pair, each with the
    extracted reason. *)
Lemma parse_message_returns nr chan m :
  let text := _clean_slack_text (get (msg_text m) []) in
  exists rs ps reason,
    parse_message nr chan m = Ok rs
    /\ extract_pairs nr text = Ok ps
    /\ _extract_reason text = Ok reason
    /\ rs = map (request_of (get (msg_ts m) []) (get (msg_channel m) chan)
                   (get (msg_user m) (py "unknown")) reason) ps
    /\ pairs_of rs = ps.
Proof.
  intros text.
  destruct (_extract_reason_returns text) as [reason Hr].
  destruct (extract_pairs_returns nr text) as [ps Hp].
  eexists _, ps, reason. split_all; eauto.
  - apply parse_message_eq; eauto.
  - apply pairs_of_requests.
Qed.

(** C9: [parse_message] never raises: for every message it returns a
    list, each strategy and the host comparison return a value, and when
    no strategy finds a pair the list is empty. *)
Theorem parse_message_never_raises nr chan (m : message) :
  let text := _clean_slack_text (get (msg_text m) []) in
  exists rs a b c,
    parse_message nr chan m = Ok rs
    /\ _parse_labeled_format text = Ok a
    /\ _parse_multi_old_urls text = Ok b
    /\ _parse_sequential_urls nr text = Ok c
    /\ (forall url1 url2, exists same, _same_domain nr url1 url2 = Ok same)
    /\ (a = [] -> b = [] -> c = [] -> rs = []).
Proof.
  intros text.
  destruct (parse_message_returns nr chan m) as (rs & ps & reason & Hm & Hp & _ & Hrs & _).
  fold text in Hp.
  destruct (_parse_labeled_format_returns text) as [a Ha].
  pose proof (_parse_multi_old_urls_eq text) as Hb.
  destruct (_parse_sequential_urls_returns nr text) as (c & Hc & _).
  exists rs, a. eexists. exists c. split_all; eauto.
  - intros u1 u2. destruct (_same_domain_returns nr u1 u2) as (s & Hs & _).
    eauto.
  - intros -> Eb ->. rewrite (extract_pairs_eq nr _ Ha Hb), Eb, Hc in Hp.
    inversion Hp; subst. reflexivity.
Qed.

Lemma parse_message_never_raises_witness :
  exists rs, parse_message (fun _ => false) [] (text_message (py "https://x.com/1 and https://y.org/2")) = Ok rs /\ rs = [].
Proof.
  destruct (parse_message_never_raises (fun _ => false) []
              (text_message (py "https://x.com/1 and https://y.org/2")))
    as (rs & a & b & c & Hm & Ha & Hb & Hc & _ & He).
  exists rs. split; [exact Hm|].
  apply He.
  - apply Ok_inj. rewrite <- Ha. reflexivity.
  - apply Ok_inj. rewrite <- Hb. reflexivity.
  - apply Ok_inj. rewrite <- Hc. reflexivity.
Defined.

(** C6, as amended: the pairs of [parse_message] are those of the first
    of the labeled, multi-old and sequential strategies that yields at
    least one pair; whenever the labeled strategy yields a pair, the
    result is its output. *)
Theorem parse_message_cascade nr chan (m : message) :
  let text := _clean_slack_text (get (msg_text m) []) in
  exists rs a b c,
    parse_message nr chan m = Ok rs
    /\ _parse_labeled_format text = Ok a
    /\ _parse_multi_old_urls text = Ok b
    /\ _parse_sequential_urls nr text = Ok c
    /\ pairs_of rs = (if nonempty a then a else if nonempty b then b else c)
    /\ (a <> [] -> extract_pairs nr text = _parse_labeled_format text).
Proof.
  intros text.
  destruct (parse_message_returns nr chan m) as (rs & ps & reason & Hm & Hp & _ & _ & Hrs).
  fold text in Hp.
  destruct (_parse_labeled_format_returns text) as [a Ha].
  pose proof (_parse_multi_old_urls_eq text) as Hb.
  destruct (_parse_sequential_urls_returns nr text) as (c & Hc & _).
  exists rs, a. eexists. exists c. split_all; eauto.
  - rewrite Hrs. rewrite (extract_pairs_eq nr _ Ha Hb) in Hp.
    destruct a as [|x a]; simpl.
    + destruct (match search I_S old_section_pattern text with
                | Some _ => _ | None => _ end); simpl; congruence.
    + congruence.
  - intros Hne. rewrite (extract_pairs_eq nr _ Ha Hb), Ha.
    destruct a; congruence.
Qed.

Lemma parse_message_cascade_witness :
  let text := unlines [py "Old: https://x.com/1"; py "New: https://x.com/2"] in
  extract_pairs (fun _ => false) text = _parse_labeled_format text.
Proof.
  intros text.
  destruct (parse_message_cascade (fun _ => false) [] (text_message text))
    as (rs & a & b & c & _ & Ha & _ & _ & _ & He).
  apply He. intros ->. vm_compute in Ha. discriminate Ha.
Defined.

Lemma strip_prefix_sound : forall p s t, strip_prefix p s = Some t -> s = p ++ t.
Proof.
  induction p as [|a p IH]; intros [|b s] t H; simpl in *;
    try discriminate; try (inversion H; reflexivity).
  destruct (N.eqb_spec a b); [subst|discriminate]. f_equal. now apply IH.
Qed.

Lemma url_tail_chars t : url_tail t = true -> forallb url_char t = true.
Proof.
  unfold url_tail. destruct (rev t) as [|c [|d front]] eqn:Hr; try discriminate.
  intros H. apply andb_true_iff in H. destruct H as [Hc Hf].
  unfold url_last_char in Hc. apply andb_true_iff in Hc. destruct Hc as [Hc _].
  apply forallb_forall. intros x Hx. apply in_rev in Hx. rewrite Hr in Hx.
  destruct Hx as [<- | Hx]; [exact Hc|].
  rewrite forallb_forall in Hf. auto.
Qed.

Lemma url_char_kept t :
  forallb url_char t = true ->
  filter (fun c => negb (char_in c [9; 10; 13]%N)) t = t.
Proof.
  induction t as [|c t IH]; [reflexivity|]. cbn [forallb filter]. intros H.
  apply andb_true_iff in H. destruct H as [Hc Ht].
  assert (Hk : char_in c [9; 10; 13]%N = false).
  { unfold url_char in Hc. apply negb_true_iff, orb_false_iff in Hc.
    destruct Hc as [Hs _]. unfold isspace in Hs.
    repeat (apply orb_false_iff in Hs; destruct Hs as [Hs ?]).
    unfold char_in. cbn [existsb].
    destruct (N.eqb_spec c 9); [subst; discriminate|].
    destruct (N.eqb_spec c 10); [subst; discriminate|].
    destruct (N.eqb_spec c 13); [subst; discriminate|]. reflexivity. }
  rewrite Hk. cbn [negb]. now rewrite IH.
Qed.

Lemma splitnetloc_up_to t :
  Urllib.splitnetloc t = up_to [ch "/"; ch "?"; ch "#"] t.
Proof.
  induction t as [|c t IH]; [reflexivity|]. cbn [Urllib.splitnetloc up_to].
  now rewrite IH.
Qed.

Lemma up_to_chars (P : char -> bool) stops t :
  forallb P t = true -> forallb P (up_to stops t) = true.
Proof.
  induction t as [|c t IH]; [reflexivity|]. cbn [forallb up_to]. intros H.
  apply andb_true_iff in H. destruct H as [Hc Ht].
  destruct (char_in c stops); [reflexivity|]. cbn [forallb].
  now rewrite Hc, IH.
Qed.

Lemma url_chars_no_bracket a :
  forallb url_char a = true -> char_in (ch "]") a = false.
Proof.
  induction a as [|c a IH]; [reflexivity|]. cbn [forallb]. intros H.
  apply andb_true_iff in H. destruct H as [Hc Ha].
  unfold char_in in *. cbn [existsb]. rewrite (IH Ha), orb_false_r.
  unfold url_char in Hc. apply negb_true_iff, orb_false_iff in Hc.
  destruct Hc as [_ Hc]. unfold char_in in Hc. cbn [existsb] in Hc.
  repeat (apply orb_false_iff in Hc; destruct Hc as [? Hc]).
  rewrite N.eqb_sym. assumption.
Qed.


Lemma urlparse_netloc_after_scheme nr sch t :
  sch = py "https://" \/ sch = py "http://" ->
  forallb url_char t = true ->
  Urllib.urlparse_netloc nr (sch ++ t)
  = let a := up_to [ch "/"; ch "?"; ch "#"] t in
    if accepted nr a then Ok a else Raise ValueError.
Proof.
  intros Hsch Hc.
  assert (Hstep : Urllib.urlparse_netloc nr (sch ++ t)
    = let netloc := Urllib.splitnetloc t in
      let lb := char_in (ch "[") netloc in
      let rb := char_in (ch "]") netloc in
      if lb && negb rb || rb && negb lb then Raise ValueError
      else if (lb && rb || negb (forallb Urllib.isascii netloc))
              && nr netloc
      then Raise ValueError else Ok netloc).
  { unfold Urllib.urlparse_netloc. cbv zeta.
    assert (Hl : Urllib.lstrip_c0 (sch ++ t) = sch ++ t)
      by (destruct Hsch as [-> | ->]; reflexivity).
    rewrite Hl, filter_app, (url_char_kept _ Hc).
    destruct Hsch as [-> | ->]; reflexivity. }
  rewrite Hstep. cbv zeta. rewrite splitnetloc_up_to.
  set (a := up_to _ t).
  assert (Hrb : char_in (ch "]") a = false).
  { apply url_chars_no_bracket. now apply up_to_chars. }
  rewrite Hrb. unfold accepted.
  destruct (char_in (ch "[") a); [reflexivity|]. cbn [negb andb orb].
  destruct (forallb Urllib.isascii a); cbn [negb andb orb]; [reflexivity|].
  destruct (nr a); reflexivity.
Qed.

(** [urlparse] on a URL token: the netloc is the authority, if it is
    accepted. *)
Lemma urlparse_netloc_authority nr u :
  url_syntax u = true ->
  exists a,
    authority u = Some a
    /\ Urllib.urlparse_netloc nr u
       = if accepted nr a then Ok a else Raise ValueError.
Proof.
  unfold url_syntax, authority. intros H.
  destruct (strip_prefix (py "https://") u) as [t|] eqn:Hs.
  - assert (Ht : url_tail t = true).
    { destruct (url_tail t) eqn:E; [reflexivity|]. cbn [orb] in H.
      destruct (strip_prefix (py "http://") u) as [t'|] eqn:Hs';
        [|discriminate].
      apply strip_prefix_sound in Hs, Hs'. subst u. discriminate. }
    clear H. apply strip_prefix_sound in Hs. subst u.
    eexists. split; [reflexivity|].
    apply (@urlparse_netloc_after_scheme nr _ t); [now left|].
    now apply url_tail_chars.
  - cbn [orb] in H.
    destruct (strip_prefix (py "http://") u) as [t|] eqn:Hs';
      [|discriminate].
    apply strip_prefix_sound in Hs'. subst u.
    eexists. split; [reflexivity|].
    apply (@urlparse_netloc_after_scheme nr _ t); [now right|].
    now apply url_tail_chars.
Qed.

Lemma same_netloc_authority nr u1 u2 :
  url_syntax u1 = true -> url_syntax u2 = true ->
  same_netloc nr u1 u2 <-> same_authority nr u1 u2 = true.
Proof.
  intros H1 H2.
  destruct (urlparse_netloc_authority nr _ H1) as (a1 & Ha1 & Hn1).
  destruct (urlparse_netloc_authority nr _ H2) as (a2 & Ha2 & Hn2).
  unfold same_netloc, same_authority. rewrite Ha1, Ha2, Hn1, Hn2. split.
  - intros (h & E1 & E2).
    destruct (accepted nr a1); [|discriminate].
    destruct (accepted nr a2); [|discriminate].
    rewrite andb_true_r. apply str_eqb_eq. congruence.
  - intros H. apply andb_true_iff in H. destruct H as [He Hacc].
    apply str_eqb_eq in He. subst a2. rewrite Hacc. eauto.
Qed.

Lemma same_authority_host nr u1 u2 :
  same_authority nr u1 u2 = true -> host u1 = host u2.
Proof.
  unfold same_authority, host.
  destruct (authority u1) as [a1|]; [|discriminate].
  destruct (authority u2) as [a2|]; [|discriminate].
  intros H. apply andb_true_iff in H. destruct H as [He _].
  apply str_eqb_eq in He. now subst.
Qed.

(** C6, as stated, fails: this text has two URL tokens, an old-label
    keyword ([de]) and a new-label keyword ([a]); the labeled strategy
    collects both tokens as OLD and yields nothing, and the result is the
    pair of the sequential fallback. *)
Lemma labeled_preconditions_do_not_decide :
  ~ (forall nr text,
       labeled_preconditions text -> sequential_preconditions text ->
       extract_pairs nr text = _parse_labeled_format text).
Proof.
  intros H.
  specialize (H (fun _ => false) unlabeled_pair_text).
  assert (Hl : labeled_preconditions unlabeled_pair_text).
  { unfold labeled_preconditions. split_all. }
  assert (Hs : sequential_preconditions unlabeled_pair_text) by reflexivity.
  specialize (H Hl Hs). vm_compute in H. discriminate.
Qed.

(** C7, as amended: when the labeled and the multi-old strategies yield
    nothing, two URL tokens give exactly one pair, first token old and
    second new, when their authorities (user information, port and letter
    case included) are equal and accepted by [urlparse], and nothing
    otherwise, so nothing when their hosts differ; three or more tokens
    give nothing. *)
Theorem sequential_fallback nr chan (m : message) :
  let text := _clean_slack_text (get (msg_text m) []) in
  _parse_labeled_format text = Ok [] ->
  _parse_multi_old_urls text = Ok [] ->
  exists rs,
    parse_message nr chan m = Ok rs
    /\ (forall u1 u2, find_urls text = [u1; u2] ->
        (same_authority nr u1 u2 = true -> pairs_of rs = [(u1, u2)])
        /\ (same_authority nr u1 u2 = false -> rs = [])
        /\ (host u1 <> host u2 -> rs = []))
    /\ (3 <= length (find_urls text) -> rs = []).
Proof.
  intros text Ha Hb.
  destruct (parse_message_returns nr chan m)
    as (rs & ps & reason & Hm & Hp & _ & Hrs & Hps).
  fold text in Hp. rewrite (extract_pairs_eq nr _ Ha Hb) in Hp.
  exists rs. split_all; auto.
  - intros u1 u2 Hu.
    assert (H1 : url_syntax u1 = true)
      by (apply (@find_urls_syntax text); rewrite Hu; simpl; auto).
    assert (H2 : url_syntax u2 = true)
      by (apply (@find_urls_syntax text); rewrite Hu; simpl; auto).
    pose proof (@same_netloc_authority nr _ _ H1 H2) as Hiff.
    destruct (_parse_sequential_urls_two nr _ Hu) as [Hs Hd].
    assert (Hno : same_authority nr u1 u2 = false -> rs = []).
    { intros Hf. rewrite Hd in Hp.
      - inversion Hp; subst. reflexivity.
      - intros Hh. apply Hiff in Hh. congruence. }
    split_all.
    + intros Hh. apply Hiff in Hh. rewrite (Hs Hh) in Hp. congruence.
    + exact Hno.
    + intros Hh. apply Hno.
      destruct (same_authority nr u1 u2) eqn:E; [|reflexivity].
      exfalso. apply Hh. exact (@same_authority_host nr _ _ E).
  - intros H3. rewrite _parse_sequential_urls_other in Hp by lia.
    inversion Hp; subst. reflexivity.
Qed.

Lemma sequential_fallback_witness :
  exists rs,
    parse_message (fun _ => false) []
      (text_message (py "see https://x.com/a and https://x.com/b")) = Ok rs
    /\ pairs_of rs = [(py "https://x.com/a", py "https://x.com/b")].
Proof.
  destruct (sequential_fallback (fun _ => false) []
              (text_message (py "see https://x.com/a and https://x.com/b"))
              eq_refl eq_refl) as (rs & Hm & Htwo & _).
  exists rs. split; [exact Hm|].
  destruct (Htwo (py "https://x.com/a") (py "https://x.com/b"))
    as [Hsame _]; [vm_compute; reflexivity|].
  apply Hsame. vm_compute. reflexivity.
Defined.

(** C7, as stated, fails: the two URL tokens of this text share the host
    [x.com], neither the labeled nor the multi-old strategy yields
    anything, and the result is empty, because [_same_domain] compares
    [x.com] with [x.com:443]. *)
Lemma equal_hosts_may_give_nothing :
  ~ (forall nr chan (m : message),
       let text := _clean_slack_text (get (msg_text m) []) in
       _parse_labeled_format text = Ok [] ->
       _parse_multi_old_urls text = Ok [] ->
       forall rs u1 u2,
         parse_message nr chan m = Ok rs ->
         find_urls text = [u1; u2] ->
         host u1 = host u2 ->
         pairs_of rs = [(u1, u2)]).
Proof.
  intros H.
  assert (Hrs : parse_message (fun _ => false) []
                  (text_message port_pair_text) = Ok [])
    by (vm_compute; reflexivity).
  assert (Hu : find_urls
                 (_clean_slack_text
                    (get (msg_text (text_message port_pair_text)) []))
               = [py "https://x.com/a"; py "https://x.com:443/b"])
    by (vm_compute; reflexivity).
  assert (Hh : host (py "https://x.com/a") = host (py "https://x.com:443/b"))
    by (vm_compute; reflexivity).
  specialize (H (fun _ => false) [] (text_message port_pair_text)).
  cbv zeta in H.
  specialize (H ltac:(vm_compute; reflexivity) ltac:(vm_compute; reflexivity)
                _ _ _ Hrs Hu Hh).
  discriminate.
Qed.




(* ================================================================= *)
(** ** Fewer than two URL tokens, and one NEW URL *)

(** [findall] is empty exactly when [search] finds nothing. *)
Lemma findall_fuel_search fl r : forall n s m,
  (length s < n)%nat -> search fl r s = Some m -> findall_fuel n fl r s <> [].
Proof.
  induction n as [|n IH]; intros s m Hn Hs; [lia|]. simpl.
  destruct (match_at fl r s) eqn:Hm; [discriminate|].
  destruct s as [|c s]; simpl in Hs; rewrite Hm in Hs; [discriminate|].
  apply (IH s m); [simpl in Hn; lia | exact Hs].
Qed.

Lemma search_none_findall fl r : forall n s,
  search fl r s = None -> findall_fuel n fl r s = [].
Proof.
  induction n as [|n IH]; intros s Hs; [reflexivity|]. simpl.
  destruct s as [|c s]; simpl in Hs;
    destruct (match_at fl r _); try discriminate; auto.
Qed.

Lemma findall_nil_iff fl r s : findall fl r s = [] <-> search fl r s = None.
Proof.
  split.
  - intros H. destruct (search fl r s) as [m|] eqn:Hs; [|reflexivity].
    exfalso. apply (@findall_fuel_search fl r (S (length s)) s m); auto.
  - apply search_none_findall.
Qed.

(** A match found in a suffix is a match of the whole text. *)
Lemma search_suffix fl r pre s :
  search fl r (pre ++ s) = None -> search fl r s = None.
Proof.
  intros H. destruct (search fl r s) as [m|] eqn:Hs; [|reflexivity].
  apply search_sound in Hs. destruct Hs as (p & u & -> & Hu & _).
  exfalso. apply (@search_complete fl r u (m_end m) (pre ++ p) Hu).
  now rewrite <- app_assoc.
Qed.

Lemma find_urls_suffix pre s : find_urls (pre ++ s) = [] -> find_urls s = [].
Proof.
  unfold find_urls. rewrite !findall_nil_iff. apply search_suffix.
Qed.

Section FewTokens.
Variable nr : str -> bool.

(** The labeled strategy and the sequential fallback give nothing below
    two URL tokens. *)
Lemma few_tokens_guarded text :
  length (find_urls text) < 2 ->
  _parse_labeled_format text = Ok []
  /\ _parse_sequential_urls nr text = Ok [].
Proof.
  intros H. apply Nat.ltb_lt in H.
  unfold _parse_labeled_format, _parse_sequential_urls. now rewrite H.
Qed.

(** Without any URL token no strategy gives a pair. *)
Lemma no_token_no_pair text :
  find_urls text = [] -> extract_pairs nr text = Ok [].
Proof.
  intros H.
  destruct (few_tokens_guarded text) as [Ha Hc]; [rewrite H; simpl; lia|].
  pose proof (_parse_multi_old_urls_eq text) as Hb.
  rewrite (extract_pairs_eq nr _ Ha Hb).
  destruct (search I_S old_section_pattern text) as [m|] eqn:Hs;
    [|exact Hc].
  apply search_sound in Hs. destruct Hs as (p & u & Ht & _).
  rewrite Ht, app_assoc in H. apply find_urls_suffix in H. rewrite H.
  destruct (find_urls (get (group1 m) [])); exact Hc.
Qed.
End FewTokens.

(** When the scan leaves one NEW URL, the labeled strategy pairs every OLD
    URL with it, and these pairs are the result of [parse_message]. *)
Lemma labeled_fan_in nr chan m n :
  let text := _clean_slack_text (get (msg_text m) []) in
  let st := scan_lines (split_lines text) in
  labeled_preconditions text ->
  old_urls st <> [] -> new_urls st = [n] ->
  exists rs,
    parse_message nr chan m = Ok rs
    /\ pairs_of rs = map (fun o => (o, n)) (old_urls st).
Proof.
  intros text st Hpre Ho Hn.
  destruct (parse_message_returns nr chan m)
    as (rs & ps & reason & Hm & Hp & _ & _ & Hrs).
  fold text in Hp. exists rs. split; [exact Hm|]. rewrite Hrs.
  pose proof (_parse_labeled_format_scan Hpre) as Ha. fold st in Ha.
  rewrite make_pairs_eq, Hn in Ha.
  pose proof (_parse_multi_old_urls_eq text) as Hb.
  rewrite (extract_pairs_eq nr _ Ha Hb) in Hp.
  destruct (old_urls st) as [|o olds]; [congruence|].
  simpl in Hp. now apply Ok_inj in Hp.
Qed.

(* ================================================================= *)
(** ** The repository's own test message, and a single URL token *)

(** C1 fails on the message of [test_parse_multiple_old_urls]: the line
    of the new URL holds [des], which the old-label pattern matches, so
    the scan puts all five URL tokens in the OLD accumulator, none in NEW,
    and [parse_message] returns no record where the test expects four. *)
Theorem parse_message_multiple_old_urls :
  forall nr chan,
    find_urls multiple_old_urls_text = multiple_old_urls_tokens
    /\ old_urls (scan_lines (split_lines multiple_old_urls_text))
       = multiple_old_urls_tokens
    /\ new_urls (scan_lines (split_lines multiple_old_urls_text)) = []
    /\ _parse_multi_old_urls multiple_old_urls_text = Ok []
    /\ parse_message nr chan multiple_old_urls_message = Ok [].
Proof. intros nr chan. split_all; vm_compute; reflexivity. Qed.

(** C2 fails on a text with a single URL token: the multi-old strategy
    cuts the token at the first [a] after the label and pairs the piece
    before it with the URL nested in the query string. *)
Theorem parse_message_single_url_token :
  forall nr chan,
    length (find_urls nested_url_text) = 1
    /\ exists rs,
         parse_message nr chan (text_message nested_url_text) = Ok rs
         /\ pairs_of rs
            = [(py "https://ex", py "https://example.com/home")].
Proof.
  intros nr chan. split; [reflexivity|].
  eexists. split; vm_compute; reflexivity.
Qed.

(* ================================================================= *)
(** ** Running the matcher on text of a known shape *)

Section RepetitionFacts.
Variable A : Type.
Variable p : char -> bool.
Variable k : str -> option A.

(** Greedy repetition over a run [u] that cannot be extended: the
    continuation first sees what follows the whole run. *)
Lemma star_greedy_stop x : forall u v,
  forallb p u = true -> (forall c v', v = c :: v' -> p c = false) ->
  k v = Some x -> star_greedy p (u ++ v) k = Some x.
Proof.
  induction u as [|c u IH]; simpl; intros v Hu Hv Hk.
  - destruct v as [|c v']; simpl; [exact Hk|]. now rewrite (Hv c v' eq_refl).
  - apply andb_true_iff in Hu. destruct Hu as [-> Hu].
    now rewrite (IH v Hu Hv Hk).
Qed.

Lemma star_greedy_fail : forall u v,
  forallb p u = true -> (forall c v', v = c :: v' -> p c = false) ->
  (forall a b, u = a ++ b -> k (b ++ v) = None) ->
  star_greedy p (u ++ v) k = None.
Proof.
  induction u as [|c u IH]; simpl; intros v Hu Hv Hk.
  - specialize (Hk [] [] eq_refl). simpl in Hk.
    destruct v as [|c v']; simpl; [exact Hk|]. now rewrite (Hv c v' eq_refl).
  - apply andb_true_iff in Hu. destruct Hu as [-> Hu].
    rewrite (IH v Hu Hv).
    + apply (Hk [] (c :: u) eq_refl).
    + intros a b ->. apply (Hk (c :: a) b eq_refl).
Qed.

Lemma star_lazy_cons c s :
  star_lazy p (c :: s) k
  = match k (c :: s) with
    | Some x => Some x
    | None => if p c then star_lazy p s k else None
    end.
Proof. reflexivity. Qed.

(** Lazy repetition moves on while the continuation refuses. *)
Lemma star_lazy_skip : forall u v,
  forallb p u = true ->
  (forall a b, u = a ++ b -> b <> [] -> k (b ++ v) = None) ->
  star_lazy p (u ++ v) k = star_lazy p v k.
Proof.
  induction u as [|c u IH]; intros v Hu Hk; [reflexivity|].
  simpl in Hu. apply andb_true_iff in Hu. destruct Hu as [Hc Hu].
  assert (H0 : k ((c :: u) ++ v) = None)
    by (apply (Hk [] (c :: u) eq_refl); discriminate).
  simpl app in *. rewrite star_lazy_cons, H0, Hc. apply IH; auto.
  intros a b -> Hb. apply (Hk (c :: a) b eq_refl Hb).
Qed.
End RepetitionFacts.




Section MatcherSteps.
Variable fl : flags.
Variable A : Type.
Implicit Types (k : str -> capture -> option A) (s : str) (g : capture).

Lemma mt_cat r1 r2 s g k :
  mt fl (Cat r1 r2) s g k = mt fl r1 s g (fun s' g' => mt fl r2 s' g' k).
Proof. reflexivity. Qed.

Lemma mt_group r s g k :
  mt fl (Group r) s g k = mt fl r s g (fun s' _ => k s' (Some (s, s'))).
Proof. reflexivity. Qed.

Lemma mt_chr_hit a c s g k :
  atom_match fl a c = true -> mt fl (Chr a) (c :: s) g k = k s g.
Proof. intros H. simpl. now rewrite H. Qed.

Lemma mt_chr_miss a c s g k :
  atom_match fl a c = false -> mt fl (Chr a) (c :: s) g k = None.
Proof. intros H. simpl. now rewrite H. Qed.


Lemma mt_opt_hit r s g k x :
  mt fl r s g k = Some x -> mt fl (Opt r) s g k = Some x.
Proof. intros H. simpl. now rewrite H. Qed.

Lemma mt_opt_miss r s g k :
  mt fl r s g k = None -> mt fl (Opt r) s g k = k s g.
Proof. intros H. simpl. now rewrite H. Qed.

Lemma mt_opt_fail r s g k :
  mt fl r s g k = None -> k s g = None -> mt fl (Opt r) s g k = None.
Proof. intros H1 H2. simpl. now rewrite H1. Qed.

(** A run [u] of the repeated atom that cannot be extended. *)
Lemma mt_star_stop a u v g k x :
  forallb (atom_match fl a) u = true ->
  (forall c v', v = c :: v' -> atom_match fl a c = false) ->
  k v g = Some x -> mt fl (Star a) (u ++ v) g k = Some x.
Proof. intros. simpl. now apply star_greedy_stop. Qed.


Lemma mt_plus_fail a u v g k :
  forallb (atom_match fl a) u = true ->
  (forall c v', v = c :: v' -> atom_match fl a c = false) ->
  (forall b c, u = b ++ c -> k (c ++ v) g = None) ->
  mt fl (Plus a) (u ++ v) g k = None.
Proof.
  intros Hu Hv Hk. destruct u as [|c u]; simpl in *.
  - destruct v as [|c v']; [reflexivity|]. now rewrite (Hv c v' eq_refl).
  - apply andb_true_iff in Hu. destruct Hu as [-> Hu].
    apply star_greedy_fail; auto.
    intros b d ->. apply (Hk (c :: b) d eq_refl).
Qed.

(** A lazy run goes on to the first place the continuation accepts. *)
Lemma mt_plus_lazy_first a u v g k x :
  u <> [] -> forallb (atom_match fl a) u = true ->
  (forall b c, u = b ++ c -> b <> [] -> c <> [] -> k (c ++ v) g = None) ->
  k v g = Some x -> mt fl (PlusLazy a) (u ++ v) g k = Some x.
Proof.
  intros Hne Hu Hk Hv. destruct u as [|c u]; [congruence|]. simpl in *.
  apply andb_true_iff in Hu. destruct Hu as [-> Hu].
  rewrite star_lazy_skip; auto.
  - destruct v; simpl; now rewrite Hv.
  - intros b d -> Hd. apply (Hk (c :: b) d eq_refl); auto. discriminate.
Qed.
End MatcherSteps.










Lemma after_scheme_https t : after_scheme (py "https://" ++ t) = Some t.
Proof. reflexivity. Qed.

Lemma after_scheme_http t : after_scheme (py "http://" ++ t) = Some t.
Proof. reflexivity. Qed.






















(* ================================================================= *)
(** ** The text normalizer *)




(* ================================================================= *)
(** ** Letters up to case, labels and separators *)

Lemma is_lower_range c : is_lower c = true -> (97 <= c <= 122)%N.
Proof.
  unfold is_lower. intros H. apply andb_true_iff in H.
  destruct H as [H1 H2]. apply N.leb_le in H1, H2. lia.
Qed.

Lemma tolower_lower c : is_lower c = true -> tolower c = c.
Proof.
  intros H. apply is_lower_range in H. unfold tolower.
  destruct (N.leb_spec 65 c); destruct (N.leb_spec c 90); simpl; try lia.
  destruct (N.eqb_spec c 304); [lia|].
  destruct (N.eqb_spec c 8490); [lia|].
  destruct (N.eqb_spec c 195); [lia|]. reflexivity.
Qed.

Lemma tolower_ascii_lower c :
  is_lower (ascii_lower c) = true -> tolower c = ascii_lower c.
Proof.
  intros H. pose proof (is_lower_range _ H) as Hr. revert Hr.
  unfold tolower, ascii_lower.
  destruct (N.leb_spec 65 c); destruct (N.leb_spec c 90); simpl;
    intros Hr; try reflexivity.
  - destruct (N.eqb_spec c 304); [lia|].
    destruct (N.eqb_spec c 8490); [lia|].
    destruct (N.eqb_spec c 195); [lia|]. reflexivity.
  - lia.
  - lia.
Qed.

Lemma lit_match_ascii l c :
  is_lower l = true -> is_lower (ascii_lower c) = true ->
  atom_match I (Lit l) c = (ascii_lower c =? l)%N.
Proof.
  intros Hl Hc. unfold atom_match, lit_match. cbn [IGNORECASE I].
  rewrite (tolower_lower _ Hl), (tolower_ascii_lower _ Hc).
  apply is_lower_range in Hc.
  destruct (N.eqb_spec (ascii_lower c) 305); [lia|].
  destruct (N.eqb_spec (ascii_lower c) 383); [lia|].
  now rewrite !andb_false_r, !orb_false_r.
Qed.

Lemma mt_lit_ci A l c l' s g (k : str -> capture -> option A) :
  is_lower l = true -> is_lower l' = true -> ascii_lower c = l' ->
  mt I (Chr (Lit l)) (c :: s) g k = if (l' =? l)%N then k s g else None.
Proof.
  intros Hl Hl' Hc. subst l'. cbn [mt]. now rewrite lit_match_ascii.
Qed.

Lemma mt_alt A fl r1 r2 s g (k : str -> capture -> option A) :
  mt fl (Alt r1 r2) s g k
  = match mt fl r1 s g k with
    | Some x => Some x
    | None => mt fl r2 s g k
    end.
Proof. reflexivity. Qed.

(** Runs the matcher through letters known up to ASCII case. *)
Ltac ci_run :=
  repeat (cbv beta;
          first
            [ rewrite mt_cat
            | match goal with
              | H : ascii_lower ?c = ?l'
                |- context [mt I (Chr (Lit ?l)) (?c :: _) _ _] =>
                  rewrite (@mt_lit_ci _ l c l' _ _ _ eq_refl eq_refl H);
                  cbn [N.eqb Pos.eqb]
              end ]).

Lemma label_token_cases label :
  label_token label = true ->
  map ascii_lower label = py "reason" \/ map ascii_lower label = py "razon"
  \/ map ascii_lower label = py "motivo".
Proof.
  unfold label_token, is_word. intros H.
  apply orb_true_iff in H. destruct H as [H|H];
    [apply orb_true_iff in H; destruct H as [H|H]|];
    apply str_eqb_eq in H; auto.
Qed.

Lemma mt_class_o A c s g (k : str -> capture -> option A) :
  ascii_lower c = ch "o" ->
  mt I (Chr (OneOf [lit "o"; CChar 195%N; CChar 179%N])) (c :: s) g k = k s g.
Proof.
  intros H. apply mt_chr_hit. cbn [atom_match existsb citem_match lit].
  change (lit_match I (N_of_ascii "o") c) with (atom_match I (Lit (ch "o")) c).
  rewrite lit_match_ascii; [|reflexivity|now rewrite H].
  now rewrite H.
Qed.

(** A label token is consumed by the label alternatives, whatever
    follows. *)
Lemma reason_label_run A label s g (k : str -> capture -> option A) :
  label_token label = true ->
  mt I reason_label (label ++ s) g k = k s g.
Proof.
  intros H. apply label_token_cases in H.
  unfold reason_label. simpl word. rewrite !mt_alt.
  destruct H as [H | [H | H]];
    destruct label as [|c1 [|c2 [|c3 [|c4 [|c5 [|c6 [|]]]]]]];
    try discriminate.
  - injection H as H1 H2 H3 H4 H5 H6. simpl app. ci_run.
    now destruct (k s g).
  - injection H as H1 H2 H3 H4 H5. simpl app. ci_run.
    rewrite mt_class_o by exact H4. ci_run. now destruct (k s g).
  - injection H as H1 H2 H3 H4 H5 H6. simpl app. ci_run. reflexivity.
Qed.

(** What the label alternatives match has the shape of a label token. *)
Lemma reason_label_shape u rest :
  matches I reason_label u rest -> matches I label_shape u rest.
Proof.
  unfold reason_label, label_shape. intros H.
  inversion H as [| | |? ? ? ? H1|? ? ? ? H1| | | | | | |]; subst; clear H.
  - now apply M_AltL.
  - apply M_AltR.
    inversion H1 as [| | |? ? ? ? H2|? ? ? ? H2| | | | | | |]; subst; clear H1.
    + apply M_AltL.
      inversion H2 as [| |? ? ? ? ? Ha Hb| | | | | | | | |]; subst; clear H2.
      inversion Hb as [| |? ? ? ? ? Hc Hd| | | | | | | | |]; subst; clear Hb.
      inversion Hc; subst; clear Hc.
      apply M_Cat; [exact Ha|]. apply M_Cat; [|exact Hd].
      now apply M_Chr.
    + now apply M_AltR.
Qed.

Lemma no_label_no_match A s g r (k : str -> capture -> option A) :
  label_here s = false -> mt I (reason_label +++ r) s g k = None.
Proof.
  intros H. destruct (mt I (reason_label +++ r) s g k) as [x|] eqn:Hm;
    [|reflexivity].
  apply mt_sound in Hm. destruct Hm as (u & s' & g' & -> & Hm & _).
  inversion Hm as [| |? ? ? ? ? Ha Hb| | | | | | | | |]; subst; clear Hm.
  apply reason_label_shape, match_at_complete in Ha.
  unfold label_here in H. rewrite <- app_assoc in H.
  destruct (match_at I label_shape (u0 ++ v ++ s')); [discriminate|congruence].
Qed.

Lemma search_here fl r s m : match_at fl r s = Some m -> search fl r s = Some m.
Proof. intros H. destruct s; simpl; now rewrite H. Qed.

(** [search] passes over the positions where the pattern cannot start. *)
Lemma search_skip fl r rest : forall pre,
  (forall a b, pre = a ++ b -> b <> [] -> match_at fl r (b ++ rest) = None) ->
  search fl r (pre ++ rest) = search fl r rest.
Proof.
  induction pre as [|c pre IH]; intros H; [reflexivity|].
  assert (H0 : match_at fl r (c :: pre ++ rest) = None)
    by (apply (H [] (c :: pre) eq_refl); discriminate).
  simpl. rewrite H0. apply IH. intros a b -> Hb. apply (H (c :: a) b eq_refl Hb).
Qed.

Lemma search_none fl r : forall s,
  (forall a b, s = a ++ b -> match_at fl r b = None) -> search fl r s = None.
Proof.
  induction s as [|c s IH]; intros H; simpl.
  - now rewrite (H [] [] eq_refl).
  - rewrite (H [] (c :: s) eq_refl). apply IH.
    intros a b ->. apply (H (c :: a) b eq_refl).
Qed.

Lemma no_label_before_split rest : forall pre a b,
  no_label_before (length pre) (pre ++ rest) = true ->
  pre = a ++ b -> b <> [] -> label_here (b ++ rest) = false.
Proof.
  induction pre as [|c pre IH]; intros a b H Hs Hb.
  - destruct a, b; try discriminate. congruence.
  - simpl in H. apply andb_true_iff in H. destruct H as [Hc Hp].
    destruct a as [|c' a].
    + simpl in Hs. subst b. now apply negb_true_iff in Hc.
    + injection Hs as <- ->. eapply IH; eauto.
Qed.

Lemma no_label_before_all : forall s a b,
  no_label_before (S (length s)) s = true ->
  s = a ++ b -> label_here b = false.
Proof.
  induction s as [|c s IH]; intros a b H Hs.
  - destruct a, b; try discriminate. reflexivity.
  - cbn [no_label_before length] in H.
    apply andb_true_iff in H. destruct H as [Hc Hp].
    destruct a as [|c' a].
    + simpl in Hs. subst b. now apply negb_true_iff in Hc.
    + injection Hs as <- ->. eapply IH; eauto.
Qed.

(** Below [A] nothing is folded. *)
Lemma lit_match_small l c :
  (l < 65)%N -> atom_match I (Lit l) c = (c =? l)%N.
Proof.
  intros Hl. unfold atom_match, lit_match. cbn [IGNORECASE I].
  assert (Hlo : tolower l = l).
  { unfold tolower.
    destruct (N.leb_spec 65 l); [lia|]. simpl.
    destruct (N.eqb_spec l 304); [lia|].
    destruct (N.eqb_spec l 8490); [lia|].
    destruct (N.eqb_spec l 195); [lia|]. reflexivity. }
  rewrite Hlo.
  destruct (N.eqb_spec l 105); [lia|].
  destruct (N.eqb_spec l 115); [lia|]. simpl. rewrite !orb_false_r.
  unfold tolower. destruct ((65 <=? c) && (c <=? 90))%N eqn:E.
  - apply andb_true_iff in E. destruct E as [E1 E2].
    apply N.leb_le in E1, E2.
    destruct (N.eqb_spec (c + 32) l); destruct (N.eqb_spec c l);
      try reflexivity; lia.
  - destruct (N.eqb_spec c 304);
      [destruct (N.eqb_spec 105 l); destruct (N.eqb_spec c l);
       try reflexivity; lia|].
    destruct (N.eqb_spec c 8490);
      [destruct (N.eqb_spec 107 l); destruct (N.eqb_spec c l);
       try reflexivity; lia|].
    destruct (N.eqb_spec c 195);
      [destruct (N.eqb_spec 227 l); destruct (N.eqb_spec c l);
       try reflexivity; lia|].
    reflexivity.
Qed.

Lemma lstrip_split s :
  exists ws, s = ws ++ lstrip s /\ forallb isspace ws = true
             /\ (forall c t, lstrip s = c :: t -> isspace c = false).
Proof.
  induction s as [|c s (ws & Hs & Hw & Ht)].
  - exists []. split_all.
  - simpl. destruct (isspace c) eqn:Hc.
    + exists (c :: ws). simpl. rewrite Hc, Hw. split_all; auto.
      now f_equal.
    + exists []. split_all. now intros c' t [= <- _].
Qed.

(** The capture runs to the end of the line. *)
Lemma reason_group_run start g body post :
  body <> [] ->
  forallb (fun x => negb (x =? NL)%N) body = true ->
  line_end post = true ->
  exists e,
    mt I (Group (PlusLazy Any) +++ (Chr (Lit NL) <|> Dollar))
      (body ++ post) g
      (fun s' g' => Some {| m_start := start; m_end := s'; m_g1 := g' |})
    = Some {| m_start := start; m_end := e;
              m_g1 := Some (body ++ post, post) |}.
Proof.
  intros Hne Hb Hp.
  assert (Hmid : forall b c gg (k : str -> capture -> option Match),
             body = b ++ c -> c <> [] ->
             mt I (Chr (Lit NL) <|> Dollar) (c ++ post) gg k = None).
  { intros b c gg k Hbc Hc. destruct c as [|c0 c]; [congruence|].
    assert (Hc0 : (c0 =? NL)%N = false).
    { rewrite forallb_forall in Hb. apply negb_true_iff, Hb.
      rewrite Hbc. apply in_elt. }
    rewrite mt_alt. simpl app.
    rewrite mt_chr_miss by (now rewrite lit_match_small).
    simpl. rewrite Hc0. now destruct (c ++ post). }
  destruct post as [|p post].
  - exists []. rewrite mt_cat, mt_group.
    apply mt_plus_lazy_first;
      [ exact Hne | exact Hb
      | intros b c Hbc _ Hc; cbv beta; eapply Hmid; eauto
      | reflexivity ].
  - simpl in Hp. apply N.eqb_eq in Hp. subst p.
    exists post. rewrite mt_cat, mt_group.
    apply mt_plus_lazy_first;
      [ exact Hne | exact Hb
      | intros b c Hbc _ Hc; cbv beta; eapply Hmid; eauto
      | reflexivity ].
Qed.

Lemma colon_dash_class c :
  atom_match I colon_dash c = char_in c [ch ":"; ch "-"].
Proof.
  unfold colon_dash, char_in. cbn [atom_match existsb citem_match lit].
  change (lit_match I (N_of_ascii ":") c) with (atom_match I (Lit 58%N) c).
  change (lit_match I (N_of_ascii "-") c) with (atom_match I (Lit 45%N) c).
  now rewrite !lit_match_small by lia.
Qed.

Lemma colon_dash_not_space c :
  char_in c [ch ":"; ch "-"] = true -> isspace c = false.
Proof.
  unfold char_in. simpl. intros H.
  destruct (N.eqb_spec c 58); [subst; reflexivity|].
  destruct (N.eqb_spec c 45); [subst; reflexivity|]. discriminate.
Qed.

(** The pattern on a line [label sep body], at its first position. *)
Lemma reason_pattern_run label sep body post :
  label_token label = true -> separator sep = true ->
  reason_text sep body = true -> line_end post = true ->
  forall p, In p reason_patterns ->
  exists m,
    match_at I p (label ++ sep ++ body ++ post) = Some m
    /\ group1 m = Some body.
Proof.
  intros Hl Hsep Hbody Hpost p [<- | []].
  destruct body as [|c0 body]; [discriminate|].
  unfold reason_text in Hbody.
  apply andb_true_iff in Hbody. destruct Hbody as [Hbody Hfirst].
  apply andb_true_iff in Hbody. destruct Hbody as [Hc0 Hline].
  apply negb_true_iff in Hc0.
  destruct (lstrip_split sep) as (ws1 & Hs & Hws1 & Hstop).
  unfold separator in Hsep.
  destruct (@reason_group_run
              (label ++ sep ++ (c0 :: body) ++ post)
              None (c0 :: body) post) as (e & He); auto; [discriminate|].
  assert (Hstar0 : forall gg (k : str -> capture -> option Match) x,
             k ((c0 :: body) ++ post) gg = Some x ->
             mt I (Star Space) ((c0 :: body) ++ post) gg k = Some x).
  { intros gg k x Hk. apply (@mt_star_stop I Match Space []); auto.
    now intros c v' [= <- _]. }
  exists {| m_start := label ++ sep ++ (c0 :: body) ++ post; m_end := e;
            m_g1 := Some ((c0 :: body) ++ post, post) |}.
  split; [|unfold group1; cbn [m_g1]; now rewrite between_app].
  unfold match_at. rewrite mt_cat, reason_label_run by exact Hl.
  cbv beta. rewrite mt_cat.
  destruct (lstrip sep) as [|p ws2] eqn:Htail.
  - rewrite app_nil_r in Hs. subst sep.
    apply mt_star_stop; auto; [now intros c v' [= <- _]|].
    rewrite mt_cat. rewrite mt_opt_miss.
    + rewrite mt_cat. apply Hstar0. exact He.
    + apply mt_chr_miss. rewrite colon_dash_class.
      simpl in Hfirst. now apply negb_true_iff in Hfirst.
  - apply andb_true_iff in Hsep. destruct Hsep as [Hp Hws2].
    rewrite Hs. rewrite <- !app_assoc. simpl app.
    apply mt_star_stop; auto;
      [intros c v' [= <- _]; now apply colon_dash_not_space|].
    rewrite mt_cat. apply mt_opt_hit.
    rewrite mt_chr_hit by (now rewrite colon_dash_class).
    rewrite mt_cat. apply mt_star_stop; auto;
      [now intros c v' [= <- _]|].
    rewrite Hs in He. rewrite <- !app_assoc in He. exact He.
Qed.

(* ================================================================= *)
(** ** The reason extractor *)

Lemma extract_reason_found text m body :
  search I (hd Eps reason_patterns) text = Some m ->
  group1 m = Some body ->
  _extract_reason text = Ok (Some (strip body)).
Proof.
  intros Hs Hg. unfold _extract_reason, reason_patterns in *.
  cbn [first_reason hd] in *. rewrite Hs. unfold group1_strip.
  now rewrite Hg.
Qed.

Lemma reason_pattern_needs_label p s :
  In p reason_patterns -> label_here s = false -> match_at I p s = None.
Proof. intros [<- | []] H. now apply no_label_no_match. Qed.

(** C8, as amended: when the first label token ([reason], [razon] or
    [motivo], in any case) is followed on its line by a separator and by
    text that does not start with white space, the reason is that text up
    to the end of the line, trimmed; when the text holds nothing of the
    shape of a label token, there is no reason; and every record of
    [parse_message] carries the extracted reason, however many there
    are. *)
Theorem extract_reason_line :
  (forall pre label sep body post,
     no_label_before (length pre) (pre ++ label ++ sep ++ body ++ post)
     = true ->
     label_token label = true -> separator sep = true ->
     reason_text sep body = true -> line_end post = true ->
     _extract_reason (pre ++ label ++ sep ++ body ++ post)
     = Ok (Some (strip body)))
  /\ (forall text,
        no_label_before (S (length text)) text = true ->
        _extract_reason text = Ok None)
  /\ (forall nr chan m rs r,
        parse_message nr chan m = Ok rs -> In r rs ->
        _extract_reason (_clean_slack_text (get (msg_text m) []))
        = Ok (reason r)).
Proof.
  split_all.
  - intros pre label sep body post Hpre Hl Hsep Hbody Hpost.
    destruct (@reason_pattern_run label sep body post Hl Hsep Hbody Hpost
                _ (or_introl eq_refl)) as (m & Hm & Hg).
    apply (@extract_reason_found _ m); [|exact Hg].
    rewrite search_skip.
    + now apply search_here.
    + intros a b Hab Hb. apply reason_pattern_needs_label; [now left|].
      eapply no_label_before_split; eauto.
  - intros text H. unfold _extract_reason, reason_patterns.
    cbn [first_reason]. rewrite search_none; [reflexivity|].
    intros a b Hab. apply (@reason_pattern_needs_label _ b (or_introl eq_refl)).
    eapply no_label_before_all; eauto.
  - intros nr chan m rs r Hm Hr.
    destruct (parse_message_returns nr chan m)
      as (rs' & ps & reason & Hm' & _ & Hreason & Hrs & _).
    rewrite Hm in Hm'. apply Ok_inj in Hm'. subst rs'.
    rewrite Hrs in Hr. apply in_map_iff in Hr. destruct Hr as (p & <- & _).
    exact Hreason.
Qed.

Lemma extract_reason_line_witness :
  _extract_reason
    (unlines [py "Old: https://s.com/p1"; py "New: https://s.com/p2";
              py "Reason: dead link, replaced"; py "Thanks"])
  = Ok (Some (py "dead link, replaced")).
Proof.
  exact (proj1 extract_reason_line
           (unlines [py "Old: https://s.com/p1"; py "New: https://s.com/p2";
                     []])
           (py "Reason") (py ": ") (py "dead link, replaced")
           (NL :: py "Thanks") eq_refl eq_refl eq_refl eq_refl eq_refl).
Defined.

(** C8, as stated, fails: when nothing follows the label on its line, the
    reason is taken from the next line. *)
Lemma reason_taken_from_next_line :
  ~ (forall rest post,
       forallb (fun c => negb (c =? NL)%N) rest = true ->
       line_end post = true ->
       _extract_reason (py "Reason:" ++ rest ++ post)
       = Ok (Some (strip rest))
       \/ strip rest = []
          /\ _extract_reason (py "Reason:" ++ rest ++ post) = Ok None).
Proof.
  intros H.
  destruct (H [] (NL :: py "Thanks") eq_refl eq_refl) as [E | [_ E]];
    vm_compute in E; discriminate.
Qed.

(** The label of the source's pattern holds the two characters U+00C3 and
    U+00B3 where an accented [o] (U+00F3) was meant. *)
Example razon_with_accent :
  _extract_reason (py "raz" ++ 243%N :: py "n: enlace roto") = Ok None
  /\ _extract_reason (py "razon: enlace roto") = Ok (Some (py "enlace roto")).
Proof. split; reflexivity. Qed.

(* ================================================================= *)
(** ** Where the captured text and the URL tokens come from *)

Lemma suffix_of_refl (s : str) : suffix_of s s.
Proof. exists []. reflexivity. Qed.

Lemma suffix_of_trans (a b c : str) :
  suffix_of a b -> suffix_of b c -> suffix_of a c.
Proof.
  intros [p ->] [q ->]. exists (q ++ p). now rewrite app_assoc.
Qed.

Lemma suffix_of_cons (c : char) (t s : str) :
  suffix_of t s -> suffix_of t (c :: s).
Proof. intros [p ->]. exists (c :: p). reflexivity. Qed.

Lemma suffix_of_app (u s : str) : suffix_of s (u ++ s).
Proof. now exists u. Qed.

Lemma occurs_in_refl (s : str) : occurs_in s s.
Proof. exists [], []. now rewrite app_nil_r. Qed.

Lemma occurs_in_trans (a b c : str) :
  occurs_in a b -> occurs_in b c -> occurs_in a c.
Proof.
  intros (p & q & ->) (p' & q' & ->). exists (p' ++ p), (q ++ q').
  now rewrite !app_assoc.
Qed.

Lemma occurs_in_suffix (u t s : str) :
  occurs_in u t -> suffix_of t s -> occurs_in u s.
Proof.
  intros (p & q & ->) [p' ->]. exists (p' ++ p), q. now rewrite !app_assoc.
Qed.

Lemma between_occurs (a b s : str) :
  suffix_of a s -> suffix_of b a -> occurs_in (between a b) s.
Proof.
  intros [p ->] [q ->]. rewrite between_app. now exists p, b.
Qed.

Section CaptureFacts.
Variable fl : flags.
Variable A : Type.

(** Group 1 after a match is what it was before, or a piece of the text
    that a group of the pattern matched. *)
Lemma mt_capture (r : regex) :
  forall s g (k : str -> capture -> option A) x,
  mt fl r s g k = Some x ->
  exists s' g',
    k s' g' = Some x /\ suffix_of s' s
    /\ (g' = g
        \/ exists a b, g' = Some (a, b) /\ suffix_of a s /\ suffix_of b a
                       /\ group_text fl r (between a b)).
Proof.
  induction r; simpl; intros s g k x H.
  - exists s, g. auto using suffix_of_refl.
  - destruct s as [|c s]; [discriminate|].
    destruct (atom_match fl a c); [|discriminate].
    exists s, g. split_all; auto. now exists [c].
  - apply IHr1 in H. destruct H as (s1 & g1 & Hk & Hs1 & Hg1).
    apply IHr2 in Hk. destruct Hk as (s2 & g2 & Hk & Hs2 & Hg2).
    exists s2, g2. split_all; eauto using suffix_of_trans.
    destruct Hg2 as [-> | (a & b & -> & Ha & Hb & Ht)].
    + destruct Hg1 as [-> | (a & b & -> & Ha & Hb & Ht)]; auto.
      right. exists a, b. auto.
    + right. exists a, b. split_all; eauto using suffix_of_trans.
  - destruct (mt fl r1 s g k) eqn:H1.
    + inversion H; subst. apply IHr1 in H1.
      destruct H1 as (s' & g' & Hk & Hs & [-> | (a & b & -> & Ha & Hb & Ht)]).
      * exists s', g. auto.
      * exists s', (Some (a, b)). split_all; auto. right. exists a, b. auto.
    + apply IHr2 in H.
      destruct H as (s' & g' & Hk & Hs & [-> | (a & b & -> & Ha & Hb & Ht)]).
      * exists s', g. auto.
      * exists s', (Some (a, b)). split_all; auto. right. exists a, b. auto.
  - destruct (mt fl r s g k) eqn:H1.
    + inversion H; subst. apply IHr in H1. exact H1.
    + exists s, g. auto using suffix_of_refl.
  - apply star_greedy_sound in H. destruct H as (u & s' & -> & _ & Hk).
    exists s', g. auto using suffix_of_app.
  - destruct s as [|c s]; [discriminate|].
    destruct (atom_match fl a c); [|discriminate].
    apply star_greedy_sound in H. destruct H as (u & s' & -> & _ & Hk).
    exists s', g. split_all; auto. now exists (c :: u).
  - destruct s as [|c s]; [discriminate|].
    destruct (atom_match fl a c); [|discriminate].
    apply star_lazy_sound in H. destruct H as (u & s' & -> & _ & Hk).
    exists s', g. split_all; auto. now exists (c :: u).
  - apply mt_sound in H. destruct H as (u & s' & g' & -> & Hm & Hk & _ & _).
    exists s', (Some (u ++ s', s')). split_all; auto using suffix_of_app.
    right. exists (u ++ s'), s'.
    split_all; auto using suffix_of_refl, suffix_of_app.
    rewrite between_app. now exists s'.
  - destruct s as [|c [|d s]]; try discriminate.
    + exists [], g. auto using suffix_of_refl.
    + destruct (N.eqb_spec c NL); [subst|discriminate].
      exists [NL], g. auto using suffix_of_refl.
Qed.
End CaptureFacts.

Lemma match_at_group1 fl r s m g :
  match_at fl r s = Some m -> group1 m = Some g ->
  occurs_in g s /\ group_text fl r g.
Proof.
  unfold match_at, group1. intros H Hg. apply mt_capture in H.
  destruct H as (s' & g' & Hk & _ & Hc). inversion Hk; subst; clear Hk.
  simpl in Hg. destruct Hc as [-> | (a & b & -> & Ha & Hb & Ht)];
    [discriminate|].
  inversion Hg; subst. split; [now apply between_occurs | exact Ht].
Qed.

Lemma search_at fl r : forall s m,
  search fl r s = Some m ->
  exists s0, suffix_of s0 s /\ match_at fl r s0 = Some m.
Proof.
  induction s as [|c s IH]; simpl; intros m H.
  - destruct (match_at fl r []) eqn:Hm; [|discriminate].
    inversion H; subst. exists []. auto using suffix_of_refl.
  - destruct (match_at fl r (c :: s)) eqn:Hm.
    + inversion H; subst. exists (c :: s). auto using suffix_of_refl.
    + destruct (IH _ H) as (s0 & Hs & Hm0). exists s0.
      auto using suffix_of_cons.
Qed.

Lemma search_group1_occurs fl r s m g :
  search fl r s = Some m -> group1 m = Some g ->
  occurs_in g s /\ group_text fl r g.
Proof.
  intros H Hg. apply search_at in H. destruct H as (s0 & Hs & Hm).
  destruct (match_at_group1 _ _ _ Hm Hg) as [Ho Ht].
  split; [eapply occurs_in_suffix; eauto | exact Ht].
Qed.

Lemma search_end_suffix fl r s m :
  search fl r s = Some m -> suffix_of (m_end m) s.
Proof.
  intros H. apply search_sound in H. destruct H as (pre & u & -> & _).
  exists (pre ++ u). now rewrite app_assoc.
Qed.

Lemma findall_fuel_occurs fl r : forall n s u,
  In u (findall_fuel n fl r s) -> occurs_in u s.
Proof.
  induction n as [|n IH]; simpl; intros s u H; [contradiction|].
  assert (Htl : forall c s', s = c :: s' ->
                  In u (findall_fuel n fl r s') -> occurs_in u s).
  { intros c s' -> Hin. eapply occurs_in_suffix; [eapply IH; eauto|].
    apply suffix_of_cons, suffix_of_refl. }
  destruct (match_at fl r s) as [m|] eqn:Hm.
  - pose proof (match_at_sound _ _ _ Hm) as (v & Hs & _ & _ & Hg & _).
    destruct H as [H|H].
    + subst u. rewrite Hg. exists [], (m_end m). exact Hs.
    + destruct (length (m_end m) <? length s)%nat.
      * eapply occurs_in_suffix; [eapply IH; eauto|].
        exists v. exact Hs.
      * destruct s; [contradiction | eauto].
  - destruct s; [contradiction | eauto].
Qed.

Lemma find_urls_occur text u : In u (find_urls text) -> occurs_in u text.
Proof. apply findall_fuel_occurs. Qed.

Lemma lstrip_suffix : forall s, suffix_of (lstrip s) s.
Proof.
  induction s as [|c s IH]; simpl; [apply suffix_of_refl|].
  destruct (isspace c); [now apply suffix_of_cons | apply suffix_of_refl].
Qed.

Lemma rstrip_prefix s : exists post, s = rstrip s ++ post.
Proof.
  unfold rstrip. destruct (lstrip_suffix (rev s)) as [p Hp].
  exists (rev p). rewrite <- rev_app_distr, <- Hp. now rewrite rev_involutive.
Qed.

Lemma strip_occurs s : occurs_in (strip s) s.
Proof.
  unfold strip. destruct (lstrip_suffix s) as [p Hp].
  destruct (rstrip_prefix (lstrip s)) as [q Hq].
  exists p, q. now rewrite <- Hq.
Qed.

Lemma split_lines_head : forall s,
  exists l ls post, split_lines s = l :: ls /\ s = l ++ post.
Proof.
  induction s as [|c s (l & ls & post & Hl & Hs)]; simpl.
  - now exists [], [], [].
  - destruct (c =? NL)%N.
    + now exists [], (split_lines s), (c :: s).
    + rewrite Hl. exists (c :: l), ls, post. now rewrite Hs at 1.
Qed.

Lemma split_lines_occur : forall s l, In l (split_lines s) -> occurs_in l s.
Proof.
  induction s as [|c s IH]; simpl; intros l H.
  - destruct H as [<- | []]. apply occurs_in_refl.
  - assert (Htl : In l (split_lines s) -> occurs_in l (c :: s)).
    { intros Hin. eapply occurs_in_suffix; [apply IH, Hin|].
      apply suffix_of_cons, suffix_of_refl. }
    destruct (c =? NL)%N.
    + destruct H as [<- | H]; [now exists [], (c :: s) | auto].
    + destruct (split_lines_head s) as (l0 & ls & post & Hl & Hs).
      rewrite Hl in *. destruct H as [<- | H].
      * exists [], post. simpl. now rewrite Hs at 1.
      * apply Htl. now right.
Qed.

(** The accumulators of the line scan hold URL tokens of the lines. *)
Lemma scan_line_from (P : str -> Prop) st line :
  (forall u, In u (find_urls (strip line)) -> P u) ->
  Forall P (old_urls st) /\ Forall P (new_urls st) ->
  Forall P (old_urls (scan_line st line))
  /\ Forall P (new_urls (scan_line st line)).
Proof.
  intros HP [Ho Hn]. unfold scan_line.
  assert (Hl : Forall P (find_urls (strip line)))
    by (apply Forall_forall; exact HP).
  destruct (negb (nonempty (strip line))); [auto|].
  destruct (is_some (search I old_pattern (strip line))).
  - simpl. split; auto. apply Forall_app; auto.
  - destruct (is_some (search I new_pattern (strip line))).
    + simpl. split; auto. apply Forall_app; auto.
    + destruct (current_type st) as [[|]|]; simpl; split; auto;
        apply Forall_app; auto.
Qed.

Lemma scan_lines_from (P : str -> Prop) lines :
  (forall l u, In l lines -> In u (find_urls (strip l)) -> P u) ->
  Forall P (old_urls (scan_lines lines))
  /\ Forall P (new_urls (scan_lines lines)).
Proof.
  unfold scan_lines.
  assert (H0 : Forall P (old_urls scan_start)
               /\ Forall P (new_urls scan_start)) by (split; constructor).
  revert H0. generalize scan_start.
  induction lines as [|l lines IH]; simpl; intros st H HP; [exact H|].
  apply IH; [|intros; eapply HP; eauto].
  apply scan_line_from; [|exact H]. intros u Hu. eapply HP; eauto.
Qed.

Lemma scan_lines_occur text :
  Forall (fun u => occurs_in u text) (old_urls (scan_lines (split_lines text)))
  /\ Forall (fun u => occurs_in u text)
       (new_urls (scan_lines (split_lines text))).
Proof.
  apply scan_lines_from. intros l u Hl Hu.
  eapply occurs_in_trans; [apply find_urls_occur, Hu|].
  eapply occurs_in_trans; [apply strip_occurs|].
  now apply split_lines_occur.
Qed.

Lemma _parse_labeled_format_occur text ps p :
  _parse_labeled_format text = Ok ps -> In p ps ->
  occurs_in (fst p) text /\ occurs_in (snd p) text.
Proof.
  unfold _parse_labeled_format. intros H Hp.
  destruct (length (find_urls text) <? 2)%nat;
    [apply Ok_inj in H; subst; contradiction|].
  destruct (negb _);
    [apply Ok_inj in H; subst; contradiction|].
  destruct (in_make_pairs _ _ _ H Hp) as [Ho Hn].
  destruct (scan_lines_occur text) as [Fo Fn].
  rewrite Forall_forall in Fo, Fn. auto.
Qed.

Lemma _parse_multi_old_urls_occur text ps p :
  _parse_multi_old_urls text = Ok ps -> In p ps ->
  occurs_in (fst p) text /\ occurs_in (snd p) text.
Proof.
  rewrite _parse_multi_old_urls_eq. intros H Hp. apply Ok_inj in H. subst ps.
  destruct (search I_S old_section_pattern text) as [m|] eqn:Hs;
    [|contradiction].
  destruct (find_urls (get (group1 m) [])) as [|o olds] eqn:Ho;
    [contradiction|].
  destruct (find_urls (m_end m)) as [|n news] eqn:Hn; [contradiction|].
  apply in_map_iff in Hp. destruct Hp as (o' & <- & Hin). simpl. split.
  - destruct (group1 m) as [g|] eqn:Hg; [|discriminate].
    rewrite <- Ho in Hin. simpl in Hin.
    eapply occurs_in_trans; [apply find_urls_occur, Hin|].
    eapply search_group1_occurs; eauto.
  - eapply occurs_in_suffix; [apply find_urls_occur; rewrite Hn; now left|].
    eapply search_end_suffix; eauto.
Qed.

Lemma extract_pairs_occur nr text ps p :
  extract_pairs nr text = Ok ps -> In p ps ->
  occurs_in (fst p) text /\ occurs_in (snd p) text.
Proof.
  destruct (_parse_labeled_format_returns text) as [a Ha].
  pose proof (_parse_multi_old_urls_eq text) as Hb.
  rewrite (extract_pairs_eq nr _ Ha Hb). intros H Hp.
  destruct a as [|x a].
  - match type of Hb with _ = Ok ?l => destruct l as [|y b'] eqn:Eb end.
    + destruct (_parse_sequential_urls_returns nr text) as (c & Hc & Hin).
      rewrite Hc in H. apply Ok_inj in H. subst c.
      destruct (Hin _ Hp). split; now apply find_urls_occur.
    + apply Ok_inj in H. subst ps.
      eapply _parse_multi_old_urls_occur; eauto.
  - apply Ok_inj in H. subst ps. eapply _parse_labeled_format_occur; eauto.
Qed.

(** X1: the parser invents no URL.  In every record, [old_url] and
    [new_url] are contiguous pieces of the message text as
    [_clean_slack_text] leaves it. *)
Theorem parse_message_urls_occur nr chan (m : message) rs r :
  parse_message nr chan m = Ok rs -> In r rs ->
  let text := _clean_slack_text (get (msg_text m) []) in
  occurs_in (old_url r) text /\ occurs_in (new_url r) text.
Proof.
  intros Hm Hr text.
  destruct (parse_message_returns nr chan m)
    as (rs' & ps & reason & Hm' & Hp & _ & Hrs & _).
  rewrite Hm in Hm'. apply Ok_inj in Hm'. subst rs'.
  rewrite Hrs in Hr. apply in_map_iff in Hr. destruct Hr as (p & <- & Hin).
  exact (@extract_pairs_occur _ _ _ _ Hp Hin).
Qed.

Lemma parse_message_urls_occur_witness :
  occurs_in (py "https://x.com/de")
    (py "https://x.com/a https://x.com/de").
Proof.
  pose (r := request_of [] [] (py "unknown") None
               (py "https://x.com/a", py "https://x.com/de")).
  exact (proj2 (parse_message_urls_occur (fun _ => false) []
                  (text_message unlabeled_pair_text) (rs := [r]) r eq_refl
                  (or_introl eq_refl))).
Defined.

(* ================================================================= *)
(** ** The reason, once found *)

Lemma lstrip_head : forall s c s', lstrip s = c :: s' -> isspace c = false.
Proof.
  induction s as [|a s IH]; simpl; intros c s' H; [discriminate|].
  destruct (isspace a) eqn:Ha; [eauto|]. inversion H; subst. exact Ha.
Qed.

Lemma rstrip_last s s' c : rstrip s = s' ++ [c] -> isspace c = false.
Proof.
  unfold rstrip. intros H. apply (f_equal (@rev char)) in H.
  rewrite rev_involutive, rev_app_distr in H. simpl in H.
  eapply lstrip_head; eauto.
Qed.

Lemma strip_trimmed s : trimmed (strip s).
Proof.
  unfold strip. split.
  - intros c s' H. destruct (rstrip_prefix (lstrip s)) as [post Hp].
    rewrite H in Hp. simpl in Hp. eapply lstrip_head; eauto.
  - intros s' c H. eapply rstrip_last; eauto.
Qed.

Lemma occurs_in_In (u s : str) c : occurs_in u s -> In c u -> In c s.
Proof.
  intros (p & q & ->) H. apply in_or_app. right. apply in_or_app. now left.
Qed.

Lemma reason_group_text u :
  group_text I (hd Eps reason_patterns) u -> u <> [] /\ ~ In NL u.
Proof.
  cbn. intros H.
  repeat match goal with
         | H : _ \/ _ |- _ => destruct H as [H|H]
         | H : False |- _ => contradiction
         end.
  destruct H as [rest H]. inversion H as [| | | | | | | | |a u' rest' Hne Hall| |]; subst.
  split; [assumption|].
  intros Hin. rewrite forallb_forall in Hall. apply Hall in Hin. discriminate.
Qed.

(** X2: a reason, when there is one, is a piece of the text without a
    line break in it and without white space at either end. *)
Theorem extract_reason_trimmed text r :
  _extract_reason text = Ok (Some r) ->
  occurs_in r text /\ ~ In NL r /\ trimmed r.
Proof.
  unfold _extract_reason, reason_patterns. cbn [first_reason].
  destruct (search I _ text) as [m|] eqn:Hs; [|discriminate].
  unfold group1_strip. destruct (group1 m) as [g|] eqn:Hg; [|discriminate].
  simpl. intros H. apply Ok_inj in H. inversion H; subst r. clear H.
  destruct (search_group1_occurs _ _ _ Hs Hg) as [Ho Ht].
  apply reason_group_text in Ht. destruct Ht as [_ Hnl].
  split_all.
  - eapply occurs_in_trans; [apply strip_occurs | exact Ho].
  - intros Hin. apply Hnl. eapply occurs_in_In; [apply strip_occurs|exact Hin].
  - apply strip_trimmed.
Qed.

Lemma extract_reason_trimmed_witness :
  occurs_in (py "dead link") (py "Reason:  dead link  ")
  /\ ~ In NL (py "dead link") /\ trimmed (py "dead link").
Proof.
  exact (extract_reason_trimmed (py "Reason:  dead link  ")
           (r := py "dead link") eq_refl).
Defined.

(* ================================================================= *)
(** ** Messages without a URL token, and what every record carries *)

(** X3: a message whose text, once cleaned, holds no URL token yields no
    record. *)
Theorem parse_message_no_token nr chan (m : message) :
  find_urls (_clean_slack_text (get (msg_text m) [])) = [] ->
  parse_message nr chan m = Ok [].
Proof.
  intros H.
  destruct (parse_message_returns nr chan m)
    as (rs & ps & reason & Hm & Hp & _ & Hrs & _).
  rewrite (no_token_no_pair nr _ H) in Hp. apply Ok_inj in Hp. subst ps.
  rewrite Hm, Hrs. reflexivity.
Qed.

Lemma parse_message_no_token_witness :
  parse_message (fun _ => false) []
    (text_message (py "Hello, this is just a regular message without URLs."))
  = Ok [].
Proof.
  exact (parse_message_no_token (fun _ => false) []
           (text_message
              (py "Hello, this is just a regular message without URLs."))
           eq_refl).
Defined.

(** X4: every record of a message carries the message's [ts], its
    [channel] and its [user]; a missing [ts] reads as the empty string, a
    missing [channel] as the configured channel and a missing [user] as
    [unknown]. *)
Theorem parse_message_metadata nr chan (m : message) rs r :
  parse_message nr chan m = Ok rs -> In r rs ->
  message_ts r = get (msg_ts m) []
  /\ channel_id r = get (msg_channel m) chan
  /\ requester r = get (msg_user m) (py "unknown").
Proof.
  intros Hm Hr.
  destruct (parse_message_returns nr chan m)
    as (rs' & ps & reason & Hm' & _ & _ & Hrs & _).
  rewrite Hm in Hm'. apply Ok_inj in Hm'. subst rs'.
  rewrite Hrs in Hr. apply in_map_iff in Hr. destruct Hr as (p & <- & _).
  split_all.
Qed.

Lemma parse_message_metadata_witness :
  exists r, message_ts r = [] /\ channel_id r = py "C1"
            /\ requester r = py "unknown".
Proof.
  pose (r := request_of [] (py "C1") (py "unknown") None
               (py "https://x.com/p", py "https://x.com/p")).
  exists r.
  exact (parse_message_metadata (fun _ => false) (py "C1")
           (text_message same_link_text) (rs := [r]) r eq_refl
           (or_introl eq_refl)).
Defined.

(** X5: the multi-old strategy never raises, and all the pairs it yields
    have one and the same new URL. *)
Theorem multi_old_urls_one_target text :
  exists ps,
    _parse_multi_old_urls text = Ok ps
    /\ forall p q, In p ps -> In q ps -> snd p = snd q.
Proof.
  rewrite _parse_multi_old_urls_eq. eexists. split; [reflexivity|].
  intros p q Hp Hq.
  destruct (search I_S old_section_pattern text) as [m|]; [|contradiction].
  destruct (find_urls (get (group1 m) [])) as [|o olds]; [contradiction|].
  destruct (find_urls (m_end m)) as [|n news]; [contradiction|].
  apply in_map_iff in Hp, Hq.
  destruct Hp as (? & <- & _), Hq as (? & <- & _). reflexivity.
Qed.

(** X6: [_same_domain] does not depend on the order of its arguments. *)
Theorem same_domain_symmetric nr url1 url2 :
  _same_domain nr url1 url2 = _same_domain nr url2 url1.
Proof.
  unfold _same_domain.
  destruct (Urllib.urlparse_netloc nr url1) as [d1|e1],
           (Urllib.urlparse_netloc nr url2) as [d2|e2]; simpl; try reflexivity.
  unfold str_eqb.
  destruct (list_eq_dec N.eq_dec d1 d2), (list_eq_dec N.eq_dec d2 d1);
    congruence.
Qed.

(* ================================================================= *)
(** ** The configuration *)

Lemma nonempty_false {A} (l : list A) : nonempty l = false <-> l = [].
Proof. destruct l; simpl; split; intros; congruence. Qed.

Lemma nonempty_true {A} (l : list A) : nonempty l = true <-> l <> [].
Proof. destruct l; simpl; split; intros; congruence. Qed.

(** X7: [validate] reports a required setting exactly when it is empty,
    and [is_valid] holds exactly when none of the four is. *)
Theorem validate_reports_empty_settings (c : Config.t) :
  (In (py "SLACK_BOT_TOKEN") (Config.validate c)
   <-> Config.SLACK_BOT_TOKEN c = [])
  /\ (In (py "SLACK_CHANNEL_ID") (Config.validate c)
      <-> Config.SLACK_CHANNEL_ID c = [])
  /\ (In (py "GOOGLE_SHEETS_ID") (Config.validate c)
      <-> Config.GOOGLE_SHEETS_ID c = [])
  /\ (In (py "N8N_WEBHOOK_URL") (Config.validate c)
      <-> Config.N8N_WEBHOOK_URL c = [])
  /\ (Config.is_valid c = true
      <-> Config.SLACK_BOT_TOKEN c <> [] /\ Config.SLACK_CHANNEL_ID c <> []
          /\ Config.GOOGLE_SHEETS_ID c <> [] /\ Config.N8N_WEBHOOK_URL c <> []).
Proof.
  destruct c as [a b c d e f]. unfold Config.is_valid, Config.validate.
  cbn [Config.SLACK_BOT_TOKEN Config.SLACK_CHANNEL_ID Config.GOOGLE_SHEETS_ID
       Config.N8N_WEBHOOK_URL].
  destruct a, b, c, e; vm_compute; split_all; intros;
    repeat match goal with
           | H : _ /\ _ |- _ => destruct H
           | H : _ \/ _ |- _ => destruct H
           | H : False |- _ => contradiction
           | H : ?x <> ?x |- _ => contradiction H; reflexivity
           | H : _ = _ |- _ => discriminate H
           | |- _ /\ _ => split
           | |- _ <> _ => discriminate
           end; auto 6; try discriminate.
Qed.

(* ================================================================= *)
(** ** The messages that await processing *)

Lemma search_is_some_findall fl r s :
  is_some (search fl r s) = nonempty (findall fl r s).
Proof.
  destruct (findall fl r s) eqn:Hf.
  - apply findall_nil_iff in Hf. now rewrite Hf.
  - destruct (search fl r s) eqn:Hs; [reflexivity|].
    apply findall_nil_iff in Hs. congruence.
Qed.

Lemma unprocessed_loop_filter cfg : forall messages unprocessed,
  unprocessed_loop cfg messages unprocessed
  = unprocessed ++ filter (awaits_processing cfg) messages.
Proof.
  induction messages as [|m rest IH]; intros acc; simpl.
  - now rewrite app_nil_r.
  - unfold awaits_processing. fold (find_urls (get (msg_text (sm_message m)) [])).
    rewrite search_is_some_findall. fold (find_urls (get (msg_text (sm_message m)) [])).
    destruct (is_str (sm_subtype m) (py "bot_message")); simpl; [apply IH|].
    destruct (nonempty (get (msg_text (sm_message m)) [])); simpl; [|apply IH].
    destruct (has_processed_emoji cfg (get (sm_reactions m) [])); simpl;
      [apply IH|].
    destruct (nonempty (find_urls (get (msg_text (sm_message m)) []))); simpl;
      [|apply IH].
    rewrite IH, <- app_assoc. reflexivity.
Qed.

(** X8: [get_unprocessed_messages] makes one request, for the last 100
    messages of the channel.  From the answer it keeps, in their order,
    exactly the messages that are not bot messages, have a text, do not
    carry the processed emoji and hold at least one URL token; when Slack
    answers with an error it returns the empty list. *)
Theorem get_unprocessed_messages_keeps cfg w channel_id h :
  let c := conversations_history
             (or_else channel_id (Config.SLACK_CHANNEL_ID cfg)) 100 in
  get_unprocessed_messages cfg w channel_id h
  = (match conversations_history_result w (h ++ [c]) with
     | Returns result =>
         Done (filter (awaits_processing cfg) (get result []))
     | Throws _ => Done []
     | Crashes => Abort ServiceError
     end, h ++ [c]).
Proof.
  unfold get_unprocessed_messages, io_bind, request, io_ret. cbv zeta.
  destruct (conversations_history_result w _); try reflexivity.
  now rewrite unprocessed_loop_filter.
Qed.

(* ================================================================= *)
(** ** Rows written to the sheet and rows read from it *)

Lemma pending_loop_app : forall rows1 rows2 i pending,
  pending_loop i (rows1 ++ rows2) pending
  = (p <- pending_loop i rows1 pending ;;
     pending_loop (i + length rows1) rows2 p).
Proof.
  induction rows1 as [|row rows1 IH]; intros rows2 i pending;
    cbn [pending_loop app length bind].
  - now rewrite Nat.add_0_r.
  - replace (i + S (length rows1)) with (S i + length rows1) by lia.
    destruct (6 <=? length row); [|apply IH].
    destruct (getitem row 5) as [status|]; cbn [bind]; [|reflexivity].
    destruct (str_eqb status (py "pending")); [|apply IH].
    destruct (getitem row 0); cbn [bind]; [|reflexivity].
    destruct (getitem row 1); cbn [bind]; [|reflexivity].
    destruct (getitem row 2); cbn [bind]; [|reflexivity].
    destruct (getitem row 3); cbn [bind]; [|reflexivity].
    destruct (getitem row 4); cbn [bind]; [|reflexivity].
    apply IH.
Qed.

Lemma str_eqb_refl s : str_eqb s s = true.
Proof. unfold str_eqb. destruct (list_eq_dec N.eq_dec s s); congruence. Qed.

Lemma str_eqb_true a b : str_eqb a b = true -> a = b.
Proof. unfold str_eqb. destruct (list_eq_dec N.eq_dec a b); congruence. Qed.

Lemma pending_loop_pending c0 c1 c2 c3 c4 rest rows i pending :
  pending_loop i ((c0 :: c1 :: c2 :: c3 :: c4 :: py "pending" :: rest) :: rows)
    pending
  = pending_loop (S i) rows (pending ++ [cells_dict i c0 c1 c2 c3 c4]).
Proof.
  cbn [pending_loop length Nat.leb getitem nth_error bind].
  rewrite str_eqb_refl. reflexivity.
Qed.

Lemma pending_loop_other c0 c1 c2 c3 c4 c5 rest rows i pending :
  str_eqb c5 (py "pending") = false ->
  pending_loop i ((c0 :: c1 :: c2 :: c3 :: c4 :: c5 :: rest) :: rows) pending
  = pending_loop (S i) rows pending.
Proof.
  intros H. cbn [pending_loop length Nat.leb getitem nth_error bind].
  now rewrite H.
Qed.

Lemma pending_loop_row r rows i pending :
  pending_loop i (row_of r :: rows) pending
  = pending_loop (S i) rows (pending ++ [pending_dict i r]).
Proof. apply pending_loop_pending. Qed.

Lemma pending_loop_written : forall rs i pending,
  pending_loop i (map row_of rs) pending
  = Ok (pending
        ++ map (fun ir => pending_dict (fst ir) (snd ir))
             (combine (seq i (length rs)) rs)).
Proof.
  induction rs as [|r rs IH]; intros i pending.
  - simpl. now rewrite app_nil_r.
  - cbn [map length seq combine fst snd]. rewrite pending_loop_row, IH.
    now rewrite <- app_assoc.
Qed.

(** The loop never reads past the end of a row. *)
Lemma pending_loop_reads : forall rows i pending,
  exists ds,
    pending_loop i rows pending = Ok (pending ++ ds)
    /\ forall d,
         In d ds <->
         exists k c0 c1 c2 c3 c4 rest,
           nth_error rows k
           = Some (c0 :: c1 :: c2 :: c3 :: c4 :: py "pending" :: rest)
           /\ d = cells_dict (i + k) c0 c1 c2 c3 c4.
Proof.
  induction rows as [|row rows IH]; intros i pending.
  - exists []. simpl. rewrite app_nil_r. split; [reflexivity|].
    intros d. split; [contradiction|].
    intros (k & c0 & c1 & c2 & c3 & c4 & rest & H & _). destruct k; discriminate.
  - assert (Hskip :
      (forall c0 c1 c2 c3 c4 rest,
         row <> c0 :: c1 :: c2 :: c3 :: c4 :: py "pending" :: rest) ->
      pending_loop i (row :: rows) pending = pending_loop (S i) rows pending ->
      exists ds,
        pending_loop i (row :: rows) pending = Ok (pending ++ ds)
        /\ forall d,
             In d ds <->
             exists k c0 c1 c2 c3 c4 rest,
               nth_error (row :: rows) k
               = Some (c0 :: c1 :: c2 :: c3 :: c4 :: py "pending" :: rest)
               /\ d = cells_dict (i + k) c0 c1 c2 c3 c4).
    { intros Hrow Heq. destruct (IH (S i) pending) as (ds & Hds & Hin).
      exists ds. split; [congruence|]. intros d. rewrite Hin. split.
      - intros (k & c0 & c1 & c2 & c3 & c4 & rest & H & ->).
        exists (S k), c0, c1, c2, c3, c4, rest. split; [exact H|].
        f_equal. lia.
      - intros (k & c0 & c1 & c2 & c3 & c4 & rest & H & ->).
        destruct k as [|k]; [simpl in H; inversion H; subst;
                             exfalso; eapply Hrow; reflexivity|].
        exists k, c0, c1, c2, c3, c4, rest. split; [exact H|].
        f_equal. lia. }
    destruct row as [|c0 [|c1 [|c2 [|c3 [|c4 [|c5 rest]]]]]];
      try (apply Hskip; [intros; discriminate | reflexivity]).
    destruct (str_eqb c5 (py "pending")) eqn:Hc5.
    + apply str_eqb_true in Hc5. subst c5.
      destruct (IH (S i) (pending ++ [cells_dict i c0 c1 c2 c3 c4]))
        as (ds & Hds & Hin).
      exists (cells_dict i c0 c1 c2 c3 c4 :: ds). split.
      * rewrite pending_loop_pending, Hds. now rewrite <- app_assoc.
      * intros d. simpl. rewrite Hin. split.
        -- intros [<- | (k & d0 & d1 & d2 & d3 & d4 & rest' & H & ->)].
           ++ exists 0, c0, c1, c2, c3, c4, rest. split; [reflexivity|].
              f_equal. lia.
           ++ exists (S k), d0, d1, d2, d3, d4, rest'. split; [exact H|].
              f_equal. lia.
        -- intros (k & d0 & d1 & d2 & d3 & d4 & rest' & H & ->).
           destruct k as [|k].
           ++ simpl in H. inversion H; subst. left. f_equal. lia.
           ++ right. exists k, d0, d1, d2, d3, d4, rest'.
              split; [exact H|]. f_equal. lia.
    + apply Hskip.
      * intros d0 d1 d2 d3 d4 rest' H. inversion H; subst.
        rewrite str_eqb_refl in Hc5. discriminate.
      * now apply pending_loop_other.
Qed.

Lemma pending_of_reads (rows : list (list str)) :
  exists ds,
    pending_of rows = Ok ds
    /\ forall d,
         In d ds <->
         exists n c0 c1 c2 c3 c4 rest,
           2 <= n
           /\ nth_error rows (n - 1)
              = Some (c0 :: c1 :: c2 :: c3 :: c4 :: py "pending" :: rest)
           /\ d = cells_dict n c0 c1 c2 c3 c4.
Proof.
  unfold pending_of. destruct (pending_loop_reads (tl rows) 2 [])
    as (ds & Hds & Hin).
  exists ds. split; [exact Hds|]. intros d. rewrite Hin. split.
  - intros (k & c0 & c1 & c2 & c3 & c4 & rest & H & ->).
    exists (2 + k), c0, c1, c2, c3, c4, rest. split_all; [lia|].
    replace (2 + k - 1) with (S k) by lia.
    destruct rows; [destruct k; discriminate | exact H].
  - intros (n & c0 & c1 & c2 & c3 & c4 & rest & Hn & H & ->).
    exists (n - 2), c0, c1, c2, c3, c4, rest. split.
    + replace (n - 1) with (S (n - 2)) in H by lia.
      destruct rows; [discriminate | exact H].
    + f_equal. lia.
Qed.

(** X9: reading the sheet never fails on a short row, and the dicts it
    yields are those of the rows below the header that have six cells or
    more, the sixth being [pending]; [row_index] is the number of the row
    in the sheet, counted from 1. *)
Theorem pending_of_rows (rows : list (list str)) :
  exists ds,
    pending_of rows = Ok ds
    /\ forall d,
         In d ds <->
         exists n c0 c1 c2 c3 c4 rest,
           2 <= n
           /\ nth_error rows (n - 1)
              = Some (c0 :: c1 :: c2 :: c3 :: c4 :: py "pending" :: rest)
           /\ d = cells_dict n c0 c1 c2 c3 c4.
Proof. exact (pending_of_reads rows). Qed.

(** X10: what [write_redirects] appends, [get_pending_redirects] reads
    back.  When the rows of some requests stand below the rows the sheet
    already had, the dicts read are those read before, followed by one
    dict for each request, in order: its URLs, requester and message
    timestamp, its reason (the empty string when there is none), and the
    number of its row. *)
Theorem written_rows_read_back header before (rs : list RedirectRequest) :
  exists ds,
    pending_of (header :: before) = Ok ds
    /\ pending_of (header :: before ++ map row_of rs)
       = Ok (ds ++ map (fun ir => pending_dict (fst ir) (snd ir))
                     (combine (seq (2 + length before) (length rs)) rs)).
Proof.
  unfold pending_of. cbn [tl].
  destruct (pending_loop_reads before 2 []) as (ds & Hds & _).
  exists ds. split; [exact Hds|].
  rewrite pending_loop_app, Hds. simpl bind.
  apply pending_loop_written.
Qed.

(* ================================================================= *)
(** ** Rows read from the sheet, sent to the webhook *)

Lemma sheet_items_pending : forall ds,
  (forall d, In d ds -> exists n c0 c1 c2 c3 c4, d = cells_dict n c0 c1 c2 c3 c4) ->
  exists its,
    Forall2 carries ds its
    /\ forall h, sheet_items ds h = (Done its, h).
Proof.
  induction ds as [|d ds IH]; intros Hd.
  - exists []. split; [constructor | reflexivity].
  - destruct IH as (its & Hc & Hi); [intros; apply Hd; now right|].
    destruct (Hd d (or_introl eq_refl)) as (n & c0 & c1 & c2 & c3 & c4 & ->).
    exists ({| sheet_old_url := VStr c0; sheet_new_url := VStr c1;
               sheet_requester := VStr c2; sheet_reason := VStr c3 |} :: its).
    split.
    + constructor; [|exact Hc]. repeat split.
    + intros h. cbn [sheet_items]. unfold io_bind, item, io_ret in *.
      cbn [cells_dict lookup String.eqb Ascii.eqb Bool.eqb get].
      rewrite Hi. reflexivity.
Qed.

(** X11: the dicts read from the sheet can always be handed to
    [send_batch_for_sheets]: no key is missing, and the payload holds one
    entry for each dict, in order, with the dict's own [old_url],
    [new_url], [requester] and [reason], and their number as [count]. *)
Theorem pending_rows_can_be_sent w self rows ds :
  pending_of rows = Ok ds ->
  exists its,
    Forall2 carries ds its
    /\ forall h,
         send_batch_for_sheets w self ds h
         = if nonempty ds
           then _send_request w self (sheets_payload its (length ds)) h
           else (Done no_redirects, h).
Proof.
  intros Hp. destruct (pending_of_reads rows) as (ds' & Hds & Hin).
  rewrite Hp in Hds. apply Ok_inj in Hds. subst ds'.
  destruct (@sheet_items_pending ds) as (its & Hc & Hi).
  { intros d Hd. apply Hin in Hd.
    destruct Hd as (n & c0 & c1 & c2 & c3 & c4 & rest & _ & _ & ->). eauto 8. }
  exists its. split; [exact Hc|]. intros h.
  unfold send_batch_for_sheets. destruct ds; [reflexivity|].
  cbn [nonempty negb]. unfold io_bind. now rewrite Hi.
Qed.

Lemma pending_rows_can_be_sent_witness :
  exists its,
    Forall2 carries
      [cells_dict 2 (py "https://x.com/a") (py "https://x.com/b") (py "U1")
         [] (py "1.0")] its.
Proof.
  destruct (@pending_rows_can_be_sent sample_world
              (N8NClient_init sample_config None)
              (headers ++ [row_of sample_request])
              [cells_dict 2 (py "https://x.com/a") (py "https://x.com/b")
                 (py "U1") [] (py "1.0")] eq_refl) as (its & Hc & _).
  exists its. exact Hc.
Defined.

(* ================================================================= *)
(** ** The batches of a run *)

Lemma slice_step {A} (l : list A) i size :
  slice l i (i + size) = firstn size (skipn i l).
Proof. unfold slice. now replace (i + size - i) with size by lia. Qed.

Lemma range_from_batches {A} (l : list A) size :
  0 < size ->
  forall fuel i,
    length l - i <= fuel ->
    concat (batches l (range_from fuel i (length l) size) size) = skipn i l.
Proof.
  intros Hs. induction fuel as [|fuel IH]; intros i Hf; simpl.
  - symmetry. apply skipn_all2. lia.
  - destruct (Nat.ltb_spec i (length l)) as [Hi|Hi].
    + unfold batches in *. cbn [map concat]. rewrite IH by lia.
      rewrite slice_step, Nat.add_comm, <- skipn_skipn.
      apply firstn_skipn.
    + symmetry. apply skipn_all2. lia.
Qed.

Lemma range_from_bound size stop : forall fuel start,
  Forall (fun i => i < stop) (range_from fuel start stop size).
Proof.
  induction fuel as [|fuel IH]; intros start; simpl; [constructor|].
  destruct (Nat.ltb_spec start stop); constructor; auto.
Qed.

Lemma slice_length {A} (l : list A) i size :
  i < length l -> 0 < size ->
  1 <= length (slice l i (i + size)) <= size.
Proof.
  intros Hi Hs. rewrite slice_step, length_firstn, length_skipn. lia.
Qed.

Lemma range_ok start stop size :
  0 < size -> range start stop size
              = Ok (range_from (stop - start) start stop size).
Proof. unfold range. destruct size; [lia | reflexivity]. Qed.

Lemma batch_size_positive : 0 < Config.MAX_REDIRECTS_PER_BATCH.
Proof. unfold Config.MAX_REDIRECTS_PER_BATCH. lia. Qed.

Lemma batches_concat {A} (l : list A) :
  exists starts,
    range 0 (length l) Config.MAX_REDIRECTS_PER_BATCH = Ok starts
    /\ concat (batches l starts Config.MAX_REDIRECTS_PER_BATCH) = l
    /\ Forall (fun b => 1 <= length b <= Config.MAX_REDIRECTS_PER_BATCH)
         (batches l starts Config.MAX_REDIRECTS_PER_BATCH).
Proof.
  exists (range_from (length l - 0) 0 (length l)
            Config.MAX_REDIRECTS_PER_BATCH).
  split; [apply range_ok, batch_size_positive|]. split.
  - rewrite range_from_batches by (auto using batch_size_positive; lia).
    reflexivity.
  - unfold batches. apply Forall_map.
    eapply Forall_impl; [|apply range_from_bound].
    intros i Hi. apply slice_length; auto using batch_size_positive.
Qed.

(** X12: the batches of the send loop.  With a batch size that is not
    zero, [range] does not raise, the batches put end to end are the list
    itself, and every batch holds at least one element and at most
    [size]. *)
Theorem batches_partition {A} (l : list A) size :
  0 < size ->
  exists starts,
    range 0 (length l) size = Ok starts
    /\ concat (batches l starts size) = l
    /\ Forall (fun b => 1 <= length b <= size) (batches l starts size).
Proof.
  intros Hs. exists (range_from (length l - 0) 0 (length l) size).
  split; [now apply range_ok|]. split.
  - rewrite range_from_batches by (auto; lia). reflexivity.
  - unfold batches. apply Forall_map.
    eapply Forall_impl; [|apply range_from_bound].
    intros i Hi. now apply slice_length.
Qed.

Lemma batches_partition_witness :
  exists starts,
    range 0 7 Config.MAX_REDIRECTS_PER_BATCH = Ok starts
    /\ concat (batches [1; 2; 3; 4; 5; 6; 7] starts
                 Config.MAX_REDIRECTS_PER_BATCH)
       = [1; 2; 3; 4; 5; 6; 7].
Proof.
  destruct (@batches_partition nat [1; 2; 3; 4; 5; 6; 7]
              Config.MAX_REDIRECTS_PER_BATCH) as (starts & Hr & Hc & _).
  - unfold Config.MAX_REDIRECTS_PER_BATCH. lia.
  - exists starts. split; [exact Hr | exact Hc].
Defined.

(* ================================================================= *)
(** ** The requests of a run, stage by stage *)

Lemma quiet_silent calls :
  Forall (fun c => quiet c = true) calls ->
  appended calls = [] /\ posted calls = [] /\ marked calls = [].
Proof.
  induction 1 as [|c calls Hc _ (Ha & Hp & Hm)]; [now split_all|].
  unfold appended, posted, marked in *. cbn [flat_map].
  rewrite Ha, Hp, Hm. destruct c; try discriminate; now split_all.
Qed.

Ltac only_service_error :=
  let e := fresh "e" in
  let E := fresh "E" in
  intros e E; inversion E; reflexivity.

Section RunFacts.
Variable nr : str -> bool.
Variable cfg : Config.t.
Variable w : World.

Lemma ensure_sheet_exists_trace svc name h :
  exists out calls,
    ensure_sheet_exists w (sheets_handler cfg svc) name h = (out, h ++ calls)
    /\ Forall (fun c => quiet c = true) calls
    /\ (out = Done true -> svc = true)
    /\ (forall e, out = Abort e -> e = ServiceError).
Proof.
  unfold ensure_sheet_exists, sheets_handler, io_bind, request, io_ret.
  cbn [service spreadsheet_id].
  destruct svc; cbn [negb];
    [|exists (Done false), []; rewrite app_nil_r; split_all; auto].
  match goal with
  | |- context [spreadsheets_get_result w ?x] =>
      destruct (spreadsheets_get_result w x) as [sheets| |]
  end;
    try (eexists _, [_]; split_all; auto; only_service_error; fail).
  destruct (negb _);
    [|eexists _, [_]; split_all; auto; fail].
  destruct (spreadsheets_batchUpdate_result w _);
    try (rewrite <- app_assoc; eexists _, [_; _]; split_all; auto;
         only_service_error; fail).
  destruct (values_update_result w _);
    rewrite <- !app_assoc; eexists _, [_; _; _]; split_all; auto;
    only_service_error.
Qed.

Lemma get_unprocessed_messages_trace h :
  let c := conversations_history (Config.SLACK_CHANNEL_ID cfg) 100 in
  exists out,
    get_unprocessed_messages cfg w None h = (out, h ++ [c])
    /\ (forall e, out = Abort e -> e = ServiceError)
    /\ (forall messages, out = Done messages ->
          messages = []
          \/ exists result,
               conversations_history_result w (h ++ [c]) = Returns result
               /\ messages = filter (awaits_processing cfg) (get result [])).
Proof.
  unfold get_unprocessed_messages, io_bind, request, io_ret. cbn [or_else].
  cbv zeta.
  destruct (conversations_history_result w _) as [result|error|]; eexists;
    (split; [reflexivity|]); (split; [only_service_error|]);
    intros messages E; inversion E; subst; auto.
  right. exists result. split; [reflexivity|].
  now rewrite unprocessed_loop_filter.
Qed.

Lemma write_redirects_trace all name h :
  all <> [] ->
  write_redirects w (sheets_handler cfg true) all name h
  = (match values_append_result w
             (h ++ [values_append (Config.GOOGLE_SHEETS_ID cfg)
                      (name ++ py "!A:F") (map row_of all)]) with
     | Returns _ => Done true
     | Throws _ => Done false
     | Crashes => Abort ServiceError
     end,
     h ++ [values_append (Config.GOOGLE_SHEETS_ID cfg)
             (name ++ py "!A:F") (map row_of all)]).
Proof.
  intros Hne. unfold write_redirects, sheets_handler, io_bind, request, io_ret.
  cbn [service spreadsheet_id negb].
  destruct all; [contradiction|]. cbn [nonempty negb].
  destruct (values_append_result w _); reflexivity.
Qed.

Hypothesis webhook : Config.N8N_WEBHOOK_URL cfg <> [].

Lemma send_batch_trace b h :
  b <> [] ->
  exists r,
    send_batch w (n8n_client cfg) b h = (Done r, h ++ [post_of cfg b]).
Proof.
  intros Hb. unfold send_batch, _send_request, n8n_client, N8NClient_init.
  cbn [webhook_url timeout or_else].
  destruct b; [contradiction|]. cbn [nonempty negb].
  destruct (Config.N8N_WEBHOOK_URL cfg) eqn:Hu; [contradiction|].
  cbn [nonempty negb]. unfold post_of. rewrite Hu.
  destruct (requests_post_result w _); eauto.
Qed.

Lemma send_loop_trace all size : forall starts res h,
  Forall (fun b => b <> []) (batches all starts size) ->
  exists res' errs,
    send_loop cfg w starts all size res h
    = (Done res', h ++ map (post_of cfg) (batches all starts size))
    /\ messages_processed res' = messages_processed res
    /\ redirects_found res' = redirects_found res
    /\ redirects_sent_to_n8n res'
       <= redirects_sent_to_n8n res + length (concat (batches all starts size))
    /\ errors res' = errors res ++ errs
    /\ (errs = [] ->
        redirects_sent_to_n8n res'
        = redirects_sent_to_n8n res + length (concat (batches all starts size))).
Proof.
  induction starts as [|i starts IH]; intros res h Hb.
  - exists res, []. simpl. rewrite !app_nil_r, Nat.add_0_r. split_all; auto.
  - unfold batches in *. cbn [map concat] in *. inversion Hb; subst.
    cbn [send_loop]. unfold io_bind.
    destruct (@send_batch_trace (slice all i (i + size)) h) as [r Hr];
      [assumption|].
    rewrite Hr. rewrite length_app.
    destruct (resp_success r).
    + destruct (IH (add_sent res (length (slice all i (i + size))))
                  (h ++ [post_of cfg (slice all i (i + size))]))
        as (res' & errs & Hs & Hm & Hf & Hle & He & Hall); [assumption|].
      exists res', errs. rewrite Hs, <- app_assoc. cbn [add_sent
        messages_processed redirects_found redirects_sent_to_n8n errors] in *.
      split_all; auto; try lia. intros E. specialize (Hall E). lia.
    + match goal with
      | |- context [send_loop _ _ _ _ _ (add_error res ?msg)] =>
          destruct (IH (add_error res msg)
                      (h ++ [post_of cfg (slice all i (i + size))]))
            as (res' & errs & Hs & Hm & Hf & Hle & He & Hall);
            [assumption|]; exists res', (msg :: errs)
      end.
      rewrite Hs, <- app_assoc. cbn [add_error
        messages_processed redirects_found redirects_sent_to_n8n errors] in *.
      split_all; auto; try lia.
      rewrite He, <- app_assoc. reflexivity.
Qed.

Lemma mark_loop_trace : forall timestamps res h,
  exists out k,
    mark_loop cfg w timestamps res h
    = (out, h ++ map (mark_of cfg) (firstn k timestamps))
    /\ (forall e, out = Abort e -> e = ServiceError)
    /\ forall res', out = Done res' ->
         k = length timestamps
         /\ redirects_found res' = redirects_found res
         /\ redirects_sent_to_n8n res' = redirects_sent_to_n8n res
         /\ exists errs, errors res' = errors res ++ errs.
Proof.
  induction timestamps as [|ts rest IH]; intros res h.
  - exists (Done res), 0. simpl. rewrite app_nil_r. split; [reflexivity|].
    split; [discriminate|].
    intros res' E. inversion E; subst. split_all. exists []. now rewrite app_nil_r.
  - cbn [mark_loop]. unfold mark_as_processed, request, io_ret, io_bind.
    cbn [or_else]. cbv beta zeta. fold (mark_of cfg ts).
    match goal with
    | |- context [reactions_add_result w ?x] =>
        destruct (reactions_add_result w x) as [[]|error|]
    end.
    + destruct (IH res (h ++ [mark_of cfg ts])) as (out & k & Hm & Hab & Hd).
      exists out, (S k). rewrite Hm, <- app_assoc. split; [reflexivity|].
      split; [exact Hab|].
      intros res' E. destruct (Hd _ E) as (-> & Hf & Hs & He). split_all; auto.
    + assert (Hfail : forall msg,
                exists out k,
                  mark_loop cfg w rest (add_error res msg) (h ++ [mark_of cfg ts])
                  = (out, h ++ map (mark_of cfg) (firstn k (ts :: rest)))
                  /\ (forall e, out = Abort e -> e = ServiceError)
                  /\ forall res', out = Done res' ->
                       k = length (ts :: rest)
                       /\ redirects_found res' = redirects_found res
                       /\ redirects_sent_to_n8n res' = redirects_sent_to_n8n res
                       /\ exists errs, errors res' = errors res ++ errs).
      { intros msg.
        destruct (IH (add_error res msg) (h ++ [mark_of cfg ts]))
          as (out & k & Hm & Hab & Hd).
        exists out, (S k). rewrite Hm, <- app_assoc. split; [reflexivity|].
        split; [exact Hab|].
        intros res' E. destruct (Hd _ E) as (-> & Hf & Hs & errs & He).
        split_all; auto. exists (msg :: errs). rewrite He. cbn [add_error errors].
        now rewrite <- app_assoc. }
      destruct (str_eqb error (py "already_reacted")); [|apply Hfail].
      destruct (IH res (h ++ [mark_of cfg ts])) as (out & k & Hm & Hab & Hd).
      exists out, (S k). rewrite Hm, <- app_assoc. split; [reflexivity|].
      split; [exact Hab|].
      intros res' E. destruct (Hd _ E) as (-> & Hf & Hs & He). split_all; auto.
    + exists (Abort ServiceError), 1. cbn [firstn map].
      split; [reflexivity|]. split; [|discriminate].
      only_service_error.
Qed.

Lemma str_eqb_sym a b : str_eqb a b = str_eqb b a.
Proof.
  unfold str_eqb.
  destruct (list_eq_dec N.eq_dec a b), (list_eq_dec N.eq_dec b a); congruence.
Qed.

Lemma keys_dict_set {V} (k : str) (v : V) : forall d,
  keys (dict_set d k v)
  = if existsb (str_eqb k) (keys d) then keys d else keys d ++ [k].
Proof.
  induction d as [|[k' v'] d IH]; [reflexivity|].
  cbn [dict_set keys map fst existsb]. rewrite (str_eqb_sym k k').
  destruct (str_eqb k' k); [reflexivity|]. cbn [orb map fst].
  fold (keys (dict_set d k v)). rewrite IH. fold (keys d).
  destruct (existsb (str_eqb k) (keys d)); reflexivity.
Qed.

Lemma distinct_app l l' :
  distinct (l ++ l')
  = fold_left (fun seen k => if existsb (str_eqb k) seen then seen
                             else seen ++ [k]) l' (distinct l).
Proof. unfold distinct. apply fold_left_app. Qed.

Lemma fold_seen (k : str) (seen : list str) : forall l,
  (forall x, In x l -> x = k) ->
  existsb (str_eqb k) seen = true ->
  fold_left (fun seen k => if existsb (str_eqb k) seen then seen
                           else seen ++ [k]) l seen = seen.
Proof.
  induction l as [|x l IH]; intros Hl Hk; [reflexivity|].
  cbn [fold_left]. rewrite (Hl x (or_introl eq_refl)), Hk.
  apply IH; [intros; apply Hl; now right | exact Hk].
Qed.

Lemma distinct_block (k : str) l block :
  block <> [] -> (forall x, In x block -> x = k) ->
  distinct (l ++ block)
  = if existsb (str_eqb k) (distinct l) then distinct l
    else distinct l ++ [k].
Proof.
  intros Hne Hk. rewrite distinct_app.
  destruct block as [|x block]; [contradiction|].
  cbn [fold_left]. rewrite (Hk x (or_introl eq_refl)).
  destruct (existsb (str_eqb k) (distinct l)) eqn:He.
  - apply fold_seen with (k := k); [intros; apply Hk; now right | exact He].
  - apply fold_seen with (k := k); [intros; apply Hk; now right|].
    rewrite existsb_app. cbn [existsb]. rewrite str_eqb_refl.
    now rewrite orb_true_r.
Qed.

Lemma parse_loop_keys : forall messages all d,
  keys d = distinct (map message_ts all) ->
  exists rss d',
    parse_loop nr cfg messages all d = Ok (all ++ concat rss, d')
    /\ Forall2 (fun m rs =>
                  parse_message nr (Config.SLACK_CHANNEL_ID cfg)
                    (sm_message m) = Ok rs) messages rss
    /\ keys d' = distinct (map message_ts (all ++ concat rss)).
Proof.
  induction messages as [|m messages IH]; intros all d Hd.
  - exists [], d. cbn [concat]. rewrite app_nil_r. split_all; auto.
  - cbn [parse_loop].
    destruct (parse_message_returns nr (Config.SLACK_CHANNEL_ID cfg)
                (sm_message m)) as (rs & ps & reason & Hm & _ & _ & Hrs & _).
    rewrite Hm. cbn [bind]. destruct (nonempty rs) eqn:Hne.
    + destruct (IH (all ++ rs)
                  (dict_set d (get (msg_ts (sm_message m)) []) rs))
        as (rss & d' & Hp & Hf & Hk).
      * rewrite keys_dict_set, map_app, Hd.
        symmetry. apply distinct_block.
        -- apply nonempty_true in Hne. destruct rs; [contradiction|discriminate].
        -- intros x Hx. apply in_map_iff in Hx. destruct Hx as (r & <- & Hr).
           rewrite Hrs in Hr. apply in_map_iff in Hr.
           destruct Hr as (p & <- & _). reflexivity.
      * exists (rs :: rss), d'. cbn [concat]. rewrite app_assoc.
        split_all; auto.
    + destruct (IH all d Hd) as (rss & d' & Hp & Hf & Hk).
      apply nonempty_false in Hne. exists (rs :: rss), d'.
      rewrite Hne in *. cbn [concat app]. split_all; auto.
Qed.

End RunFacts.

Lemma validate_nil cfg :
  Config.validate cfg = [] -> Config.N8N_WEBHOOK_URL cfg <> [].
Proof.
  destruct cfg as [a b c d e f]. unfold Config.validate, Config.check.
  cbn [Config.SLACK_BOT_TOKEN Config.SLACK_CHANNEL_ID Config.GOOGLE_SHEETS_ID
       Config.N8N_WEBHOOK_URL].
  destruct a, b, c, e; cbn [nonempty negb app]; intros H;
    solve [discriminate H | intros E; discriminate E].
Qed.

(** The requests of a run.  Up to the append to the sheet they write no
    row, post nothing and mark nothing; when the append returns, the
    batches are posted and then the messages marked. *)
Lemma run_shape nr cfg w svc h :
  exists out calls,
    run nr cfg w svc h = (out, h ++ calls)
    /\ (forall e, out = Abort e -> e = ServiceError)
    /\ ((Forall (fun c => quiet c = true) calls
         /\ forall res, out = Done res ->
              redirects_sent_to_n8n res = 0 /\ redirects_found res = 0)
        \/ exists before all,
             all <> [] /\ Forall (fun c => quiet c = true) before
             /\ (exists c1 result,
                   before
                   = c1 ++ [conversations_history
                              (Config.SLACK_CHANNEL_ID cfg) 100]
                   /\ conversations_history_result w (h ++ before)
                      = Returns result
                   /\ parsed_from nr cfg
                        (filter (awaits_processing cfg) (get result [])) all)
             /\ ((calls = before ++ [append_of cfg all]
                  /\ values_append_result w
                       (h ++ before ++ [append_of cfg all]) <> Returns tt
                  /\ forall res, out = Done res ->
                       redirects_sent_to_n8n res = 0 /\ errors res <> [])
                 \/ (values_append_result w
                       (h ++ before ++ [append_of cfg all]) = Returns tt
                     /\ exists starts k,
                          range 0 (length all) Config.MAX_REDIRECTS_PER_BATCH
                          = Ok starts
                          /\ calls
                             = before ++ append_of cfg all
                               :: map (post_of cfg)
                                    (batches all starts
                                       Config.MAX_REDIRECTS_PER_BATCH)
                               ++ map (mark_of cfg)
                                    (firstn k (distinct (map message_ts all)))
                          /\ forall res, out = Done res ->
                               k = length (distinct (map message_ts all))
                               /\ redirects_found res = length all
                               /\ redirects_sent_to_n8n res <= length all
                               /\ (errors res = [] ->
                                   redirects_sent_to_n8n res = length all)))).
Proof.
  unfold run. cbv zeta.
  destruct (Config.validate cfg) as [|x missing] eqn:Hv; cbn [nonempty].
  2:{ exists (Done (add_error
                     {| messages_processed := 0; redirects_found := 0;
                        redirects_sent_to_n8n := 0; errors := [] |}
                     (py "Missing configuration: "
                      ++ join (py ", ") (x :: missing)))), [].
      rewrite app_nil_r. split; [reflexivity|]. split; [discriminate|].
      left. split; [constructor|].
      intros res E. inversion E; subst. now split. }
  pose proof (validate_nil _ Hv) as Hurl.
  unfold io_bind at 1.
  destruct (ensure_sheet_exists_trace cfg w svc (py "Redirects") h)
    as (o1 & c1 & He & Hq1 & Hsvc & Hab1).
  rewrite He.
  destruct o1 as [[|]|e].
  2:{ exists (Done (add_error
                     {| messages_processed := 0; redirects_found := 0;
                        redirects_sent_to_n8n := 0; errors := [] |}
                     (py "Failed to ensure sheet exists"))), c1.
      cbn [negb]. split; [reflexivity|]. split; [discriminate|].
      left. split; [exact Hq1|].
      intros res E. inversion E; subst. now split. }
  2:{ exists (Abort e), c1. split; [reflexivity|].
      split; [intros e0 E; inversion E; subst; now apply Hab1|].
      left. split; [exact Hq1|]. discriminate. }
  cbn [negb]. rewrite (Hsvc eq_refl) in *. clear Hsvc Hab1.
  unfold io_bind at 1.
  destruct (get_unprocessed_messages_trace cfg w (h ++ c1))
    as (o2 & Hg & Hab2 & Hmsgs).
  rewrite Hg. set (hist := conversations_history _ _) in *.
  assert (Hq2 : Forall (fun c => quiet c = true) (c1 ++ [hist])).
  { apply Forall_app. split; [exact Hq1|]. now constructor. }
  destruct o2 as [messages|e].
  2:{ exists (Abort e), (c1 ++ [hist]). rewrite app_assoc.
      split; [reflexivity|].
      split; [intros e0 E; inversion E; subst; now apply Hab2|].
      left. split; [exact Hq2 | discriminate]. }
  clear Hab2.
  destruct (Hmsgs _ eq_refl) as [-> | (result & Hres & Hfil)].
  { eexists _, (c1 ++ [hist]). rewrite app_assoc.
    split; [reflexivity|]. split; [discriminate|].
    left. split; [exact Hq2|].
    intros res E. inversion E; subst. now split. }
  clear Hmsgs.
  destruct (nonempty messages) eqn:Hm; cbn [negb].
  2:{ eexists _, (c1 ++ [hist]). rewrite app_assoc.
      split; [reflexivity|]. split; [discriminate|].
      left. split; [exact Hq2|].
      intros res E. inversion E; subst. now split. }
  unfold io_bind at 1. unfold lift at 1.
  destruct (parse_loop_keys nr cfg messages [] [])
    as (rss & d & Hp & Hpf & Hk); [reflexivity|].
  cbn [app] in Hp, Hk. remember (concat rss) as all eqn:Eall.
  assert (Hfetch : exists c1' result',
            c1 ++ [hist] = c1' ++ [hist]
            /\ conversations_history_result w (h ++ c1 ++ [hist])
               = Returns result'
            /\ parsed_from nr cfg
                 (filter (awaits_processing cfg) (get result' [])) all).
  { exists c1, result. split; [reflexivity|].
    split; [rewrite app_assoc; exact Hres|].
    exists rss. rewrite <- Hfil. now split. }
  clear Eall Hpf.
  rewrite Hp. cbn [fst snd].
  destruct (nonempty all) eqn:Hall; cbn [negb].
  2:{ eexists _, (c1 ++ [hist]). rewrite app_assoc.
      split; [reflexivity|]. split; [discriminate|].
      left. split; [exact Hq2|].
      apply nonempty_false in Hall. subst all.
      intros res E. inversion E; subst. now split. }
  apply nonempty_true in Hall.
  unfold io_bind at 1.
  rewrite (write_redirects_trace cfg w (py "Redirects") ((h ++ c1) ++ [hist])
             Hall).
  fold (append_of cfg all).
  assert (Hh : (h ++ c1) ++ [hist] = h ++ (c1 ++ [hist]))
    by now rewrite app_assoc.
  rewrite !Hh.
  assert (Hh' : (h ++ (c1 ++ [hist])) ++ [append_of cfg all]
                = h ++ (c1 ++ [hist]) ++ [append_of cfg all])
    by now rewrite <- !app_assoc.
  rewrite !Hh'.
  destruct (values_append_result w
              (h ++ (c1 ++ [hist]) ++ [append_of cfg all]))
    as [[]|[]|] eqn:Hw.
  - (* the append returned *)
    cbn [negb]. unfold io_bind at 1. unfold lift at 1.
    rewrite (@range_ok 0 (length all) _ batch_size_positive).
    set (starts := range_from _ _ _ _).
    unfold io_bind at 1.
    assert (Hb : Forall (fun b : list RedirectRequest => b <> [])
                   (batches all starts Config.MAX_REDIRECTS_PER_BATCH)).
    { unfold batches. apply Forall_map.
      eapply Forall_impl; [|apply range_from_bound].
      intros i Hi. cbv beta.
      pose proof (@slice_length _ all i _ Hi batch_size_positive) as Hl.
      intros E. rewrite E in Hl. simpl in Hl. lia. }
    match goal with
    | |- context [send_loop cfg w starts all ?size ?res ?h0] =>
        destruct (@send_loop_trace cfg w Hurl all size starts res h0 Hb)
          as (res1 & errs & Hs & _ & Hf & Hle & Her & Hfull)
    end.
    rewrite Hs.
    match goal with
    | |- context [mark_loop cfg w ?ts res1 ?h0] =>
        destruct (mark_loop_trace cfg w ts res1 h0)
          as (out & k & Hmk & Hab & Hd)
    end.
    rewrite Hmk, Hk.
    exists out, ((c1 ++ [hist]) ++ append_of cfg all
                 :: map (post_of cfg)
                      (batches all starts Config.MAX_REDIRECTS_PER_BATCH)
                 ++ map (mark_of cfg)
                      (firstn k (distinct (map message_ts all)))).
    split; [f_equal; rewrite <- !app_assoc; reflexivity|].
    split; [exact Hab|].
    right. exists (c1 ++ [hist]), all. split_all; auto. right.
    split; [rewrite <- app_assoc in Hw; rewrite <- app_assoc; exact Hw|].
    exists starts, k.
    split; [now apply range_ok, batch_size_positive|].
    split; [reflexivity|].
    intros res E. destruct (Hd _ E) as (Hk1 & Hf1 & Hs1 & errs' & He').
    pose proof (@range_from_batches _ all _ batch_size_positive
                  (length all - 0) 0 (Nat.le_refl _)) as Hc.
    fold starts in Hc. rewrite Hc in Hle, Hfull.
    cbn [set_counts redirects_found redirects_sent_to_n8n errors skipn app]
      in *.
    rewrite Hk in Hk1. split; [exact Hk1|].
    split; [congruence|]. split; [lia|].
    intros Ee. rewrite Her, Ee in He'.
    assert (errs = []) as E0
      by (destruct errs; [reflexivity | discriminate He']).
    rewrite Hs1. now apply Hfull.
  - (* HttpError *)
    cbn [negb]. eexists _, ((c1 ++ [hist]) ++ [append_of cfg all]).
    split; [reflexivity|]. split; [discriminate|].
    right. exists (c1 ++ [hist]), all.
    split_all; auto. left. split_all; auto.
    + rewrite <- app_assoc in Hw. rewrite <- app_assoc, Hw. discriminate.
    + intros res E. inversion E; subst. split; [reflexivity | discriminate].
  - eexists _, ((c1 ++ [hist]) ++ [append_of cfg all]).
    split; [reflexivity|]. split; [only_service_error|].
    right. exists (c1 ++ [hist]), all.
    split_all; auto. left. split_all; auto.
    + rewrite <- app_assoc in Hw. rewrite <- app_assoc, Hw. discriminate.
Qed.

Lemma appended_app a b : appended (a ++ b) = appended a ++ appended b.
Proof. apply flat_map_app. Qed.

Lemma posted_app a b : posted (a ++ b) = posted a ++ posted b.
Proof. apply flat_map_app. Qed.

Lemma marked_app a b : marked (a ++ b) = marked a ++ marked b.
Proof. apply flat_map_app. Qed.

Lemma posts_silent cfg bs :
  appended (map (post_of cfg) bs) = []
  /\ marked (map (post_of cfg) bs) = []
  /\ posted (map (post_of cfg) bs) = map item_of (concat bs)
  /\ Forall (fun c => is_append c = false) (map (post_of cfg) bs).
Proof.
  induction bs as [|b bs (Ha & Hm & Hp & Hf)]; [now split_all|].
  unfold appended, marked, posted in *. cbn [map flat_map concat post_of].
  rewrite Ha, Hm, Hp, map_app. split_all. now constructor.
Qed.

Lemma marks_silent cfg tss :
  appended (map (mark_of cfg) tss) = []
  /\ posted (map (mark_of cfg) tss) = []
  /\ marked (map (mark_of cfg) tss) = tss
  /\ Forall (fun c => is_append c = false) (map (mark_of cfg) tss).
Proof.
  induction tss as [|ts tss (Ha & Hp & Hm & Hf)]; [now split_all|].
  unfold appended, marked, posted in *. cbn [map flat_map mark_of app].
  rewrite Ha, Hp, Hm. split_all. now constructor.
Qed.

(** Where the one append of a sequence of requests stands. *)
Lemma append_unique x c : forall before l1 l2 rest,
  Forall (fun c => quiet c = true) before ->
  Forall (fun c => is_append c = false) rest ->
  is_append x = true ->
  l1 ++ x :: l2 = before ++ c :: rest ->
  l1 = before /\ x = c /\ l2 = rest.
Proof.
  induction before as [|b before IH]; intros l1 l2 rest Hq Hr Hx E.
  - destruct l1 as [|a l1]; cbn [app] in E; inversion E; subst; [now split_all|].
    exfalso. rewrite Forall_forall in Hr.
    assert (Hin : In x (l1 ++ x :: l2)) by (apply in_or_app; right; now left).
    apply Hr in Hin. congruence.
  - inversion Hq; subst. destruct l1 as [|a l1]; cbn [app] in E;
      inversion E; subst.
    + destruct b; discriminate.
    + destruct (IH l1 l2 rest) as (-> & -> & ->); auto.
Qed.

Lemma quiet_no_append before x after :
  Forall (fun c => quiet c = true) (before ++ x :: after) ->
  is_append x = true -> False.
Proof.
  intros H Hx. apply Forall_app in H. destruct H as [_ H].
  inversion H; subst. destruct x; discriminate.
Qed.

Lemma message_ts_cells all :
  map message_ts_cell (map row_of all) = map message_ts all.
Proof. rewrite map_map. reflexivity. Qed.

(** X13: a run writes before it sends and marks.  Unless the append to
    the sheet has returned, nothing is posted to the webhook and no
    message is marked; the requests made before the append post nothing
    and mark nothing. *)
Theorem run_writes_first nr cfg w svc h :
  exists calls,
    snd (run nr cfg w svc h) = h ++ calls
    /\ ((posted calls = [] /\ marked calls = [])
        \/ exists before rows after,
             append_returned w h before rows after calls
             /\ rows <> [] /\ posted before = [] /\ marked before = []).
Proof.
  destruct (run_shape nr cfg w svc h) as (out & calls & Hrun & _ & Hcase).
  exists calls. rewrite Hrun. split; [reflexivity|].
  destruct Hcase as [[Hq _] | (before & all & Hall & Hq & _ & Hcase)].
  - left. apply quiet_silent in Hq. tauto.
  - pose proof (quiet_silent Hq) as (_ & Hp & Hm).
    destruct Hcase as [(-> & _) | (Hw & starts & k & _ & -> & _)].
    + left. rewrite posted_app, marked_app, Hp, Hm. now split.
    + right. eexists before, (map row_of all), _.
      split; [eexists _, _; split; [reflexivity | exact Hw]|].
      split_all; auto. destruct all; [contradiction | discriminate].
Qed.

(** X14: a run sends what it wrote.  When the append to the sheet has
    returned, the rows appended are those of the requests found, and the
    requests posted to the webhook, batch after batch, are the same
    requests in the same order; every post carries at least one request
    and at most five, and their number as [count]. *)
Theorem run_sends_what_it_wrote nr cfg w svc h out calls before rows after :
  run nr cfg w svc h = (out, h ++ calls) ->
  append_returned w h before rows after calls ->
  exists all,
    rows = map row_of all
    /\ appended calls = rows
    /\ posted calls = map item_of all
    /\ Forall batch_post_ok calls.
Proof.
  intros Hrun (sid & rng & Hc & Hret).
  destruct (run_shape nr cfg w svc h) as (out' & calls' & Hrun' & _ & Hcase).
  rewrite Hrun in Hrun'. inversion Hrun' as [[Ho Hcalls]].
  apply app_inv_head in Hcalls. subst out' calls'.
  destruct Hcase as [[Hq _] | (before' & all & Hall & Hq & Hfetch & Hcase)].
  { exfalso. rewrite Hc in Hq. eapply quiet_no_append; eauto. }
  pose proof (quiet_silent Hq) as (Ha & Hp & Hm).
  destruct Hcase as [(Hc' & Hw & _) | (Hw & starts & k & Hr & Hc' & _)].
  - exfalso. rewrite Hc in Hc'.
    apply append_unique in Hc'; auto. destruct Hc' as (-> & Hx & _).
    rewrite Hx in Hret. contradiction.
  - rewrite Hc in Hc'.
    destruct (posts_silent cfg (batches all starts
                                  Config.MAX_REDIRECTS_PER_BATCH))
      as (Hpa & Hpm & Hpp & Hpf).
    destruct (marks_silent cfg (firstn k (distinct (map message_ts all))))
      as (Hma & Hmp & Hmm & Hmf).
    apply append_unique in Hc'; auto; [|apply Forall_app; now split].
    destruct Hc' as (-> & Hx & ->). unfold append_of in Hx.
    inversion Hx; subst sid rng rows. clear Hx.
    destruct (@batches_concat _ all) as (starts' & Hr' & Hcat & Hsz).
    rewrite Hr in Hr'. apply Ok_inj in Hr'. subst starts'.
    exists all. split; [reflexivity|]. rewrite Hc.
    rewrite appended_app, posted_app. cbn [appended posted flat_map].
    fold (appended (map (post_of cfg)
                      (batches all starts Config.MAX_REDIRECTS_PER_BATCH)
                    ++ map (mark_of cfg)
                         (firstn k (distinct (map message_ts all))))).
    fold (posted (map (post_of cfg)
                    (batches all starts Config.MAX_REDIRECTS_PER_BATCH)
                  ++ map (mark_of cfg)
                       (firstn k (distinct (map message_ts all))))).
    rewrite appended_app, posted_app, Ha, Hp, Hpa, Hma, Hpp, Hmp, Hcat.
    rewrite !app_nil_r. split_all.
    apply Forall_app. split.
    + eapply Forall_impl; [|exact Hq]. intros c Hqc.
      destruct c; try discriminate; exact Logic.I.
    + constructor; [exact Logic.I|]. apply Forall_app. split.
      * apply Forall_map. eapply Forall_impl; [|exact Hsz].
        intros b Hb. cbn [post_of batch_post_ok]. now rewrite length_map.
      * apply Forall_map, Forall_forall. intros; exact Logic.I.
Qed.

Lemma run_sends_what_it_wrote_witness :
  exists all,
    appended sample_calls = map row_of all
    /\ posted sample_calls = map item_of all.
Proof.
  destruct (@run_sends_what_it_wrote (fun _ => false) sample_config
              sample_world true [] (Done sample_results) sample_calls
              sample_before (map row_of [sample_request]) sample_after)
    as (all & Hr & Ha & Hp & _).
  - vm_compute. reflexivity.
  - exists (py "sheet-1"), (py "Redirects!A:F"). split; reflexivity.
  - exists all. split; [rewrite Ha; exact Hr | exact Hp].
Defined.

(** X15: a run marks the messages whose requests it wrote, whatever the
    webhook answered.  When the append to the sheet has returned and the
    run comes to its end, the messages marked are those named in the
    column [Message TS] of the appended rows, each once, in the order of
    their first row; a run that is cut short has marked the first of
    them. *)
Theorem run_marks_written_messages nr cfg w svc h out calls before rows after :
  run nr cfg w svc h = (out, h ++ calls) ->
  append_returned w h before rows after calls ->
  exists rest,
    distinct (map message_ts_cell rows) = marked calls ++ rest
    /\ (forall res, out = Done res -> rest = []).
Proof.
  intros Hrun (sid & rng & Hc & Hret).
  destruct (run_shape nr cfg w svc h) as (out' & calls' & Hrun' & _ & Hcase).
  rewrite Hrun in Hrun'. inversion Hrun' as [[Ho Hcalls]].
  apply app_inv_head in Hcalls. subst out' calls'.
  destruct Hcase as [[Hq _] | (before' & all & Hall & Hq & Hfetch & Hcase)].
  { exfalso. rewrite Hc in Hq. eapply quiet_no_append; eauto. }
  pose proof (quiet_silent Hq) as (Ha & Hp & Hm).
  destruct Hcase as [(Hc' & Hw & _) | (Hw & starts & k & Hr & Hc' & Hdone)].
  - exfalso. rewrite Hc in Hc'.
    apply append_unique in Hc'; auto. destruct Hc' as (-> & Hx & _).
    rewrite Hx in Hret. contradiction.
  - rewrite Hc in Hc'.
    destruct (posts_silent cfg (batches all starts
                                  Config.MAX_REDIRECTS_PER_BATCH))
      as (Hpa & Hpm & Hpp & Hpf).
    destruct (marks_silent cfg (firstn k (distinct (map message_ts all))))
      as (Hma & Hmp & Hmm & Hmf).
    apply append_unique in Hc'; auto; [|apply Forall_app; now split].
    destruct Hc' as (-> & Hx & ->). unfold append_of in Hx.
    inversion Hx; subst sid rng rows. clear Hx.
    exists (skipn k (distinct (map message_ts all))).
    rewrite message_ts_cells, Hc, marked_app. cbn [marked flat_map].
    fold (marked (map (post_of cfg)
                    (batches all starts Config.MAX_REDIRECTS_PER_BATCH)
                  ++ map (mark_of cfg)
                       (firstn k (distinct (map message_ts all))))).
    rewrite marked_app, Hm, Hpm, Hmm. cbn [app].
    split; [now rewrite firstn_skipn|].
    intros res E. destruct (Hdone _ E) as (-> & _). apply skipn_all.
Qed.

Lemma run_marks_written_messages_witness :
  marked sample_calls = [py "1.0"].
Proof.
  destruct (@run_marks_written_messages (fun _ => false) sample_config
              sample_world true [] (Done sample_results) sample_calls
              sample_before (map row_of [sample_request]) sample_after)
    as (rest & Hd & Hr).
  - vm_compute. reflexivity.
  - exists (py "sheet-1"), (py "Redirects!A:F"). split; reflexivity.
  - rewrite (Hr _ eq_refl), app_nil_r in Hd. symmetry. exact Hd.
Defined.

Lemma run_counts_of_shape nr cfg w svc h res h' :
  run nr cfg w svc h = (Done res, h') ->
  redirects_sent_to_n8n res <= redirects_found res
  /\ (errors res = [] -> redirects_sent_to_n8n res = redirects_found res).
Proof.
  intros Hrun.
  destruct (run_shape nr cfg w svc h) as (out & calls & Hrun' & _ & Hcase).
  rewrite Hrun in Hrun'. inversion Hrun' as [[Ho Hcalls]]. clear Hrun'.
  subst out.
  destruct Hcase as [[_ Hd] | (before & all & _ & _ & _ & Hcase)].
  - destruct (Hd _ eq_refl) as [-> ->]. split; [lia | reflexivity].
  - destruct Hcase as [(_ & _ & Hd) | (_ & starts & k & _ & _ & Hd)].
    + destruct (Hd _ eq_refl) as [-> He]. split; [lia|]. intros E.
      contradiction.
    + destruct (Hd _ eq_refl) as (_ & -> & Hle & Hall). split; assumption.
Qed.

(** X16: the counters of a run.  A run never reports more requests sent
    to the webhook than found, and a run that reports no error has sent
    every request it found. *)
Theorem run_counts nr cfg w svc h res h' :
  run nr cfg w svc h = (Done res, h') ->
  redirects_sent_to_n8n res <= redirects_found res
  /\ (errors res = [] -> redirects_sent_to_n8n res = redirects_found res).
Proof. apply run_counts_of_shape. Qed.

Lemma run_counts_witness :
  redirects_sent_to_n8n sample_results <= redirects_found sample_results.
Proof.
  exact (proj1 (@run_counts (fun _ => false) sample_config sample_world true
                  [] sample_results sample_calls eq_refl)).
Defined.

(** X17: the answer of the cloud function.  The handler always answers,
    with 500 when the run was cut short by an exception, with 207 when
    the run reports an error, and with 200 otherwise; after a 200 every
    request found has been sent to the webhook. *)
Theorem cloud_function_handler_answers nr cfg w svc h :
  exists status code,
    cloud_function_handler nr cfg w svc h
    = (Done (status, code), snd (run nr cfg w svc h))
    /\ match fst (run nr cfg w svc h) with
       | Done res =>
           (errors res = [] -> code = 200
                               /\ redirects_sent_to_n8n res
                                  = redirects_found res)
           /\ (errors res <> [] -> code = 207)
       | Abort _ => code = 500
       end.
Proof.
  unfold cloud_function_handler.
  destruct (run nr cfg w svc h) as [[res|e] h'] eqn:Hrun; cbn [fst snd].
  - destruct (errors res) as [|x errs] eqn:He; cbn [nonempty].
    + eexists _, _. split; [reflexivity|]. split; [|intros C; contradiction].
      intros _. split; [reflexivity|].
      destruct (@run_counts_of_shape _ _ _ _ _ _ _ Hrun) as [_ Hs]. now apply Hs.
    + eexists _, _. split; [reflexivity|]. split; [discriminate|reflexivity].
  - eexists _, _. split; reflexivity.
Qed.

(** X18: a run raises nothing of its own.  The only exception that can
    cut a run short is one raised by Slack or by Google Sheets that the
    program does not catch; parsing, batching and the webhook never do. *)
Theorem run_raises_nothing_of_its_own nr cfg w svc h e h' :
  run nr cfg w svc h = (Abort e, h') -> e = ServiceError.
Proof.
  intros Hrun.
  destruct (run_shape nr cfg w svc h) as (out & calls & Hrun' & Hab & _).
  rewrite Hrun in Hrun'. inversion Hrun' as [[Ho Hcalls]]. subst out.
  now apply Hab.
Qed.

Lemma run_raises_nothing_of_its_own_witness :
  exists e h',
    run (fun _ => false) sample_config (broken_slack sample_world) true []
    = (Abort e, h')
    /\ e = ServiceError.
Proof.
  assert (H : run (fun _ => false) sample_config (broken_slack sample_world)
                true []
              = (Abort ServiceError, sample_before))
    by (vm_compute; reflexivity).
  exists ServiceError, sample_before. split; [exact H|].
  exact (@run_raises_nothing_of_its_own _ _ _ _ _ _ _ H).
Defined.

(* ================================================================= *)
(** ** Single functions of the clients *)

(** X19: [send_batch] never raises and posts at most once.  It posts
    nothing exactly when the batch is empty or no webhook is configured;
    otherwise it posts the requests of the batch, in order, with their
    number as [count].  An empty batch counts as a success, and an answer
    without success always carries an error text. *)
Theorem send_batch_posts_once w self (rs : list RedirectRequest) h :
  exists r calls,
    send_batch w self rs h = (Done r, h ++ calls)
    /\ (calls = []
        \/ calls = [requests_post (webhook_url self)
                      (batch_payload (map item_of rs) (length rs))
                      (timeout self)])
    /\ (calls = [] <-> rs = [] \/ webhook_url self = [])
    /\ (rs = [] -> resp_success r = true)
    /\ (resp_success r = false -> resp_error r <> None).
Proof.
  unfold send_batch, _send_request, io_ret.
  destruct rs as [|x rs]; cbn [nonempty negb].
  { exists no_redirects, []. rewrite app_nil_r. split_all; auto.
    split; auto. }
  destruct (webhook_url self) as [|c url] eqn:Hu; cbn [nonempty negb].
  { eexists _, []. rewrite app_nil_r. split_all; auto.
    split; auto. }
  destruct (requests_post_result w _); eexists _, [_];
    (split; [reflexivity|]); (split; [now right|]);
    (split; [split; [discriminate | intros [E|E]; discriminate E]|]);
    (split; [discriminate|]); cbn [resp_success resp_error];
    intros; discriminate.
Qed.

Lemma existsb_is_str name sheets :
  existsb (fun s => is_str s name) sheets = true <-> In (Some name) sheets.
Proof.
  rewrite existsb_exists. split.
  - intros ([s|] & Hin & Hs); [|discriminate].
    apply str_eqb_true in Hs. now subst.
  - intros Hin. exists (Some name). split; [exact Hin|]. apply str_eqb_refl.
Qed.

(** X20: [ensure_sheet_exists] creates a sheet only when the spreadsheet
    has none of that title, and answers [True] only when the sheet was
    there or has been created and given its header row. *)
Theorem ensure_sheet_exists_creates_missing w self name h :
  let sid := spreadsheet_id self in
  exists out calls,
    ensure_sheet_exists w self name h = (out, h ++ calls)
    /\ (forall title,
          In (spreadsheets_batchUpdate_addSheet sid title) calls ->
          title = name
          /\ exists sheets,
               spreadsheets_get_result w (h ++ [spreadsheets_get sid])
               = Returns sheets
               /\ ~ In (Some name) (get sheets []))
    /\ (out = Done true ->
        exists sheets,
          spreadsheets_get_result w (h ++ [spreadsheets_get sid])
          = Returns sheets
          /\ (In (Some name) (get sheets [])
              \/ calls = [spreadsheets_get sid;
                          spreadsheets_batchUpdate_addSheet sid name;
                          values_update sid (name ++ py "!A1:F1") headers])).
Proof.
  cbv zeta. unfold ensure_sheet_exists, io_bind, request, io_ret.
  destruct (service self); cbn [negb].
  2:{ exists (Done false), []. rewrite app_nil_r.
      split_all. intros ? []. }
  destruct (spreadsheets_get_result w
              (h ++ [spreadsheets_get (spreadsheet_id self)]))
    as [sheets| |] eqn:Hg.
  2,3: (eexists _, [_]; split; [reflexivity|]; split;
        [intros title [E|[]]; discriminate E | discriminate]).
  destruct (existsb (fun s => is_str s name) (get sheets [])) eqn:Hex;
    cbn [negb].
  { eexists _, [_]. split; [reflexivity|]. split.
    - intros title [E|[]]. discriminate E.
    - intros _. exists sheets. split; [reflexivity|]. left.
      now apply existsb_is_str. }
  assert (Hno : ~ In (Some name) (get sheets [])).
  { intros Hin. apply existsb_is_str in Hin. congruence. }
  assert (Hadd : forall (calls : list call) title,
            (forall c, In c calls ->
               c = spreadsheets_get (spreadsheet_id self)
               \/ c = spreadsheets_batchUpdate_addSheet (spreadsheet_id self)
                        name
               \/ c = values_update (spreadsheet_id self)
                        (name ++ py "!A1:F1") headers) ->
            In (spreadsheets_batchUpdate_addSheet (spreadsheet_id self) title)
               calls ->
            title = name
            /\ exists sheets0,
                 @Returns unit _ sheets = Returns sheets0
                 /\ ~ In (Some name) (get sheets0 [])).
  { intros calls title Hc Hin. apply Hc in Hin.
    destruct Hin as [E|[E|E]]; try discriminate E.
    inversion E; subst. split; [reflexivity|]. now exists sheets. }
  destruct (spreadsheets_batchUpdate_result w _).
  2,3: (rewrite <- app_assoc; eexists _, [_; _]; split; [reflexivity|];
        split; [intros title; apply Hadd; cbn [In]; intuition auto
               | discriminate]).
  destruct (values_update_result w _);
    rewrite <- !app_assoc; eexists _, [_; _; _];
    (split; [reflexivity|]);
    (split; [intros title; apply Hadd; cbn [In]; intuition auto|]);
    try discriminate.
  intros _. exists sheets. split; [reflexivity|]. now right.
Qed.

(* ================================================================= *)
(** ** From Slack to the sheet *)

(** X21: a run writes what the parser found.  The rows a run appends to
    the sheet [Redirects] are the rows of the records [parse_message]
    yields for the messages of the channel that await processing, message
    after message in the order of Slack's answer. *)
Theorem run_writes_what_it_parsed nr cfg w svc h out calls
  before sid rng rows after :
  run nr cfg w svc h = (out, h ++ calls) ->
  calls = before ++ values_append sid rng rows :: after ->
  sid = Config.GOOGLE_SHEETS_ID cfg /\ rng = py "Redirects!A:F"
  /\ exists before' result all,
       before = before' ++ [conversations_history
                              (Config.SLACK_CHANNEL_ID cfg) 100]
       /\ conversations_history_result w (h ++ before) = Returns result
       /\ parsed_from nr cfg
            (filter (awaits_processing cfg) (get result [])) all
       /\ rows = map row_of all.
Proof.
  intros Hrun Hc.
  destruct (run_shape nr cfg w svc h) as (out' & calls' & Hrun' & _ & Hcase).
  rewrite Hrun in Hrun'. inversion Hrun' as [[Ho Hcalls]].
  apply app_inv_head in Hcalls. subst out' calls'.
  destruct Hcase as [[Hq _] | (before' & all & Hall & Hq & Hfetch & Hcase)].
  { exfalso. rewrite Hc in Hq. eapply quiet_no_append; eauto. }
  assert (Hx : before = before'
               /\ values_append sid rng rows = append_of cfg all).
  { destruct Hcase as [(Hc' & _) | (_ & starts & k & _ & Hc' & _)];
      rewrite Hc in Hc'.
    - apply append_unique in Hc'; auto. tauto.
    - destruct (posts_silent cfg (batches all starts
                                    Config.MAX_REDIRECTS_PER_BATCH))
        as (_ & _ & _ & Hpf).
      destruct (marks_silent cfg (firstn k (distinct (map message_ts all))))
        as (_ & _ & _ & Hmf).
      apply append_unique in Hc'; auto; [tauto|].
      apply Forall_app. now split. }
  destruct Hx as [-> Hx]. unfold append_of in Hx. inversion Hx; subst.
  split; [reflexivity|]. split; [reflexivity|].
  destruct Hfetch as (c1 & result & Hb & Hres & Hpar).
  exists c1, result, all. now split_all.
Qed.

Lemma run_writes_what_it_parsed_witness :
  exists all,
    parsed_from (fun _ => false) sample_config
      [sample_message (py "https://x.com/a https://x.com/b")] all
    /\ map row_of [sample_request] = map row_of all.
Proof.
  destruct (@run_writes_what_it_parsed (fun _ => false) sample_config
              sample_world true [] (Done sample_results) sample_calls
              sample_before (py "sheet-1") (py "Redirects!A:F")
              (map row_of [sample_request]) sample_after)
    as (_ & _ & before' & result & all & _ & Hres & Hpar & Hrows).
  - vm_compute. reflexivity.
  - reflexivity.
  - exists all. split; [|exact Hrows].
    cbn in Hres. inversion Hres; subst result. exact Hpar.
Defined.

(* ================================================================= *)
(** ** A run without its configuration *)

(** X22: without its configuration a run does nothing.  When a required
    setting is empty, [run] makes no request at all and reports one
    error, which names the empty settings. *)
Theorem run_needs_configuration nr cfg w svc h :
  Config.is_valid cfg = false ->
  run nr cfg w svc h
  = (Done {| messages_processed := 0; redirects_found := 0;
             redirects_sent_to_n8n := 0;
             errors := [py "Missing configuration: "
                        ++ join (py ", ") (Config.validate cfg)] |}, h).
Proof.
  unfold Config.is_valid, run. cbv zeta.
  destruct (Config.validate cfg) as [|x missing]; [discriminate|].
  reflexivity.
Qed.

Lemma run_needs_configuration_witness :
  run (fun _ => false) incomplete_config sample_world true []
  = (Done {| messages_processed := 0; redirects_found := 0;
             redirects_sent_to_n8n := 0;
             errors := [py "Missing configuration: SLACK_BOT_TOKEN, N8N_WEBHOOK_URL"] |},
     []).
Proof.
  exact (run_needs_configuration (fun _ => false) incomplete_config
           sample_world true [] eq_refl).
Defined.

(* ================================================================= *)
(** ** Dicts without their URLs *)

Lemma sheet_items_key_error : forall ds h,
  (exists d, In d ds
             /\ (lookup d "old_url" = None \/ lookup d "new_url" = None)) ->
  exists key,
    sheet_items ds h = (Abort (KeyError key), h)
    /\ (key = "old_url"%string \/ key = "new_url"%string).
Proof.
  induction ds as [|d ds IH]; intros h (d0 & Hin & Hmiss); [contradiction|].
  cbn [sheet_items]. unfold io_bind, item, io_ret.
  destruct (lookup d "old_url") as [o|] eqn:Ho; [|eauto].
  destruct (lookup d "new_url") as [n|] eqn:Hn; [|eauto].
  destruct Hin as [<- | Hin]; [destruct Hmiss; congruence|].
  destruct (IH h) as (key & Hk & Hor); [eauto|].
  rewrite Hk. eauto.
Qed.

Lemma sheet_items_done : forall ds h,
  (forall d, In d ds ->
     lookup d "old_url" <> None /\ lookup d "new_url" <> None) ->
  exists its, sheet_items ds h = (Done its, h).
Proof.
  induction ds as [|d ds IH]; intros h Hall; [now exists []|].
  cbn [sheet_items]. unfold io_bind, item, io_ret.
  destruct (Hall d (or_introl eq_refl)) as [Ho Hn].
  destruct (lookup d "old_url") as [o|]; [|contradiction].
  destruct (lookup d "new_url") as [n|]; [|contradiction].
  destruct (IH h) as (its & Hi); [intros; apply Hall; now right|].
  rewrite Hi. eauto.
Qed.

Lemma dicts_complete_or_not : forall ds : list dict,
  (forall d, In d ds ->
     lookup d "old_url" <> None /\ lookup d "new_url" <> None)
  \/ exists d, In d ds
               /\ (lookup d "old_url" = None \/ lookup d "new_url" = None).
Proof.
  induction ds as [|d ds [IH|(d0 & Hin & Hd)]].
  - left. intros d [].
  - destruct (lookup d "old_url") eqn:Ho;
      [|right; exists d; split; [now left | now left]].
    destruct (lookup d "new_url") eqn:Hn;
      [|right; exists d; split; [now left | now right]].
    left. intros d' [<- | Hin]; [|now apply IH].
    rewrite Ho, Hn. split; discriminate.
  - right. exists d0. split; [now right | exact Hd].
Qed.

(** X23: a dict without [old_url] or [new_url] stops
    [send_batch_for_sheets] with a [KeyError] before anything is posted;
    a missing [requester] or [reason] does not, and when every dict has
    its two URLs no [KeyError] is raised. *)
Theorem send_batch_for_sheets_key_error w self (ds : list dict) h :
  (exists d, In d ds
             /\ (lookup d "old_url" = None \/ lookup d "new_url" = None))
  <-> exists key, send_batch_for_sheets w self ds h = (Abort (KeyError key), h).
Proof.
  split.
  - intros Hmiss. unfold send_batch_for_sheets.
    destruct ds as [|d ds]; [destruct Hmiss as (? & [] & _)|].
    cbn [nonempty negb]. unfold io_bind.
    destruct (sheet_items_key_error (d :: ds) h Hmiss) as (key & Hk & _).
    rewrite Hk. eauto.
  - intros (key & Hk).
    destruct (dicts_complete_or_not ds) as [Hall | Hex]; [|exact Hex].
    exfalso. unfold send_batch_for_sheets in Hk.
    destruct ds as [|d ds]; [discriminate Hk|].
    cbn [nonempty negb] in Hk. unfold io_bind in Hk.
    destruct (sheet_items_done (d :: ds) h Hall) as (its & Hi).
    rewrite Hi in Hk. unfold _send_request, io_ret in Hk.
    destruct (negb (nonempty (webhook_url self))); [discriminate Hk|].
    destruct (requests_post_result w _); discriminate Hk.
Qed.

(* ================================================================= *)
(** ** A run in which every request is answered *)

Section CalmRun.
Variable nr : str -> bool.
Variable cfg : Config.t.
Variable w : World.
Hypothesis calm : answers_all w.
Hypothesis valid : Config.validate cfg = [].

Lemma ensure_sheet_exists_calm name h :
  exists calls,
    ensure_sheet_exists w (sheets_handler cfg true) name h
    = (Done true, h ++ calls)
    /\ Forall (fun c => quiet c = true) calls.
Proof.
  destruct calm as (_ & _ & Hget & Hadd & Hupd & _).
  unfold ensure_sheet_exists, sheets_handler, io_bind, request, io_ret.
  cbn [service spreadsheet_id negb].
  match goal with
  | |- context [spreadsheets_get_result w ?x] =>
      destruct (Hget x) as [sheets Hs]; rewrite Hs
  end.
  destruct (negb _); [|eexists [_]; split; [reflexivity | auto]].
  rewrite Hadd, Hupd, <- !app_assoc. eexists [_; _; _].
  split; [reflexivity | auto].
Qed.

Lemma send_loop_calm all size : forall starts res h,
  Forall (fun b => b <> []) (batches all starts size) ->
  exists res',
    send_loop cfg w starts all size res h
    = (Done res', h ++ map (post_of cfg) (batches all starts size))
    /\ messages_processed res' = messages_processed res
    /\ redirects_found res' = redirects_found res
    /\ errors res' = errors res
    /\ redirects_sent_to_n8n res'
       = redirects_sent_to_n8n res + length (concat (batches all starts size)).
Proof.
  destruct calm as (_ & _ & _ & _ & _ & _ & Hpost).
  pose proof (validate_nil _ valid) as Hurl.
  induction starts as [|i starts IH]; intros res h Hb.
  - exists res. simpl. rewrite !app_nil_r, Nat.add_0_r. now split_all.
  - unfold batches in *. cbn [map concat] in *. inversion Hb; subst.
    cbn [send_loop]. unfold io_bind, send_batch, _send_request, n8n_client,
      N8NClient_init, io_ret.
    cbn [webhook_url timeout or_else].
    destruct (slice all i (i + size)) as [|r b] eqn:Hsl; [contradiction|].
    cbn [nonempty negb].
    destruct (Config.N8N_WEBHOOK_URL cfg) as [|c url] eqn:Hu; [contradiction|].
    cbn [nonempty negb].
    match goal with
    | |- context [requests_post_result w ?x] =>
        destruct (Hpost x) as (status & data & Hp); rewrite Hp
    end.
    cbn [resp_success].
    match goal with
    | |- context [send_loop cfg w starts all size ?res0 ?h0] =>
        destruct (IH res0 h0) as (res' & Hs & Hm & Hf & He & Hn);
          [assumption|]
    end.
    exists res'. rewrite Hs, <- app_assoc. unfold post_of at 2. rewrite Hu.
    cbn [add_sent messages_processed redirects_found redirects_sent_to_n8n
         errors] in *.
    rewrite length_app. split_all; auto. lia.
Qed.

Lemma mark_loop_calm : forall timestamps res h,
  mark_loop cfg w timestamps res h
  = (Done res, h ++ map (mark_of cfg) timestamps).
Proof.
  destruct calm as (_ & Hmark & _).
  induction timestamps as [|ts rest IH]; intros res h.
  - simpl. now rewrite app_nil_r.
  - cbn [mark_loop]. unfold mark_as_processed, request, io_ret, io_bind.
    cbn [or_else]. cbv beta zeta. fold (mark_of cfg ts).
    rewrite Hmark, IH, <- app_assoc. reflexivity.
Qed.

(** When every request is answered, a run comes to its end without an
    error, has sent all it found and has marked every message it wrote. *)
Lemma run_calm h :
  exists res calls all,
    run nr cfg w true h = (Done res, h ++ calls)
    /\ errors res = []
    /\ redirects_found res = length all
    /\ redirects_sent_to_n8n res = length all
    /\ appended calls = map row_of all
    /\ posted calls = map item_of all
    /\ marked calls = distinct (map message_ts all).
Proof.
  unfold run. cbv zeta. rewrite valid. cbn [nonempty].
  unfold io_bind at 1.
  destruct (ensure_sheet_exists_calm (py "Redirects") h) as (c1 & He & Hq1).
  rewrite He. cbn [negb]. unfold io_bind at 1.
  destruct (get_unprocessed_messages_trace cfg w (h ++ c1))
    as (o2 & Hg & _ & _).
  rewrite Hg. set (hist := conversations_history _ _) in *.
  assert (Hq2 : Forall (fun c => quiet c = true) (c1 ++ [hist])).
  { apply Forall_app. split; [exact Hq1|]. now constructor. }
  destruct (quiet_silent Hq2) as (Ha2 & Hp2 & Hm2).
  destruct o2 as [messages|e].
  2:{ exfalso. destruct calm as (Hh & _).
      unfold get_unprocessed_messages, io_bind, request, io_ret in Hg.
      cbn [or_else] in Hg. cbv zeta in Hg.
      match type of Hg with
      | context [conversations_history_result w ?x] =>
          destruct (Hh x) as [r Hr]; rewrite Hr in Hg
      end.
      discriminate Hg. }
  destruct (nonempty messages) eqn:Hm; cbn [negb].
  2:{ eexists _, (c1 ++ [hist]), []. rewrite app_assoc.
      split; [reflexivity|]. rewrite Ha2, Hp2, Hm2. now split_all. }
  unfold io_bind at 1. unfold lift at 1.
  destruct (parse_loop_keys nr cfg messages [] [])
    as (rss & d & Hp & _ & Hk); [reflexivity|].
  cbn [app] in Hp, Hk. remember (concat rss) as all eqn:Eall. clear Eall.
  rewrite Hp. cbn [fst snd].
  destruct (nonempty all) eqn:Hall; cbn [negb].
  2:{ apply nonempty_false in Hall. subst all.
      eexists _, (c1 ++ [hist]), []. rewrite app_assoc.
      split; [reflexivity|]. rewrite Ha2, Hp2, Hm2. now split_all. }
  apply nonempty_true in Hall.
  unfold io_bind at 1.
  rewrite (write_redirects_trace cfg w (py "Redirects") ((h ++ c1) ++ [hist])
             Hall).
  fold (append_of cfg all).
  destruct calm as (_ & _ & _ & _ & _ & Happ & _). rewrite Happ.
  cbn [negb]. unfold io_bind at 1. unfold lift at 1.
  rewrite (@range_ok 0 (length all) _ batch_size_positive).
  destruct (@batches_concat _ all) as (starts & Hr & Hcat & Hsz).
  rewrite (@range_ok 0 (length all) _ batch_size_positive) in Hr.
  apply Ok_inj in Hr. rewrite Hr. clear Hr.
  unfold io_bind at 1.
  assert (Hb : Forall (fun b : list RedirectRequest => b <> [])
                 (batches all starts Config.MAX_REDIRECTS_PER_BATCH)).
  { eapply Forall_impl; [|exact Hsz]. intros b Hl E. rewrite E in Hl.
    simpl in Hl. lia. }
  match goal with
  | |- context [send_loop cfg w starts all ?size ?res ?h0] =>
      destruct (@send_loop_calm all size starts res h0 Hb)
        as (res1 & Hs & _ & Hf & Her & Hn)
  end.
  rewrite Hs, mark_loop_calm, Hk.
  exists res1, ((c1 ++ [hist]) ++ append_of cfg all
                :: map (post_of cfg)
                     (batches all starts Config.MAX_REDIRECTS_PER_BATCH)
                ++ map (mark_of cfg) (distinct (map message_ts all))), all.
  split; [f_equal; rewrite <- !app_assoc; reflexivity|].
  destruct (posts_silent cfg (batches all starts
                                Config.MAX_REDIRECTS_PER_BATCH))
    as (Hpa & Hpm & Hpp & _).
  destruct (marks_silent cfg (distinct (map message_ts all)))
    as (Hma & Hmp & Hmm & _).
  rewrite appended_app, posted_app, marked_app, Ha2, Hp2, Hm2.
  cbn [appended posted marked flat_map append_of app].
  fold (appended (map (post_of cfg)
                    (batches all starts Config.MAX_REDIRECTS_PER_BATCH)
                  ++ map (mark_of cfg) (distinct (map message_ts all)))).
  fold (posted (map (post_of cfg)
                  (batches all starts Config.MAX_REDIRECTS_PER_BATCH)
                ++ map (mark_of cfg) (distinct (map message_ts all)))).
  fold (marked (map (post_of cfg)
                  (batches all starts Config.MAX_REDIRECTS_PER_BATCH)
                ++ map (mark_of cfg) (distinct (map message_ts all)))).
  rewrite appended_app, posted_app, marked_app.
  rewrite Hpa, Hma, Hpp, Hmp, Hpm, Hmm, Hcat, !app_nil_r.
  cbn [app]. cbn [set_counts errors redirects_found redirects_sent_to_n8n]
    in *.
  split_all; auto.
  rewrite Hn, Hcat. reflexivity.
Qed.

End CalmRun.

(** X24: when every request is answered without an error and
    [SheetsHandler] has built its service, a run comes to its end and
    reports no error; the requests it counts as found are those it has
    appended to the sheet, posted to the webhook in the same order, and
    whose messages it has marked, each message once.  Without the service
    the run makes no request and reports that the sheet could not be
    ensured. *)
Theorem run_in_a_calm_world nr cfg w svc h :
  answers_all w -> Config.is_valid cfg = true ->
  (svc = true ->
   exists res calls all,
     run nr cfg w svc h = (Done res, h ++ calls)
     /\ errors res = []
     /\ redirects_found res = length all
     /\ redirects_sent_to_n8n res = length all
     /\ appended calls = map row_of all
     /\ posted calls = map item_of all
     /\ marked calls = distinct (map message_ts all))
  /\ (svc = false ->
      exists res,
        run nr cfg w svc h = (Done res, h)
        /\ errors res = [py "Failed to ensure sheet exists"]
        /\ messages_processed res = 0
        /\ redirects_found res = 0
        /\ redirects_sent_to_n8n res = 0).
Proof.
  intros Hw Hv.
  assert (Hval : Config.validate cfg = []).
  { unfold Config.is_valid in Hv.
    destruct (Config.validate cfg); [reflexivity | discriminate]. }
  split; intros ->.
  - now apply run_calm.
  - unfold run. cbv zeta. rewrite Hval. cbn [nonempty].
    eexists. split; [reflexivity|]. now split_all.
Qed.

Lemma run_in_a_calm_world_witness :
  (exists res, fst (run (fun _ => false) sample_config sample_world true [])
               = Done res
               /\ errors res = [])
  /\ (exists res, run (fun _ => false) sample_config sample_world false []
                  = (Done res, [])
                  /\ errors res = [py "Failed to ensure sheet exists"]).
Proof.
  assert (Hw : answers_all sample_world).
  { unfold answers_all, sample_world, calm_world; cbn.
    repeat split; intros; eauto. }
  split.
  - destruct (@run_in_a_calm_world (fun _ => false) sample_config
                sample_world true [] Hw eq_refl) as [Hyes _].
    destruct (Hyes eq_refl) as (res & calls & all & Hrun & He & _).
    exists res. rewrite Hrun. split; [reflexivity | exact He].
  - destruct (@run_in_a_calm_world (fun _ => false) sample_config
                sample_world false [] Hw eq_refl) as [_ Hno].
    destruct (Hno eq_refl) as (res & Hrun & He & _).
    exists res. split; [exact Hrun | exact He].
Defined.
